(** * Prayer Times Kerala service worker: cache router and notification scheduler

    Shallow embedding of the two service workers of the repository
    (generation v2.0.0, [dashboard/sw.js], and generation v2.1.0 with
    notification support) and the properties of their routing, cache
    clean-up, time parsing, scheduling and scanning code.

    Modelling conventions.
    - A JavaScript string that is inspected character by character (a prayer
      time such as [5:15 AM]) is a list of UTF-16 code units, [list N].
      Names that the code only compares (cache names, header names, URLs,
      the keys the worker writes itself) are [string].
    - An IndexedDB object store with key path [id] is a [gmap] from the key
      to the record; [getAll] enumerates it with [map_to_list] (statements
      do not depend on the enumeration order). The key of a [prayerTimes]
      record can come from a message payload, so it is a [list N].
    - [CacheStorage] is the list of its caches in creation order, which is
      the order [caches.keys()] and [caches.match()] follow. A cache is the
      list of its (request, response) entries in insertion order; a request
      matches an entry as the Cache API has it: same URL up to the fragment,
      and the same values for the request headers that the [Vary] header of
      the stored response names.
    - Every [new Date()] / [Date.now()] the code performs is an argument of
      the embedded function (epoch milliseconds, [Z]); the conversion between
      UTC and local wall-clock time is a [TimeZone] argument.
    - IndexedDB operations are taken to succeed. [Cache.put] and
      [Cache.addAll] reject where the Cache API says so (a request that is
      not a GET over http(s), a response of status 206 or with [Vary: *], a
      batch with two requests that match).
    - A handler of the [fetch] listener returns its response and the cache
      storage once the [cache.put] it started, which it does not await, has
      settled; fetch events are taken one at a time.
    - A function of the worker is embedded twice where the order of events
      matters: as the function it computes when nothing runs in between
      ([scheduleNotifications], [checkAndShowNotifications], [on_message]),
      and as a task that the worker machine advances one store operation at
      a time, other tasks running in between. *)

From Stdlib Require Import ZArith NArith Lia.
From stdpp Require Import gmap strings list fin_maps.

Local Open Scope Z_scope.

(* ===================================================================== *)
(** ** JavaScript strings and the time pattern *)
(* ===================================================================== *)

Module JS.

(** Code units of an ASCII literal. *)
Definition of_string (s : string) : list N :=
Ascii.N_of_ascii <$> String.list_ascii_of_string s.

(** [\d] : the ten ASCII digits. *)
Definition is_digit (c : N) : bool := ((48 <=? c) && (c <=? 57))%N.

(** [\s] : ECMAScript WhiteSpace and LineTerminator code units. *)
Definition is_space (c : N) : bool :=
(existsb (N.eqb c)
   [9; 10; 11; 12; 13; 32; 160; 5760; 8232; 8233; 8239; 8287; 12288; 65279]
 || ((8192 <=? c) && (c <=? 8202)))%N.

(** A pattern letter under the [i] flag (no [u] flag): the letter itself or
  its ASCII lower-case form; no code unit above 127 canonicalizes to an
  ASCII letter. [p] is the upper-case code unit. *)
Definition ci_eq (c p : N) : bool := ((c =? p) || (c =? p + 32))%N.

(** [String.prototype.toUpperCase] on the letters a pattern letter can
  match. *)
Definition toUpperCase (s : list N) : list N :=
(fun c => if ((97 <=? c) && (c <=? 122))%N then (c - 32)%N else c) <$> s.

(** [parseInt(digits, 10)] on a run of ASCII digits. *)
Definition parseInt (ds : list N) : Z :=
foldl (fun acc d => 10 * acc + (Z.of_N d - 48)) 0 ds.

(** The three capture groups of [/(\d{1,2}):(\d{2})\s*(AM|PM)/i]. *)
Record TimeMatch := {
m_hours : list N;
m_minutes : list N;
m_period : list N
}.

(** [\s*], greedy. Giving back a white-space character cannot help: the
  next pattern item is a letter. *)
Fixpoint skip_spaces (s : list N) : list N :=
match s with
| c :: r => if is_space c then skip_spaces r else s
| [] => []
end.

(** [(AM|PM)] under the [i] flag. *)
Definition match_period (s : list N) : option (list N) :=
match s with
| c1 :: c2 :: _ =>
    if (ci_eq c1 65 || ci_eq c1 80) && ci_eq c2 77 then Some [c1; c2] else None
| _ => None
end.

(** [:(\d{2})\s*(AM|PM)] once the hour digits [hs] are consumed. *)
Definition match_rest (hs : list N) (s : list N) : option TimeMatch :=
match s with
| c :: d1 :: d2 :: r =>
    if (c =? 58)%N && is_digit d1 && is_digit d2 then
      match match_period (skip_spaces r) with
      | Some p => Some {| m_hours := hs; m_minutes := [d1; d2]; m_period := p |}
      | None => None
      end
    else None
| _ => None
end.

(** The whole pattern anchored at the head of [s]: [\d{1,2}] is greedy, so
  two hour digits are tried first and one digit on backtracking. *)
Definition match_here (s : list N) : option TimeMatch :=
match s with
| h1 :: r1 =>
    if is_digit h1 then
      match
        match r1 with
        | h2 :: r2 => if is_digit h2 then match_rest [h1; h2] r2 else None
        | [] => None
        end
      with
      | Some m => Some m
      | None => match_rest [h1] r1
      end
    else None
| [] => None
end.

(** [timeStr.match(re)] without the [g] flag: the leftmost match. *)
Fixpoint regex_match (s : list N) : option TimeMatch :=
match match_here s with
| Some m => Some m
| None => match s with
          | [] => None
          | _ :: r => regex_match r
          end
end.

End JS.

(* ===================================================================== *)
(** ** Local time *)
(* ===================================================================== *)

(** Conversion between epoch milliseconds and the local wall clock (the
    host's time zone), as the [Date] getters and constructor use it. *)
Record TimeZone := {
  local_of_utc : Z -> Z;
  utc_of_local : Z -> Z
}.

Definition msPerDay : Z := 86400000.
Definition msPerHour : Z := 3600000.
Definition msPerMinute : Z := 60000.

(** [new Date(d.getFullYear(), d.getMonth(), d.getDate(), hours, minutes, 0)]
    for [d] the instant [today]: the local calendar day of [today] is
    recomposed unchanged, and [hours], [minutes] are added to its local
    midnight (values beyond 23 or 59 carry over, as in the constructor). *)
Definition localDate (tz : TimeZone) (today hours minutes : Z) : Z :=
  utc_of_local tz
    (msPerDay * (local_of_utc tz today / msPerDay)
     + hours * msPerHour + minutes * msPerMinute).

(** [parseTimeToDate(timeStr)]; [today] is the reading of the [new Date()]
    inside the function, [None] is [null]. *)
Definition parseTimeToDate (tz : TimeZone) (today : Z) (timeStr : list N) : option Z :=
  match timeStr with
  | [] => None
  | _ =>
    match JS.regex_match timeStr with
    | None => None
    | Some m =>
        let hours := JS.parseInt (JS.m_hours m) in
        let minutes := JS.parseInt (JS.m_minutes m) in
        let period := JS.toUpperCase (JS.m_period m) in
        let hours :=
          if bool_decide (period = JS.of_string "PM") && negb (hours =? 12)
          then hours + 12
          else if bool_decide (period = JS.of_string "AM") && (hours =? 12)
          then 0
          else hours in
        Some (localDate tz today hours minutes)
    end
  end.

(** Indian Standard Time, UTC+05:30 all year. *)
Definition IST : TimeZone :=
  {| local_of_utc := fun t => t + 19800000;
     utc_of_local := fun t => t - 19800000 |}.


(* ===================================================================== *)
(** ** Local store (IndexedDB [PrayerTimesDB]) *)
(* ===================================================================== *)

(** Record of the [settings] store. *)
Record NotificationSettings := {
  s_id : string;
  s_enabled : bool;
  s_prayers : gmap string bool
}.

(** Record of the [prayerTimes] store: its [id], the other string-valued
    properties pushed by the page (provider keys [subh], [sunrise], ... and
    [location]) and the [updatedAt] stamp. An absent property reads as
    [undefined]. *)
Record PrayerTimes := {
  pt_id : list N;
  pt_fields : gmap string (list N);
  pt_updatedAt : Z
}.

(** Record of the [scheduledNotifications] store. *)
Record ScheduledNotification := {
  n_id : string;
  n_prayer : string;
  n_time : Z;
  n_timeStr : list N;
  n_notified : bool
}.

Record DB := {
  settings : gmap string NotificationSettings;
  prayerTimes : gmap (list N) PrayerTimes;
  scheduledNotifications : gmap string ScheduledNotification
}.

Definition empty_db : DB :=
  {| settings := ∅; prayerTimes := ∅; scheduledNotifications := ∅ |}.

Definition with_settings (s : gmap string NotificationSettings) (d : DB) : DB :=
  {| settings := s; prayerTimes := prayerTimes d;
     scheduledNotifications := scheduledNotifications d |}.

Definition with_prayerTimes (p : gmap (list N) PrayerTimes) (d : DB) : DB :=
  {| settings := settings d; prayerTimes := p;
     scheduledNotifications := scheduledNotifications d |}.

Definition with_scheduled (n : gmap string ScheduledNotification) (d : DB) : DB :=
  {| settings := settings d; prayerTimes := prayerTimes d;
     scheduledNotifications := n |}.

(** [dbPut("scheduledNotifications", data)]: the key is [data.id]. *)
Definition dbPut_scheduled (data : ScheduledNotification) (d : DB) : DB :=
  with_scheduled (<[n_id data := data]> (scheduledNotifications d)) d.

(** [dbGetAll("scheduledNotifications")]. *)
Definition dbGetAll_scheduled (d : DB) : list ScheduledNotification :=
  (map_to_list (scheduledNotifications d)).*2.

(** [dbClear("scheduledNotifications")]. *)
Definition dbClear_scheduled (d : DB) : DB := with_scheduled ∅ d.

(* ===================================================================== *)
(** ** Notification functions *)
(* ===================================================================== *)

Definition default_settings : NotificationSettings :=
  {| s_id := "notifications";
     s_enabled := false;
     s_prayers := <["fajr" := true]> (<["sunrise" := false]> (<["dhuhr" := true]>
                  (<["asr" := true]> (<["maghrib" := true]> (<["isha" := true]> ∅))))) |}.

(** [getNotificationSettings()]: a read-only [dbGet]; the default object is
    returned, not stored. *)
Definition getNotificationSettings (d : DB) : NotificationSettings :=
  default default_settings (settings d !! "notifications").

(** [getPrayerTimes()]: the record under the key [today]. *)
Definition getPrayerTimes (d : DB) : option PrayerTimes :=
  prayerTimes d !! JS.of_string "today".

(** [timeMapping], in property order. *)
Definition timeMapping : list (string * string) :=
  [("fajr", "subh"); ("sunrise", "sunrise"); ("dhuhr", "duhr");
   ("asr", "asar"); ("maghrib", "maghrib"); ("isha", "isha")].

(** Template of [PRAYER_MESSAGES]. *)
Record PrayerMessage := {
  pm_title : string;
  pm_body : string
}.
(* The icon property of a template is never read by the worker. *)

(** The own properties of [PRAYER_MESSAGES]. *)
Definition PRAYER_MESSAGES : gmap string PrayerMessage :=
  <["fajr" := {| pm_title := "Fajr · {time}";
                 pm_body := "Time for Fajr prayer in {location}. Start your day with blessings." |}]> (
  <["sunrise" := {| pm_title := "Sunrise · {time}";
                    pm_body := "The sun has risen in {location}. May your day be blessed." |}]> (
  <["dhuhr" := {| pm_title := "Dhuhr · {time}";
                  pm_body := "Time for Dhuhr prayer in {location}. Take a moment to connect." |}]> (
  <["asr" := {| pm_title := "Asr · {time}";
                pm_body := "Time for Asr prayer in {location}. Pause and reflect." |}]> (
  <["maghrib" := {| pm_title := "Maghrib · {time}";
                    pm_body := "Time for Maghrib prayer in {location}. The day comes to a close." |}]> (
  <["isha" := {| pm_title := "Isha · {time}";
                 pm_body := "Time for Isha prayer in {location}. End your day in remembrance." |}]> ∅))))).

(** The properties that [PRAYER_MESSAGES], an object literal, inherits from
    [Object.prototype]. [PRAYER_MESSAGES[name]] is for each of them an
    object or a function: truthy, and without a [title]. *)
Definition Object_prototype : list string :=
  ["constructor"; "__defineGetter__"; "__defineSetter__"; "hasOwnProperty";
   "__lookupGetter__"; "__lookupSetter__"; "isPrototypeOf";
   "propertyIsEnumerable"; "toString"; "valueOf"; "__proto__"; "toLocaleString"].

(** What the worker asks of its host. The texts built from the template are
    left as the template and the two values substituted into it. *)
Inductive PlatformCall :=
  | ShowNotification (message : PrayerMessage) (prayer : string)
      (time : list N) (location : list N) (resolved : bool)
      (** [self.registration.showNotification(title, options)], tag
          [prayer-<prayer>], data [prayer], [time], [location]; [resolved]
          tells whether the host showed it or rejected the call *)
  | PostMessage (client : nat) (prayer : string) (time : list N) (location : list N)
      (** [client.postMessage({type: PRAYER_NOTIFICATION_SHOWN, ...})] *).

(** The host of the worker: its time zone, the window clients that
    [clients.matchAll] returns, and whether [showNotification] resolves
    (it rejects without the notification permission). *)
Record Host := {
  host_tz : TimeZone;
  host_windows : list nat;
  host_permission : bool
}.

(** [prayerTimes?.location || "your area"]. *)
Definition locationName (d : DB) : list N :=
  match getPrayerTimes d with
  | Some pt =>
      match pt_fields pt !! "location" with
      | Some (c :: l) => c :: l
      | _ => JS.of_string "your area"
      end
  | None => JS.of_string "your area"
  end.

(** [showPrayerNotification(prayer, timeStr)]: the calls it makes, or
    [None] when it throws. Without a message for [prayer] it returns at
    once. For a name of [Object.prototype] the message is truthy and
    [message.title.replace] throws a [TypeError], outside the [try]. A
    rejected [showNotification] is caught and skips the client messages. *)
Definition showPrayerNotification (h : Host) (prayer : string) (timeStr : list N)
    (d : DB) : option (list PlatformCall) :=
  match PRAYER_MESSAGES !! prayer with
  | None => if bool_decide (prayer ∈ Object_prototype) then None else Some []
  | Some message =>
      let location := locationName d in
      Some (ShowNotification message prayer timeStr location (host_permission h) ::
            (if host_permission h
             then (fun client => PostMessage client prayer timeStr location) <$> host_windows h
             else []))
  end.

(** One execution of the body of the scan's [if]: the scanned record and
    the calls [showPrayerNotification] made for it. *)
Record Firing := {
  f_entry : ScheduledNotification;
  f_calls : list PlatformCall
}.

(** State of the scheduler: the store and the log of firings so far. *)
Record World := {
  db : DB;
  fired : list Firing
}.

Definition mark_notified (n : ScheduledNotification) : ScheduledNotification :=
  {| n_id := n_id n; n_prayer := n_prayer n; n_time := n_time n;
     n_timeStr := n_timeStr n; n_notified := true |}.

(** The clock readings of one run of [scheduleNotifications]: [r_now] is
    [now], [r_today p] the [new Date()] inside the [parseTimeToDate] call
    made for prayer [p]; [r_stamp] is the [Date.now()] of an
    [UPDATE_PRAYER_TIMES] message. *)
Record Readings := {
  r_now : Z;
  r_today : string -> Z;
  r_stamp : Z
}.

(** Body of the [for] loop of [scheduleNotifications]. *)
Definition schedule_body (h : Host) (r : Readings) (s : NotificationSettings)
    (pt : PrayerTimes) (d : DB) (entry : string * string) : DB :=
  let '(prayer, apiKey) := entry in
  match s_prayers s !! prayer, pt_fields pt !! apiKey with
  | Some true, Some (c :: l) =>
      let timeStr := c :: l in
      match parseTimeToDate (host_tz h) (r_today r prayer) timeStr with
      | Some prayerTime =>
          if r_now r <? prayerTime then
            dbPut_scheduled
              {| n_id := prayer; n_prayer := prayer; n_time := prayerTime;
                 n_timeStr := timeStr; n_notified := false |} d
          else d
      | None => d
      end
  | _, _ => d
  end.

(** [scheduleNotifications()], run without interruption. *)
Definition scheduleNotifications (h : Host) (r : Readings) (d : DB) : DB :=
  let s := getNotificationSettings d in
  match s_enabled s, getPrayerTimes d with
  | true, Some pt => foldl (schedule_body h r s pt) (dbClear_scheduled d) timeMapping
  | _, _ => d
  end.

(** Body of the [for] loop of [checkAndShowNotifications]; [notification]
    is the record read by [dbGetAll] before the loop. [None] when
    [showPrayerNotification] throws: nothing is written then. *)
Definition scan_body (h : Host) (now : Z) (w : World)
    (notification : ScheduledNotification) : option World :=
  if n_notified notification then Some w
  else
    let timeDiff := n_time notification - now in
    if (timeDiff <=? 60000) && (timeDiff >=? -60000) then
      match showPrayerNotification h (n_prayer notification)
              (n_timeStr notification) (db w) with
      | Some calls =>
          Some {| db := dbPut_scheduled (mark_notified notification) (db w);
                  fired := fired w ++ [{| f_entry := notification; f_calls := calls |}] |}
      | None => None
      end
    else Some w.

(** The [for] loop: an exception ends it. *)
Fixpoint scan_loop (h : Host) (now : Z) (w : World)
    (scheduledNotifications : list ScheduledNotification) : World :=
  match scheduledNotifications with
  | [] => w
  | notification :: rest =>
      match scan_body h now w notification with
      | Some w' => scan_loop h now w' rest
      | None => w
      end
  end.

(** [checkAndShowNotifications()], run without interruption; [now] is its
    [Date.now()]. *)
Definition checkAndShowNotifications (h : Host) (now : Z) (w : World) : World :=
  if s_enabled (getNotificationSettings (db w)) then
    scan_loop h now w (dbGetAll_scheduled (db w))
  else w.

Definition on_db (f : DB -> DB) (w : World) : World :=
  {| db := f (db w); fired := fired w |}.

(* ===================================================================== *)
(** ** Control channel *)
(* ===================================================================== *)

(** The messages of the [message] listener that act on the store. The
    payload of [UPDATE_NOTIFICATION_SETTINGS] has the two properties of a
    settings record, that of [UPDATE_PRAYER_TIMES] any string-valued
    properties, [id] and [updatedAt] among them. *)
Inductive ControlMessage :=
  | UPDATE_NOTIFICATION_SETTINGS (enabled : bool) (prayers : gmap string bool)
  | UPDATE_PRAYER_TIMES (fields : gmap string (list N))
  | CHECK_NOTIFICATIONS
  | SCHEDULE_NOTIFICATIONS.

(** [dbPut("settings", {id: "notifications", ...data})]. *)
Definition put_settings (enabled : bool) (prayers : gmap string bool) (d : DB) : DB :=
  with_settings
    (<["notifications" := {| s_id := "notifications"; s_enabled := enabled;
                             s_prayers := prayers |}]> (settings d)) d.

(** [dbPut("prayerTimes", {id: "today", ...data, updatedAt: Date.now()})].
    The payload is spread after [id] and before [updatedAt]: an [id] of the
    payload replaces [today], and is the key of the record; an [updatedAt]
    of the payload is replaced by the stamp. *)
Definition put_prayerTimes (fields : gmap string (list N)) (stamp : Z) (d : DB) : DB :=
  let id := default (JS.of_string "today") (fields !! "id") in
  with_prayerTimes
    (<[id := {| pt_id := id;
                pt_fields := delete "id" (delete "updatedAt" fields);
                pt_updatedAt := stamp |}]> (prayerTimes d)) d.

(** The [message] listener, each case run without interruption. *)
Definition on_message (h : Host) (r : Readings) (msg : ControlMessage)
    (w : World) : World :=
  match msg with
  | UPDATE_NOTIFICATION_SETTINGS enabled prayers =>
      on_db (fun d => scheduleNotifications h r (put_settings enabled prayers d)) w
  | UPDATE_PRAYER_TIMES fields =>
      on_db (fun d => scheduleNotifications h r (put_prayerTimes fields (r_stamp r) d)) w
  | CHECK_NOTIFICATIONS => checkAndShowNotifications h (r_now r) w
  | SCHEDULE_NOTIFICATIONS => on_db (scheduleNotifications h r) w
  end.

(* ===================================================================== *)
(** ** Interleaved scans *)
(* ===================================================================== *)

(** The coarse machine: scans in flight, suspended between two passes of
    their loop. An in-flight scan holds the [now] it read and the records
    of its [dbGetAll] that it still has to visit. The other handlers are
    taken in one piece; the worker machine below suspends every handler at
    each of its store operations. *)
Record Scan := {
  scan_now : Z;
  scan_todo : list ScheduledNotification
}.

Record System := {
  world : World;
  scans : list Scan
}.

(** What the event loop may run next. *)
Inductive Action :=
  | Trigger (now : Z)
      (** a timer tick, a sync event or [CHECK_NOTIFICATIONS] calls
          [checkAndShowNotifications], which runs until [dbGetAll] has
          resolved and [now] is read *)
  | Resume (i : nat)
      (** the [i]-th in-flight scan runs one iteration of its loop *)
  | Deliver (r : Readings) (msg : ControlMessage)
      (** a control message is handled, its handler running to the end
          before anything else runs *).

Definition start_scan (now : Z) (s : System) : System :=
  if s_enabled (getNotificationSettings (db (world s))) then
    {| world := world s;
       scans := scans s ++ [{| scan_now := now;
                               scan_todo := dbGetAll_scheduled (db (world s)) |}] |}
  else s.

Definition system_step (h : Host) (s : System) (a : Action) : System :=
  match a with
  | Trigger now => start_scan now s
  | Resume i =>
      match scans s !! i with
      | Some sc =>
          match scan_todo sc with
          | notification :: todo =>
              match scan_body h (scan_now sc) (world s) notification with
              | Some w' =>
                  {| world := w';
                     scans := <[i := {| scan_now := scan_now sc; scan_todo := todo |}]> (scans s) |}
              | None =>
                  (* the exception ends the scan *)
                  {| world := world s;
                     scans := <[i := {| scan_now := scan_now sc; scan_todo := [] |}]> (scans s) |}
              end
          | [] => s
          end
      | None => s
      end
  | Deliver r CHECK_NOTIFICATIONS =>
      (* the scan it calls is in flight like any other *)
      start_scan (r_now r) s
  | Deliver r msg =>
      (* the other messages are handled without interruption *)
      {| world := on_message h r msg (world s); scans := scans s |}
  end.

Definition system_run (h : Host) (s : System) (acts : list Action) : System :=
  foldl (system_step h) s acts.

(** The [now] an action reads, if it reads one. *)
Definition action_now (a : Action) : option Z :=
  match a with
  | Trigger now => Some now
  | Resume _ => None
  | Deliver r _ => Some (r_now r)
  end.

(* ===================================================================== *)
(** ** The worker machine: every handler interleaved at its awaits *)
(* ===================================================================== *)

(** A handler in flight, named after the store operation whose result it
    awaits; it holds the values its continuation uses. The handlers of the
    [message] listener, [scheduleNotifications] and
    [checkAndShowNotifications] suspend at each [dbGet], [dbGetAll],
    [dbClear] and [dbPut]; between two of them they run without
    interruption. *)
Inductive Task :=
  | PutSettings (r : Readings) (enabled : bool) (prayers : gmap string bool)
      (** [UPDATE_NOTIFICATION_SETTINGS] at [await dbPut("settings", ...)] *)
  | PutPrayerTimes (r : Readings) (fields : gmap string (list N))
      (** [UPDATE_PRAYER_TIMES] at [await dbPut("prayerTimes", ...)] *)
  | ReadSettings (r : Readings)
      (** [scheduleNotifications] at [await getNotificationSettings()] *)
  | ReadPrayerTimes (r : Readings) (settings : NotificationSettings)
      (** [scheduleNotifications] at [await getPrayerTimes()] *)
  | ClearScheduled (r : Readings) (settings : NotificationSettings)
      (prayerTimes : PrayerTimes)
      (** [scheduleNotifications] at [await dbClear(...)] *)
  | PutScheduled (r : Readings) (settings : NotificationSettings)
      (prayerTimes : PrayerTimes) (data : ScheduledNotification)
      (rest : list (string * string))
      (** [scheduleNotifications] at the [await dbPut(...)] of its loop;
          [rest] are the pairs of [timeMapping] still to visit *)
  | ScanSettings (now : Z)
      (** [checkAndShowNotifications] at [await getNotificationSettings()];
          [now] is the [Date.now()] it will read *)
  | ScanGetAll (now : Z)
      (** [checkAndShowNotifications] at [await dbGetAll(...)] *)
  | ScanLocation (now : Z) (notification : ScheduledNotification)
      (todo : list ScheduledNotification)
      (** [showPrayerNotification], called by the scan for [notification],
          at [await getPrayerTimes()] *)
  | ScanPut (now : Z) (notification : ScheduledNotification)
      (todo : list ScheduledNotification)
      (** [checkAndShowNotifications] at the [await dbPut(...)] of its
          loop *)
  | Finished.

(** The loop of [scheduleNotifications] from the pairs [rest] on, up to
    its next [await]. *)
Fixpoint schedule_continue (h : Host) (r : Readings) (s : NotificationSettings)
    (pt : PrayerTimes) (rest : list (string * string)) : Task :=
  match rest with
  | [] => Finished
  | (prayer, apiKey) :: rest =>
      match s_prayers s !! prayer, pt_fields pt !! apiKey with
      | Some true, Some (c :: l) =>
          let timeStr := c :: l in
          match parseTimeToDate (host_tz h) (r_today r prayer) timeStr with
          | Some prayerTime =>
              if r_now r <? prayerTime then
                PutScheduled r s pt
                  {| n_id := prayer; n_prayer := prayer; n_time := prayerTime;
                     n_timeStr := timeStr; n_notified := false |} rest
              else schedule_continue h r s pt rest
          | None => schedule_continue h r s pt rest
          end
      | _, _ => schedule_continue h r s pt rest
      end
  end.

(** The loop of [checkAndShowNotifications] from the records [todo] on, up
    to its next [await], with the firings it logs on the way: for a record
    to fire whose prayer has no message, [showPrayerNotification] returns
    without awaiting anything. *)
Fixpoint scan_continue (now : Z) (todo : list ScheduledNotification)
    : Task * list Firing :=
  match todo with
  | [] => (Finished, [])
  | notification :: todo =>
      if n_notified notification then scan_continue now todo
      else
        let timeDiff := n_time notification - now in
        if (timeDiff <=? 60000) && (timeDiff >=? -60000) then
          match PRAYER_MESSAGES !! n_prayer notification with
          | None =>
              if bool_decide (n_prayer notification ∈ Object_prototype)
              then (ScanLocation now notification todo, [])
              else (ScanPut now notification todo,
                    [{| f_entry := notification; f_calls := [] |}])
          | Some _ => (ScanLocation now notification todo, [])
          end
        else scan_continue now todo
  end.

(** One store operation of a task and the run of its continuation up to
    the next one. The calls that [showPrayerNotification] makes to the host
    follow its read of the snapshot and are logged with it. *)
Definition task_step (h : Host) (t : Task) (w : World) : Task * World :=
  match t with
  | PutSettings r enabled prayers =>
      (ReadSettings r, on_db (put_settings enabled prayers) w)
  | PutPrayerTimes r fields =>
      (ReadSettings r, on_db (put_prayerTimes fields (r_stamp r)) w)
  | ReadSettings r =>
      (ReadPrayerTimes r (getNotificationSettings (db w)), w)
  | ReadPrayerTimes r s =>
      match s_enabled s, getPrayerTimes (db w) with
      | true, Some pt => (ClearScheduled r s pt, w)
      | _, _ => (Finished, w)
      end
  | ClearScheduled r s pt =>
      (schedule_continue h r s pt timeMapping, on_db dbClear_scheduled w)
  | PutScheduled r s pt data rest =>
      (schedule_continue h r s pt rest, on_db (dbPut_scheduled data) w)
  | ScanSettings now =>
      if s_enabled (getNotificationSettings (db w)) then (ScanGetAll now, w)
      else (Finished, w)
  | ScanGetAll now =>
      let '(t', firings) := scan_continue now (dbGetAll_scheduled (db w)) in
      (t', {| db := db w; fired := fired w ++ firings |})
  | ScanLocation now notification todo =>
      match showPrayerNotification h (n_prayer notification)
              (n_timeStr notification) (db w) with
      | Some calls =>
          (ScanPut now notification todo,
           {| db := db w;
              fired := fired w ++ [{| f_entry := notification; f_calls := calls |}] |})
      | None => (Finished, w)
      end
  | ScanPut now notification todo =>
      let '(t', firings) := scan_continue now todo in
      (t', {| db := dbPut_scheduled (mark_notified notification) (db w);
              fired := fired w ++ firings |})
  | Finished => (Finished, w)
  end.

(** The worker: the store and log, and the handlers in flight. *)
Record Worker := {
  store : World;
  tasks : list Task
}.

(** What happens next. *)
Inductive Event :=
  | Tick (now : Z)
      (** the interval timer, [startNotificationChecker], a [sync] or a
          [periodicsync] event calls [checkAndShowNotifications]; [now] is
          the [Date.now()] the scan reads *)
  | Receive (r : Readings) (msg : ControlMessage)
      (** the [message] listener is called; [r] are the clock readings its
          handler makes. The [activate] listener and the [sync] event that
          call [scheduleNotifications] act as [SCHEDULE_NOTIFICATIONS] *)
  | Advance (i : nat)
      (** the store operation that the [i]-th task awaits completes *).

(** The task of the handler of a message. *)
Definition handler (r : Readings) (msg : ControlMessage) : Task :=
  match msg with
  | UPDATE_NOTIFICATION_SETTINGS enabled prayers => PutSettings r enabled prayers
  | UPDATE_PRAYER_TIMES fields => PutPrayerTimes r fields
  | CHECK_NOTIFICATIONS => ScanSettings (r_now r)
  | SCHEDULE_NOTIFICATIONS => ReadSettings r
  end.

Definition worker_step (h : Host) (s : Worker) (ev : Event) : Worker :=
  match ev with
  | Tick now => {| store := store s; tasks := tasks s ++ [ScanSettings now] |}
  | Receive r msg => {| store := store s; tasks := tasks s ++ [handler r msg] |}
  | Advance i =>
      match tasks s !! i with
      | Some t =>
          let '(t', w') := task_step h t (store s) in
          {| store := w'; tasks := <[i := t']> (tasks s) |}
      | None => s
      end
  end.

Definition worker_run (h : Host) (s : Worker) (evs : list Event) : Worker :=
  foldl (worker_step h) s evs.

(** A task advanced [n] times with nothing in between. *)
Definition task_run (h : Host) (n : nat) (t : Task) (w : World) : Task * World :=
  Nat.iter n (fun tw => task_step h tw.1 tw.2) (t, w).

(** The clock reading [now] of the recomputation that an event starts, if
    it starts one. *)
Definition recompute_now (ev : Event) : option Z :=
  match ev with
  | Receive r CHECK_NOTIFICATIONS => None
  | Receive r _ => Some (r_now r)
  | _ => None
  end.

(** The [now] of the scan that an event starts, if it starts one. *)
Definition scan_start_now (ev : Event) : option Z :=
  match ev with
  | Tick now => Some now
  | Receive r CHECK_NOTIFICATIONS => Some (r_now r)
  | _ => None
  end.

(* ===================================================================== *)
(** ** Requests and responses *)
(* ===================================================================== *)

(** A request as the worker and the Cache API read it: its method, of its
    parsed URL [href] and [pathname], and its header list, a map from the
    lower-case header name to the combined value. *)
Record Request := {
  method : string;
  href : string;
  pathname : string;
  req_headers : gmap string string
}.

(** A response. The header list is a map from the lower-case header name
    to the combined value, as [Headers.get] and [Headers.set] see it. *)
Record Response := {
  status : Z;
  statusText : string;
  headers : gmap string string;
  body : string
}.

#[global] Instance Request_eq_dec : EqDecision Request.
Proof. solve_decision. Defined.

#[global] Instance Response_eq_dec : EqDecision Response.
Proof. solve_decision. Defined.

(** Header names are byte-case-insensitive. *)
Definition lower_ascii (c : Ascii.ascii) : Ascii.ascii :=
  let n := Ascii.nat_of_ascii c in
  if ((65 <=? n) && (n <=? 90))%nat then Ascii.ascii_of_nat (n + 32) else c.

Fixpoint lower (s : string) : string :=
  match s with
  | EmptyString => EmptyString
  | String c r => String (lower_ascii c) (lower r)
  end.

(** [headers.get(name)]. *)
Definition headers_get (name : string) (hs : gmap string string) : option string :=
  hs !! lower name.

(** [headers.set(name, value)]. *)
Definition headers_set (name value : string) (hs : gmap string string)
    : gmap string string :=
  <[lower name := value]> hs.

(** [response.ok]. *)
Definition ok (r : Response) : bool := (200 <=? status r) && (status r <=? 299).

(** The response with the status, status text and body of [r] and the
    headers [new Headers(r.headers)] after [headers.set(name, value)]. *)
Definition with_header (name value : string) (r : Response) : Response :=
  {| status := status r; statusText := statusText r;
     headers := headers_set name value (headers r); body := body r |}.

(** [new Response(r.body, {status: r.status, statusText: r.statusText,
    headers})] for these headers: the constructor throws a [RangeError]
    ([None]) for a status outside 200..599, such as the status 0 of an
    opaque response. *)
Definition new_Response_with (name value : string) (r : Response) : option Response :=
  if (200 <=? status r) && (status r <=? 599) then Some (with_header name value r)
  else None.

(** What the page gets when the promise given to [event.respondWith]
    rejects: a network error. *)
Definition network_error : Response :=
  {| status := 0; statusText := EmptyString; headers := ∅; body := EmptyString |}.

(** [s.includes(sub)]. *)
Fixpoint includes (sub s : string) : bool :=
  String.prefix sub s ||
  match s with
  | EmptyString => false
  | String _ r => includes sub r
  end.

(** The values [JSON.stringify] meets in this code. *)
Inductive JSONValue :=
  | JString (s : string)
  | JBool (b : bool).

Definition dquote : string := String (Ascii.ascii_of_nat 34) EmptyString.

Definition hex_digit (n : nat) : string :=
  String (Ascii.ascii_of_nat (if (n <? 10)%nat then 48 + n else 87 + n)%nat) EmptyString.

(** [QuoteJSONString]: the escape of one character. *)
Definition JSON_escape (c : Ascii.ascii) : string :=
  let n := Ascii.nat_of_ascii c in
  if (n =? 34)%nat then "\" +:+ dquote
  else if (n =? 92)%nat then "\\"
  else if (n =? 8)%nat then "\b"
  else if (n =? 9)%nat then "\t"
  else if (n =? 10)%nat then "\n"
  else if (n =? 12)%nat then "\f"
  else if (n =? 13)%nat then "\r"
  else if (n <? 32)%nat then "\u00" +:+ hex_digit (n / 16) +:+ hex_digit (n mod 16)
  else String c EmptyString.

Fixpoint JSON_quote_chars (s : string) : string :=
  match s with
  | EmptyString => EmptyString
  | String c r => JSON_escape c +:+ JSON_quote_chars r
  end.

Definition JSON_quote (s : string) : string :=
  dquote +:+ JSON_quote_chars s +:+ dquote.

(** [JSON.stringify] of an object with string and boolean properties. *)
Definition JSON_stringify (o : list (string * JSONValue)) : string :=
  "{" +:+
  String.concat ","
    ((fun kv : string * JSONValue =>
        JSON_quote kv.1 +:+ ":" +:+
        match kv.2 with
        | JString v => JSON_quote v
        | JBool true => "true"
        | JBool false => "false"
        end) <$> o)
  +:+ "}".

(** [createOfflineResponse()], the text of the worker with notification
    support. *)
Definition createOfflineResponse : Response :=
  {| status := 503;
     statusText := "Service Unavailable";
     headers := headers_set "Content-Type" "application/json"
                  (headers_set "sw-offline" "true" ∅);
     body := JSON_stringify
       [("error", JString "Offline");
        ("message", JString "You are currently offline. Please check your internet connection.");
        ("cached", JBool true)] |}.

(* ===================================================================== *)
(** ** The cache storage *)
(* ===================================================================== *)

(** The URL without its fragment. *)
Fixpoint strip_fragment (url : string) : string :=
  match url with
  | EmptyString => EmptyString
  | String c r =>
      if Ascii.eqb c (Ascii.ascii_of_nat 35) then EmptyString
      else String c (strip_fragment r)
  end.

(** Whether the scheme of the URL is [http] or [https]. *)
Definition is_http (url : string) : bool :=
  String.prefix "http://" url || String.prefix "https://" url.

Fixpoint split_on (sep : Ascii.ascii) (s : string) : list string :=
  match s with
  | EmptyString => [EmptyString]
  | String c r =>
      if Ascii.eqb c sep then EmptyString :: split_on sep r
      else match split_on sep r with
           | x :: xs => String c x :: xs
           | [] => [String c EmptyString]
           end
  end.

(** HTTP white space: a space or a tab. *)
Definition is_ows (c : Ascii.ascii) : bool :=
  Ascii.eqb c (Ascii.ascii_of_nat 32) || Ascii.eqb c (Ascii.ascii_of_nat 9).

Fixpoint trim_left (s : string) : string :=
  match s with
  | EmptyString => EmptyString
  | String c r => if is_ows c then trim_left r else s
  end.

Fixpoint trim_right (s : string) : string :=
  match s with
  | EmptyString => EmptyString
  | String c r =>
      match trim_right r with
      | EmptyString => if is_ows c then EmptyString else String c EmptyString
      | r' => String c r'
      end
  end.

(** The field values of the [Vary] header of a response. *)
Definition vary_fields (response : Response) : list string :=
  match headers_get "Vary" (headers response) with
  | Some value =>
      (fun field => trim_right (trim_left field)) <$> split_on (Ascii.ascii_of_nat 44) value
  | None => []
  end.

Definition vary_star (response : Response) : bool :=
  existsb (String.eqb "*") (vary_fields response).

(** Whether [requestQuery] matches the cached item ([request],
    [response]), with the default query options: the cached request is a
    GET, the URLs are equal up to the fragment, and for every field value
    of the [Vary] header of the cached response, which is not [*], the two
    requests have the same value under that header name. *)
Definition request_matches (requestQuery request : Request) (response : Response) : bool :=
  String.eqb (method request) "GET"
  && String.eqb (strip_fragment (href requestQuery)) (strip_fragment (href request))
  && forallb (fun fieldValue =>
                negb (String.eqb "*" fieldValue)
                && bool_decide (headers_get fieldValue (req_headers request)
                                = headers_get fieldValue (req_headers requestQuery)))
       (vary_fields response).

(** A cache: its entries in insertion order. *)
Abbreviation Cache := (list (Request * Response)).

(** The cache without entries. *)
#[global] Instance Cache_empty : Empty Cache := [].

(** The caches of the origin in creation order. *)
Abbreviation CacheStorage := (list (string * Cache)).

(** The first entry of the cache that the request matches. *)
Fixpoint query_cache (requestQuery : Request) (c : Cache) : option Response :=
  match c with
  | [] => None
  | (request, response) :: rest =>
      if request_matches requestQuery request response then Some response
      else query_cache requestQuery rest
  end.

(** [cache.match(request)]: nothing for a request that is not a GET. *)
Definition cache_match (request : Request) (c : Cache) : option Response :=
  if String.eqb (method request) "GET" then query_cache request c else None.

(** [caches.keys()]. *)
Definition caches_keys (cs : CacheStorage) : list string := cs.*1.

(** [caches.delete(name)]. *)
Definition caches_delete (name : string) (cs : CacheStorage) : CacheStorage :=
  filter (fun e => e.1 ≠ name) cs.

(** [caches.open(name)] creates the cache when there is none. *)
Definition caches_open (name : string) (cs : CacheStorage) : CacheStorage :=
  if bool_decide (name ∈ caches_keys cs) then cs else cs ++ [(name, [])].

(** Whether [cache.put(request, response)] rejects with a [TypeError]. *)
Definition put_rejected (request : Request) (response : Response) : bool :=
  negb (is_http (href request))
  || negb (String.eqb (method request) "GET")
  || (status response =? 206)
  || vary_star response.

(** A cache after an accepted [put]: the entries that the request matches
    are removed and the new entry is appended. *)
Definition cache_replace (request : Request) (response : Response) (c : Cache) : Cache :=
  filter (fun item => request_matches request item.1 item.2 = false) c
  ++ [(request, response)].

(** [cache.put(request, response)] on the cache called [name], once it has
    settled. The worker does not await the promise, so a rejection leaves
    the caches as they are and goes unnoticed. *)
Definition cache_put (name : string) (request : Request) (response : Response)
    (cs : CacheStorage) : CacheStorage :=
  if put_rejected request response then cs
  else
    (fun e : string * Cache =>
       if bool_decide (e.1 = name) then (e.1, cache_replace request response e.2) else e)
    <$> cs.

(** [caches.match(request)]: the first cache, in creation order, with an
    entry that the request matches answers. *)
Fixpoint caches_match (request : Request) (cs : CacheStorage) : option Response :=
  match cs with
  | [] => None
  | e :: rest =>
      match cache_match request e.2 with
      | Some response => Some response
      | None => caches_match request rest
      end
  end.

(** The cache called [name], if there is one. *)
Fixpoint cache_named (name : string) (cs : CacheStorage) : option Cache :=
  match cs with
  | [] => None
  | e :: rest => if bool_decide (e.1 = name) then Some e.2 else cache_named name rest
  end.

(** [clearAllCaches()], the same in both files: every name of
    [caches.keys()] is deleted. *)
Definition clearAllCaches (cs : CacheStorage) : CacheStorage :=
  foldl (fun cs cacheName => caches_delete cacheName cs) cs (caches_keys cs).

(** The constants of one service-worker file. *)
Record Generation := {
  cache_name : string;      (* CACHE_NAME *)
  api_cache : string;       (* API_CACHE *)
  offline_cache : string;   (* OFFLINE_CACHE *)
  core_assets : list string (* CORE_ASSETS *)
}.

(** The three traffic classes of the [fetch] listener. *)
Inductive TrafficClass := ApiClass | CoreAssetClass | DefaultClass.

(* ===================================================================== *)
(** ** Cache router and activation, over the constants of a generation *)
(* ===================================================================== *)

(** The text that the two files share, with their constants as
    parameters. The network is the outcome of [fetch(request)]: [None] when
    the promise rejects. [iso] is [new Date().toISOString()]. A handler is
    taken to run with no other cache operation in between; it returns its
    response and the cache storage once the [put] it started has settled. *)
Section Router.
Context (g : Generation).
Context (fetch : Request -> option Response) (iso : string).

Definition handleApiRequest (request : Request) (cs : CacheStorage)
    : Response * CacheStorage :=
  let from_cache (cs : CacheStorage) :=
    match caches_match request cs with
    | Some cachedResponse =>
        match new_Response_with "sw-from-cache" "true" cachedResponse with
        | Some response => (response, cs)
        | None => (network_error, cs)
        end
    | None => (createOfflineResponse, cs)
    end in
  match fetch request with
  | Some networkResponse =>
      if ok networkResponse then
        let cs := caches_open (api_cache g) cs in
        match new_Response_with "sw-cached-at" iso networkResponse with
        | Some modifiedResponse =>
            (networkResponse, cache_put (api_cache g) request modifiedResponse cs)
        | None => from_cache cs
        end
      else from_cache cs
  | None => from_cache cs
  end.

Definition handleCoreAssetRequest (request : Request) (cs : CacheStorage)
    : Response * CacheStorage :=
  match caches_match request cs with
  | Some cachedResponse => (cachedResponse, cs)
  | None =>
      match fetch request with
      | Some networkResponse =>
          if ok networkResponse then
            (networkResponse,
             cache_put (cache_name g) request networkResponse
               (caches_open (cache_name g) cs))
          else (createOfflineResponse, cs)
      | None => (createOfflineResponse, cs)
      end
  end.

Definition handleNetworkRequest (request : Request) (cs : CacheStorage)
    : Response * CacheStorage :=
  let from_cache :=
    match caches_match request cs with
    | Some cachedResponse => (cachedResponse, cs)
    | None => (createOfflineResponse, cs)
    end in
  match fetch request with
  | Some networkResponse =>
      if ok networkResponse then
        (networkResponse,
         cache_put (offline_cache g) request networkResponse
           (caches_open (offline_cache g) cs))
      else from_cache
  | None => from_cache
  end.

Definition classify (request : Request) : TrafficClass :=
  if String.prefix "/v1/" (pathname request) then ApiClass
  else if existsb (fun asset => includes asset (pathname request)
                                || includes asset (href request)) (core_assets g)
  then CoreAssetClass
  else DefaultClass.

(** The [fetch] listener; [None] when it returns without
    [event.respondWith]. *)
Definition on_fetch (request : Request) (cs : CacheStorage)
    : option (Response * CacheStorage) :=
  if negb (String.eqb (method request) "GET") then None
  else
    match classify request with
    | ApiClass => Some (handleApiRequest request cs)
    | CoreAssetClass => Some (handleCoreAssetRequest request cs)
    | DefaultClass => Some (handleNetworkRequest request cs)
    end.

(** Whether [name] is one of the three names of this generation. *)
Definition is_current (name : string) : bool :=
  negb (bool_decide (name ≠ cache_name g) && bool_decide (name ≠ api_cache g)
        && bool_decide (name ≠ offline_cache g)).

(** The clean-up of the [activate] listener: every name of
    [caches.keys()] that is none of the three is deleted. *)
Definition activate_cleanup (cs : CacheStorage) : CacheStorage :=
  foldl (fun cs cacheName =>
           if bool_decide (cacheName ≠ cache_name g) && bool_decide (cacheName ≠ api_cache g)
              && bool_decide (cacheName ≠ offline_cache g)
           then caches_delete cacheName cs
           else cs)
        cs (caches_keys cs).
End Router.

(* ===================================================================== *)
(** ** Install *)
(* ===================================================================== *)

(** [API_ENDPOINTS], the same list in both files. *)
Definition API_ENDPOINTS : list string :=
  ["https://api.azantimes.in/v1/timesheets/index.json"].

(** The [install] listener on the caches. [new_Request url] is the request
    built for a URL string, resolved against the location of the worker;
    [fetch] is the network as for the router. *)
Section Install.
Context (g : Generation) (endpoints : list string).
Context (new_Request : string -> Request) (fetch : Request -> option Response).

(** Whether the response fetched for a request of [cache.addAll] is
    accepted: the request is a GET over http(s), the response is [ok], not
    of status 206 and without [Vary: *]. *)
Definition addAll_fetched (request : Request) : bool :=
  is_http (href request) && String.eqb (method request) "GET"
  && match fetch request with
     | Some response =>
         ok response && negb (status response =? 206) && negb (vary_star response)
     | None => false
     end.

(** Whether no request of the batch matches an item added before it. *)
Fixpoint batch_distinct (requests : list Request) : bool :=
  match requests with
  | [] => true
  | request :: rest =>
      forallb (fun later =>
                 match fetch request with
                 | Some response => negb (request_matches later request response)
                 | None => true
                 end) rest
      && batch_distinct rest
  end.

(** [cache.addAll(requests)] on the cache called [name]: every request is
    fetched, and the batch is stored only when every response is accepted
    and no request matches an item of the batch added before it; otherwise
    the promise rejects and nothing is stored. *)
Definition cache_addAll (name : string) (requests : list Request)
    (cs : CacheStorage) : CacheStorage :=
  if forallb addAll_fetched requests && batch_distinct requests
  then foldl (fun cs request =>
                match fetch request with
                | Some response => cache_put name request response cs
                | None => cs
                end) cs requests
  else cs.

(** One element of [API_ENDPOINTS.map(...)]: the response is put under the
    URL when it is [ok]; a rejected fetch or [put] is caught. *)
Definition precache_endpoint (cs : CacheStorage) (url : string) : CacheStorage :=
  match fetch (new_Request url) with
  | Some response =>
      if ok response
      then cache_put (api_cache g) (new_Request url) response cs
      else cs
  | None => cs
  end.

(** The two cache branches of the [Promise.all] of the [install] listener;
    a rejected [addAll] is caught. *)
Definition install (cs : CacheStorage) : CacheStorage :=
  let cs := cache_addAll (cache_name g) (new_Request <$> core_assets g)
              (caches_open (cache_name g) cs) in
  foldl precache_endpoint (caches_open (api_cache g) cs) endpoints.
End Install.

(* ===================================================================== *)
(** ** The two files *)
(* ===================================================================== *)

(** [dashboard/sw.js], as it is written. *)
Module V20.
Definition CACHE_NAME : string := "prayer-times-kerala-v2.0.0".
Definition API_CACHE : string := "prayer-times-api-v2.0.0".
Definition OFFLINE_CACHE : string := "prayer-times-offline-v2.0.0".
Definition CORE_ASSETS : list string :=
  ["/index.html";
   "/favicon/android-chrome-192x192.png";
   "/favicon/android-chrome-512x512.png";
   "/favicon/apple-touch-icon.png";
   "/favicon/favicon-32x32.png";
   "/favicon/favicon-16x16.png";
   "/favicon/favicon.ico";
   "/favicon/site.webmanifest";
   "https://fonts.googleapis.com/css2?family=Inter:wght@300;400;500;600;700;800&display=swap";
   "https://cdnjs.cloudflare.com/ajax/libs/font-awesome/6.4.0/css/all.min.css"].

Definition createOfflineResponse : Response :=
  {| status := 503;
     statusText := "Service Unavailable";
     headers := headers_set "Content-Type" "application/json"
                  (headers_set "sw-offline" "true" ∅);
     body := JSON_stringify
       [("error", JString "Offline");
        ("message", JString "You are currently offline. Please check your internet connection.");
        ("cached", JBool true)] |}.

Definition handleApiRequest (fetch : Request -> option Response) (iso : string)
    (request : Request) (cs : CacheStorage) : Response * CacheStorage :=
  let from_cache (cs : CacheStorage) :=
    match caches_match request cs with
    | Some cachedResponse =>
        match new_Response_with "sw-from-cache" "true" cachedResponse with
        | Some response => (response, cs)
        | None => (network_error, cs)
        end
    | None => (createOfflineResponse, cs)
    end in
  match fetch request with
  | Some networkResponse =>
      if ok networkResponse then
        let cs := caches_open API_CACHE cs in
        match new_Response_with "sw-cached-at" iso networkResponse with
        | Some modifiedResponse =>
            (networkResponse, cache_put API_CACHE request modifiedResponse cs)
        | None => from_cache cs
        end
      else from_cache cs
  | None => from_cache cs
  end.

Definition handleCoreAssetRequest (fetch : Request -> option Response)
    (request : Request) (cs : CacheStorage) : Response * CacheStorage :=
  match caches_match request cs with
  | Some cachedResponse => (cachedResponse, cs)
  | None =>
      match fetch request with
      | Some networkResponse =>
          if ok networkResponse then
            (networkResponse,
             cache_put CACHE_NAME request networkResponse (caches_open CACHE_NAME cs))
          else (createOfflineResponse, cs)
      | None => (createOfflineResponse, cs)
      end
  end.

Definition handleNetworkRequest (fetch : Request -> option Response)
    (request : Request) (cs : CacheStorage) : Response * CacheStorage :=
  let from_cache :=
    match caches_match request cs with
    | Some cachedResponse => (cachedResponse, cs)
    | None => (createOfflineResponse, cs)
    end in
  match fetch request with
  | Some networkResponse =>
      if ok networkResponse then
        (networkResponse,
         cache_put OFFLINE_CACHE request networkResponse (caches_open OFFLINE_CACHE cs))
      else from_cache
  | None => from_cache
  end.

Definition classify (request : Request) : TrafficClass :=
  if String.prefix "/v1/" (pathname request) then ApiClass
  else if existsb (fun asset => includes asset (pathname request)
                                || includes asset (href request)) CORE_ASSETS
  then CoreAssetClass
  else DefaultClass.

Definition on_fetch (fetch : Request -> option Response) (iso : string)
    (request : Request) (cs : CacheStorage) : option (Response * CacheStorage) :=
  if negb (String.eqb (method request) "GET") then None
  else
    match classify request with
    | ApiClass => Some (handleApiRequest fetch iso request cs)
    | CoreAssetClass => Some (handleCoreAssetRequest fetch request cs)
    | DefaultClass => Some (handleNetworkRequest fetch request cs)
    end.

Definition activate_cleanup (cs : CacheStorage) : CacheStorage :=
  foldl (fun cs cacheName =>
           if bool_decide (cacheName ≠ CACHE_NAME) && bool_decide (cacheName ≠ API_CACHE)
              && bool_decide (cacheName ≠ OFFLINE_CACHE)
           then caches_delete cacheName cs
           else cs)
        cs (caches_keys cs).

(** The constants of the file. *)
Definition generation : Generation :=
  {| cache_name := CACHE_NAME; api_cache := API_CACHE;
     offline_cache := OFFLINE_CACHE; core_assets := CORE_ASSETS |}.
End V20.

(** The worker with notification support, as it is written. *)
Module V21.
Definition CACHE_NAME : string := "prayer-times-kerala-v2.1.0".
Definition API_CACHE : string := "prayer-times-api-v2.1.0".
Definition OFFLINE_CACHE : string := "prayer-times-offline-v2.1.0".
Definition CORE_ASSETS : list string :=
  ["/index.html";
   "/favicon/android-chrome-192x192.png";
   "/favicon/android-chrome-512x512.png";
   "/favicon/apple-touch-icon.png";
   "/favicon/favicon-32x32.png";
   "/favicon/favicon-16x16.png";
   "/favicon/favicon.ico";
   "/favicon/site.webmanifest";
   "https://fonts.googleapis.com/css2?family=Inter:wght@300;400;500;600;700;800&display=swap";
   "https://cdnjs.cloudflare.com/ajax/libs/font-awesome/6.4.0/css/all.min.css"].

Definition createOfflineResponse : Response :=
  {| status := 503;
     statusText := "Service Unavailable";
     headers := headers_set "Content-Type" "application/json"
                  (headers_set "sw-offline" "true" ∅);
     body := JSON_stringify
       [("error", JString "Offline");
        ("message", JString "You are currently offline. Please check your internet connection.");
        ("cached", JBool true)] |}.

Definition handleApiRequest (fetch : Request -> option Response) (iso : string)
    (request : Request) (cs : CacheStorage) : Response * CacheStorage :=
  let from_cache (cs : CacheStorage) :=
    match caches_match request cs with
    | Some cachedResponse =>
        match new_Response_with "sw-from-cache" "true" cachedResponse with
        | Some response => (response, cs)
        | None => (network_error, cs)
        end
    | None => (createOfflineResponse, cs)
    end in
  match fetch request with
  | Some networkResponse =>
      if ok networkResponse then
        let cs := caches_open API_CACHE cs in
        match new_Response_with "sw-cached-at" iso networkResponse with
        | Some modifiedResponse =>
            (networkResponse, cache_put API_CACHE request modifiedResponse cs)
        | None => from_cache cs
        end
      else from_cache cs
  | None => from_cache cs
  end.

Definition handleCoreAssetRequest (fetch : Request -> option Response)
    (request : Request) (cs : CacheStorage) : Response * CacheStorage :=
  match caches_match request cs with
  | Some cachedResponse => (cachedResponse, cs)
  | None =>
      match fetch request with
      | Some networkResponse =>
          if ok networkResponse then
            (networkResponse,
             cache_put CACHE_NAME request networkResponse (caches_open CACHE_NAME cs))
          else (createOfflineResponse, cs)
      | None => (createOfflineResponse, cs)
      end
  end.

Definition handleNetworkRequest (fetch : Request -> option Response)
    (request : Request) (cs : CacheStorage) : Response * CacheStorage :=
  let from_cache :=
    match caches_match request cs with
    | Some cachedResponse => (cachedResponse, cs)
    | None => (createOfflineResponse, cs)
    end in
  match fetch request with
  | Some networkResponse =>
      if ok networkResponse then
        (networkResponse,
         cache_put OFFLINE_CACHE request networkResponse (caches_open OFFLINE_CACHE cs))
      else from_cache
  | None => from_cache
  end.

Definition classify (request : Request) : TrafficClass :=
  if String.prefix "/v1/" (pathname request) then ApiClass
  else if existsb (fun asset => includes asset (pathname request)
                                || includes asset (href request)) CORE_ASSETS
  then CoreAssetClass
  else DefaultClass.

Definition on_fetch (fetch : Request -> option Response) (iso : string)
    (request : Request) (cs : CacheStorage) : option (Response * CacheStorage) :=
  if negb (String.eqb (method request) "GET") then None
  else
    match classify request with
    | ApiClass => Some (handleApiRequest fetch iso request cs)
    | CoreAssetClass => Some (handleCoreAssetRequest fetch request cs)
    | DefaultClass => Some (handleNetworkRequest fetch request cs)
    end.

Definition activate_cleanup (cs : CacheStorage) : CacheStorage :=
  foldl (fun cs cacheName =>
           if bool_decide (cacheName ≠ CACHE_NAME) && bool_decide (cacheName ≠ API_CACHE)
              && bool_decide (cacheName ≠ OFFLINE_CACHE)
           then caches_delete cacheName cs
           else cs)
        cs (caches_keys cs).

(** The constants of the file. *)
Definition generation : Generation :=
  {| cache_name := CACHE_NAME; api_cache := API_CACHE;
     offline_cache := OFFLINE_CACHE; core_assets := CORE_ASSETS |}.
End V21.

(* ===================================================================== *)
(** ** The scan timer *)
(* ===================================================================== *)

(** The global [notificationCheckInterval] of the worker and the interval
    timers that its host holds for it. *)
Record Checker := {
  notificationCheckInterval : option nat;
  intervals : gset nat
}.

(** The worker as it is loaded: [let notificationCheckInterval = null]. *)
Definition checker_loaded : Checker :=
  {| notificationCheckInterval := None; intervals := ∅ |}.

(** [startNotificationChecker()]. [new_handle] is the handle that
    [setInterval] returns, given the timers that exist. The handle [0] is
    falsy, so it would not be cleared. The function also scans at once. *)
Definition startNotificationChecker (new_handle : gset nat -> nat) (now : Z)
    (c : Checker) (s : System) : Checker * System :=
  let cleared :=
    match notificationCheckInterval c with
    | Some handle => if (handle =? 0)%nat then intervals c else intervals c ∖ {[handle]}
    | None => intervals c
    end in
  let handle := new_handle cleared in
  ({| notificationCheckInterval := Some handle; intervals := {[handle]} ∪ cleared |},
   start_scan now s).

(* ===================================================================== *)
(** ** Notification clicks *)
(* ===================================================================== *)

(** A window client: its URL and whether it has a [focus] method. *)
Record WindowClient := {
  client_url : string;
  client_focus : bool
}.

(** What the [notificationclick] listener does after
    [event.notification.close()]. *)
Inductive ClickOutcome :=
  | JustClosed
  | Focused (client : WindowClient)
  | Opened (url : string).

(** The [notificationclick] listener. [action] is [event.action], [url]
    the [url] of the data of the notification if it has one, [clientList]
    what [clients.matchAll] returns and [openWindow] whether the host has
    [clients.openWindow]. *)
Definition on_notificationclick (action : string) (url : option string)
    (clientList : list WindowClient) (openWindow : bool) : ClickOutcome :=
  if String.eqb action "dismiss" then JustClosed
  else
    match list_find (fun client => includes "azantimes.in" (client_url client) = true
                                   ∧ client_focus client = true) clientList with
    | Some (_, client) => Focused client
    | None =>
        if openWindow then
          Opened (match url with
                  | Some (String c u) => String c u
                  | _ => "/"
                  end)
        else JustClosed
    end.
(* ===================================================================== *)
(** ** Vocabulary of the statements *)
(* ===================================================================== *)

(** [AM] or [PM] in any letter case. *)
Definition is_period (p : list N) : Prop :=
  ∃ c1 c2 : N, p = [c1; c2] ∧ c1 ∈ [65; 97; 80; 112]%N ∧ c2 ∈ [77; 109]%N.

(** [s] holds, after the prefix [pre], a time text: one or two hour digits
    [hs], a colon, two minute digits [ms], white space [ws] (possibly none)
    and the period [p]. *)
Definition time_text_at (s pre hs ms ws p suf : list N) : Prop :=
  s = pre ++ hs ++ [58%N] ++ ms ++ ws ++ p ++ suf ∧
  (length hs = 1 ∨ length hs = 2)%nat ∧
  Forall (fun c => JS.is_digit c = true) hs ∧
  length ms = 2%nat ∧
  Forall (fun c => JS.is_digit c = true) ms ∧
  Forall (fun c => JS.is_space c = true) ws ∧
  is_period p.

Definition contains_time_text (s : list N) : Prop :=
  ∃ pre hs ms ws p suf, time_text_at s pre hs ms ws p suf.

(** The 12-hour to 24-hour conversion of the hour number [h] for a period
    that starts with [P] or [p] ([pm]) or not: PM adds 12 except at 12, and
    12 AM is hour 0. *)
Definition to_24_hours (p : list N) (h : Z) : Z :=
  match p with
  | c :: _ =>
      if bool_decide (c ∈ [80; 112]%N)
      then (if h =? 12 then 12 else h + 12)
      else (if h =? 12 then 0 else h)
  | [] => h
  end.

(** The record that one pass of the loop of [scheduleNotifications] writes
    for the pair ([prayer], [apiKey]) of [timeMapping], if it writes one. *)
Definition due_entry (h : Host) (r : Readings) (s : NotificationSettings)
    (pt : PrayerTimes) (prayer apiKey : string) : option ScheduledNotification :=
  match s_prayers s !! prayer, pt_fields pt !! apiKey with
  | Some true, Some (c :: l) =>
      match parseTimeToDate (host_tz h) (r_today r prayer) (c :: l) with
      | Some prayerTime =>
          if r_now r <? prayerTime
          then Some {| n_id := prayer; n_prayer := prayer; n_time := prayerTime;
                       n_timeStr := c :: l; n_notified := false |}
          else None
      | None => None
      end
  | _, _ => None
  end.

(** The records of the [scheduledNotifications] store are one per prayer
    name: the key is the [id], which is the [prayer], one of the names of
    [PRAYER_MESSAGES]. *)
Definition scheduled_by_prayer (m : gmap string ScheduledNotification) : Prop :=
  ∀ k n, m !! k = Some n →
    n_id n = k ∧ n_prayer n = k ∧ is_Some (PRAYER_MESSAGES !! k).

(** A record as [scheduleNotifications] writes it and a scan writes it
    back. *)
Definition record_by_prayer (n : ScheduledNotification) : Prop :=
  n_prayer n = n_id n ∧ is_Some (PRAYER_MESSAGES !! n_id n).

(** The store is one record per prayer, and so are the records that the
    scans in flight still hold. *)
Definition system_by_prayer (s : System) : Prop :=
  scheduled_by_prayer (scheduledNotifications (db (world s))) ∧
  Forall (fun sc => Forall record_by_prayer (scan_todo sc)) (scans s).

(** The window test of the scan: within one minute of [now]. *)
Definition in_window (now : Z) (n : ScheduledNotification) : bool :=
  (n_time n - now <=? 60000) && (n_time n - now >=? -60000).

(** A notification that the host showed. *)
Definition is_show (c : PlatformCall) : bool :=
  match c with
  | ShowNotification _ _ _ _ resolved => resolved
  | PostMessage _ _ _ _ => false
  end.

(** Number of notifications shown by the firings of [log] for the record
    with key [id] and fire time [time]. *)
Definition notifications_of (id : string) (time : Z) (log : list Firing) : nat :=
  length (filter (fun c => is_show c = true)
            (concat (f_calls <$>
               filter (fun f => n_id (f_entry f) = id ∧ n_time (f_entry f) = time) log))).

(** The state of the system once the record [e] stored under [k] is
    missed at [now0]: every scan in flight read its [now] at [now0] or
    later, the record under [k] is [e] or one that cannot have been missed
    by [now0], and [c] notifications were shown for [e]. *)
Definition missed_state (now0 : Z) (k : string) (e : ScheduledNotification)
    (c : nat) (s : System) : Prop :=
  Forall (fun sc => now0 ≤ scan_now sc) (scans s) ∧
  (∀ n, scheduledNotifications (db (world s)) !! k = Some n →
        n = e ∨ now0 - 60000 ≤ n_time n) ∧
  notifications_of k (n_time e) (fired (world s)) = c.

(** The live fetch does not satisfy the request: the promise rejects or the
    response is not [ok]. *)
Definition fetch_fails (fetch : Request -> option Response) (request : Request) : Prop :=
  fetch request = None ∨ ∃ live, fetch request = Some live ∧ ok live = false.

(** The cache storage with every cache renamed by [f]. *)
Definition rename_caches (f : string -> string) (cs : CacheStorage) : CacheStorage :=
  (fun e : string * Cache => (f e.1, e.2)) <$> cs.

(** The renaming of the cache generation: each of the three names of
    v2.0.0 is exchanged with its v2.1.0 counterpart. *)
Definition generation_swap (name : string) : string :=
  if bool_decide (name = V20.CACHE_NAME) then V21.CACHE_NAME
  else if bool_decide (name = V20.API_CACHE) then V21.API_CACHE
  else if bool_decide (name = V20.OFFLINE_CACHE) then V21.OFFLINE_CACHE
  else if bool_decide (name = V21.CACHE_NAME) then V20.CACHE_NAME
  else if bool_decide (name = V21.API_CACHE) then V20.API_CACHE
  else if bool_decide (name = V21.OFFLINE_CACHE) then V20.OFFLINE_CACHE
  else name.

(** The Cache API accepts the response for the request: a GET over
    http(s), a status other than 206 and no [Vary: *]. *)
Definition storable (request : Request) (response : Response) : Prop :=
  is_http (href request) = true ∧ method request = "GET" ∧
  status response ≠ 206 ∧ vary_star response = false.

(** Every stored response is [ok]. *)
Definition all_stored_ok (cs : CacheStorage) : Prop :=
  ∀ name c request r, (name, c) ∈ cs → (request, r) ∈ c → ok r = true.

(** No cache other than the one called [name] has an entry that the
    request matches. *)
Definition only_in (name : string) (request : Request) (cs : CacheStorage) : Prop :=
  ∀ n c, (n, c) ∈ cs → n ≠ name → cache_match request c = None.

(** The response that the cache called [name] answers to the request. *)
Definition stored_in (name : string) (request : Request) (cs : CacheStorage)
    : option Response :=
  cache_named name cs ≫= cache_match request.

(** The number of entries of all the caches. *)
Definition entries (cs : CacheStorage) : nat :=
  sum_list ((fun e : string * Cache => length e.2) <$> cs).

(** An action other than a settings update. *)
Definition keeps_settings (a : Action) : Prop :=
  match a with
  | Deliver _ (UPDATE_NOTIFICATION_SETTINGS _ _) => False
  | _ => True
  end.

(** What a scan does to a record it visits. *)
Definition scanned (now : Z) (n : ScheduledNotification) : ScheduledNotification :=
  if negb (n_notified n) && in_window now n then mark_notified n else n.

(** The system has no scan in flight that still has a record to visit. *)
Definition scans_done (s : System) : Prop :=
  Forall (fun sc => scan_todo sc = []) (scans s).

(** [matches client]: the test of the loop of the [notificationclick]
    listener. *)
Definition is_app_window (client : WindowClient) : Prop :=
  includes "azantimes.in" (client_url client) = true ∧ client_focus client = true.

(** The checker started once for each activation time of [nows], each start
    with its immediate scan. *)
Definition start_all (new_handle : gset nat -> nat) (nows : list Z)
    (c : Checker) (s : System) : Checker * System :=
  foldl (fun cs now => startNotificationChecker new_handle now cs.1 cs.2) (c, s) nows.

(** A text written with apostrophes for its double quotes. *)
Fixpoint dq (s : string) : string :=
  match s with
  | EmptyString => EmptyString
  | String c r =>
      String (if Ascii.eqb c (Ascii.ascii_of_nat 39) then Ascii.ascii_of_nat 34 else c) (dq r)
  end.



(** A record that is not the record [e]: with the id of [e] it has a later
    fire time. *)
Definition later_record (e n : ScheduledNotification) : Prop :=
  n_id n = n_id e → n_time e < n_time n.

(** A record that no scan fires as [e]: with the id of [e] it is [e] stored
    with [notified] true, or it has a later fire time. *)
Definition settled_record (e n : ScheduledNotification) : Prop :=
  n_id n = n_id e → n = mark_notified e ∨ n_time e < n_time n.

(** A task in flight that does not fire [e] and does not store it pending:
    a recomputation reads its clock at the fire time of [e] or later, and
    the records that a scan holds are settled. *)
Definition settled_task (e : ScheduledNotification) (t : Task) : Prop :=
  match t with
  | PutSettings r _ _ | PutPrayerTimes r _ | ReadSettings r
  | ReadPrayerTimes r _ | ClearScheduled r _ _ => n_time e ≤ r_now r
  | PutScheduled r _ _ data _ => n_time e ≤ r_now r ∧ later_record e data
  | ScanSettings _ | ScanGetAll _ | Finished => True
  | ScanLocation _ notification todo | ScanPut _ notification todo =>
      later_record e notification ∧ Forall (settled_record e) todo
  end.

(** The records of the store are stored under their [id] and settled. *)
Definition settled_store (e : ScheduledNotification) (w : World) : Prop :=
  ∀ k n, scheduledNotifications (db w) !! k = Some n → n_id n = k ∧ settled_record e n.

(** The worker once [e] has fired, [c] notifications having been shown for
    it. *)
Definition settled_worker (e : ScheduledNotification) (c : nat) (s : Worker) : Prop :=
  settled_store e (store s) ∧
  Forall (settled_task e) (tasks s) ∧
  notifications_of (n_id e) (n_time e) (fired (store s)) = c.

(** The recomputation that the event starts, if it starts one, reads its
    clock at [t] or later. *)
Definition recomputes_from (t : Z) (ev : Event) : Prop :=
  ∀ t0, recompute_now ev = Some t0 → t ≤ t0.

(* ===================================================================== *)
(** ** Sample data *)
(* ===================================================================== *)

Module Sample.
Definition host : Host :=
  {| host_tz := IST; host_windows := [1%nat]; host_permission := true |}.

(** The same host after the notification permission was withdrawn. *)
Definition host_denied : Host :=
  {| host_tz := IST; host_windows := [1%nat]; host_permission := false |}.

(** 3 November 2025, 01:00 in Kerala. *)
Definition one_am : Z := 1762111800000.

(** The same day, 05:15. *)
Definition fajr_time : Z := 1762127100000.

(** Every clock reading of a run is [now]. *)
Definition readings (now : Z) : Readings :=
  {| r_now := now; r_today := fun _ => now; r_stamp := now |}.

Definition snapshot : PrayerTimes :=
  {| pt_id := JS.of_string "today";
     pt_fields := <["subh" := JS.of_string "5:15 AM"]>
                  (<["location" := JS.of_string "Kochi"]> ∅);
     pt_updatedAt := one_am |}.

Definition fajr : ScheduledNotification :=
  {| n_id := "fajr"; n_prayer := "fajr"; n_time := fajr_time;
     n_timeStr := JS.of_string "5:15 AM"; n_notified := false |}.

(** Yesterday's Isha, already shown. *)
Definition old_isha : ScheduledNotification :=
  {| n_id := "isha"; n_prayer := "isha"; n_time := 1762090200000;
     n_timeStr := JS.of_string "7:00 PM"; n_notified := true |}.

(** A store with the default per-prayer flags, the snapshot and the
    given global flag and scheduled records. *)
Definition store (enabled : bool) (sched : gmap string ScheduledNotification) : DB :=
  {| settings := {[ "notifications" :=
                      {| s_id := "notifications"; s_enabled := enabled;
                         s_prayers := s_prayers default_settings |} ]};
     prayerTimes := {[ JS.of_string "today" := snapshot ]};
     scheduledNotifications := sched |}.

Definition world (d : DB) : World := {| db := d; fired := [] |}.

Definition api_request : Request :=
  {| method := "GET";
     href := "https://api.azantimes.in/v1/timesheets/index.json";
     pathname := "/v1/timesheets/index.json";
     req_headers := ∅ |}.

Definition page_request : Request :=
  {| method := "GET";
     href := "https://azantimes.in/about";
     pathname := "/about";
     req_headers := ∅ |}.

Definition icon_request : Request :=
  {| method := "GET";
     href := "https://azantimes.in/favicon/favicon.ico";
     pathname := "/favicon/favicon.ico";
     req_headers := ∅ |}.

Definition live : Response :=
  {| status := 200; statusText := "OK";
     headers := headers_set "Content-Type" "application/json" ∅;
     body := "[]" |}.

Definition offline (request : Request) : option Response := None.
Definition online (request : Request) : option Response := Some live.

Definition iso : string := "2025-11-02T19:30:00.000Z".

(** The caches of an origin upgraded from v2.0.0, after the install of
    v2.1.0 has opened its first two caches. *)
Definition upgraded : CacheStorage :=
  [(V20.CACHE_NAME, []); (V20.API_CACHE, [(api_request, live)]);
   (V20.OFFLINE_CACHE, []); (V21.CACHE_NAME, []); (V21.API_CACHE, [])].
End Sample.

(** A worker served from [https://azantimes.in/]. *)
Module Origin.
(** The part of an absolute URL after its host, and before a query. *)
Fixpoint until_query (s : string) : string :=
  match s with
  | EmptyString => EmptyString
  | String c r => if Ascii.eqb c (Ascii.ascii_of_nat 63) then EmptyString else String c (until_query r)
  end.

Fixpoint from_slash (s : string) : string :=
  match s with
  | EmptyString => "/"
  | String c r => if Ascii.eqb c (Ascii.ascii_of_nat 47) then until_query s else from_slash r
  end.

(** Requests as built by a worker served from [https://azantimes.in/]. *)
Definition new_Request (url : string) : Request :=
  if String.prefix "https://" url
  then {| method := "GET"; href := url;
          pathname := from_slash (String.substring 8 (String.length url) url);
          req_headers := ∅ |}
  else {| method := "GET"; href := "https://azantimes.in" +:+ url;
          pathname := until_query url; req_headers := ∅ |}.

(** A network on which every request but the favicon succeeds. *)
Definition no_favicon (request : Request) : option Response :=
  if String.eqb (pathname request) "/favicon/favicon.ico" then None else Some Sample.live.

(** The interval handles of a host: the least one above those in use. *)
Definition new_handle (used : gset nat) : nat :=
  S (list_max (elements used)).

Definition app_window : WindowClient :=
  {| client_url := "https://azantimes.in/"; client_focus := true |}.

Definition other_window : WindowClient :=
  {| client_url := "https://example.org/"; client_focus := true |}.
End Origin.

(* ===================================================================== *)
(** ** The time pattern against its description *)
(* ===================================================================== *)

Lemma skip_spaces_split (s : list N) :
  ∃ ws, s = ws ++ JS.skip_spaces s ∧ Forall (fun c => JS.is_space c = true) ws.
Proof.
  induction s as [|c r IH]; simpl.
  - by exists [].
  - destruct (JS.is_space c) eqn:Hc.
    + destruct IH as (ws & Hr & Hws). exists (c :: ws). split.
      * simpl. by rewrite <- Hr.
      * by constructor.
    + by exists [].
Qed.

Lemma skip_spaces_app (ws rest : list N) :
  Forall (fun c => JS.is_space c = true) ws →
  (∀ c r, rest = c :: r → JS.is_space c = false) →
  JS.skip_spaces (ws ++ rest) = rest.
Proof.
  intros Hws Hrest. induction Hws as [|c ws Hc _ IH]; simpl.
  - destruct rest as [|c r]; [done|]. simpl. by rewrite (Hrest c r).
  - by rewrite Hc.
Qed.

Lemma match_period_Some (s p : list N) :
  JS.match_period s = Some p ↔ is_period p ∧ ∃ suf, s = p ++ suf.
Proof.
  unfold JS.match_period, is_period, JS.ci_eq. split.
  - destruct s as [|c1 [|c2 suf]]; try done.
    destruct (_ && _) eqn:H; [|done]. intros [= <-].
    split; [|by exists suf].
    exists c1, c2. split; [done|].
    rewrite andb_true_iff, !orb_true_iff, !N.eqb_eq in H.
    rewrite !list_elem_of_In. simpl. lia.
  - intros [(c1 & c2 & -> & H1 & H2) [suf ->]]. simpl.
    rewrite !list_elem_of_In in H1, H2. simpl in H1, H2.
    destruct (_ && _) eqn:H; [done|]. exfalso.
    rewrite andb_false_iff, !orb_false_iff, !N.eqb_neq in H. lia.
Qed.

Lemma period_not_space (p suf : list N) c r :
  is_period p → p ++ suf = c :: r → JS.is_space c = false.
Proof.
  intros (c1 & c2 & -> & H1 & _) [= <- _].
  rewrite !list_elem_of_In in H1. simpl in H1.
  destruct H1 as [<-|[<-|[<-|[<-|[]]]]]; reflexivity.
Qed.

Lemma match_rest_Some (hs s : list N) (m : JS.TimeMatch) :
  JS.match_rest hs s = Some m ↔
  JS.m_hours m = hs ∧
  ∃ ws suf, s = [58%N] ++ JS.m_minutes m ++ ws ++ JS.m_period m ++ suf ∧
    length (JS.m_minutes m) = 2%nat ∧
    Forall (fun c => JS.is_digit c = true) (JS.m_minutes m) ∧
    Forall (fun c => JS.is_space c = true) ws ∧
    is_period (JS.m_period m).
Proof.
  destruct m as [hs' ms p]. simpl. split.
  - unfold JS.match_rest.
    destruct s as [|c [|d1 [|d2 r]]]; try done.
    destruct (_ && _) eqn:Hc; [|done].
    destruct (JS.match_period _) as [p'|] eqn:Hp; [|done].
    intros [= <- <- <-]. split; [done|].
    apply match_period_Some in Hp as [Hper [suf Hsuf]].
    destruct (skip_spaces_split r) as (ws & Hr & Hws).
    rewrite !andb_true_iff, N.eqb_eq in Hc. destruct Hc as [[-> Hd1] Hd2].
    exists ws, suf. repeat split; [|by repeat constructor|done|done].
    simpl. by rewrite <- Hsuf, <- Hr.
  - intros (-> & ws & suf & -> & Hlen & Hms & Hws & Hp).
    destruct ms as [|d1 [|d2 [|]]]; try done.
    apply Forall_cons in Hms as [Hd1 Hms]. apply Forall_cons in Hms as [Hd2 _].
    simpl. rewrite Hd1, Hd2. simpl.
    rewrite skip_spaces_app; [|done|by intros c r; apply period_not_space].
    by rewrite (proj2 (match_period_Some (p ++ suf) p)) by eauto.
Qed.

Arguments JS.match_rest : simpl never.

Lemma match_here_Some (s : list N) (m : JS.TimeMatch) :
  JS.match_here s = Some m ↔
  ∃ ws suf, time_text_at s [] (JS.m_hours m) (JS.m_minutes m) ws (JS.m_period m) suf.
Proof.
  unfold time_text_at. split.
  - unfold JS.match_here. destruct s as [|h1 r1]; [done|].
    destruct (JS.is_digit h1) eqn:H1; [|done].
    destruct (match r1 with [] => None | _ => _ end) as [m'|] eqn:Hin.
    + intros [= ->]. destruct r1 as [|h2 r2]; [done|].
      destruct (JS.is_digit h2) eqn:H2; [|done].
      apply match_rest_Some in Hin as (Hh & ws & suf & -> & ? & ? & ? & ?).
      exists ws, suf. rewrite Hh. simpl. repeat split; auto; by repeat constructor.
    + intros (Hh & ws & suf & -> & ? & ? & ? & ?)%match_rest_Some.
      exists ws, suf. rewrite Hh. simpl. repeat split; auto; by repeat constructor.
  - intros (ws & suf & -> & Hlen & Hhs & Hml & Hms & Hws & Hp).
    assert (Hrest : ∀ hs, JS.match_rest hs ([58%N] ++ JS.m_minutes m ++ ws ++ JS.m_period m ++ suf)
                          = Some {| JS.m_hours := hs; JS.m_minutes := JS.m_minutes m;
                                    JS.m_period := JS.m_period m |}).
    { intros hs. apply match_rest_Some. simpl. split; [done|]. by exists ws, suf. }
    destruct m as [hs ms p]. simpl in *.
    destruct hs as [|h1 [|h2 [|]]]; simpl in Hlen; try lia.
    + apply Forall_cons in Hhs as [H1 _]. simpl. rewrite H1. by rewrite Hrest.
    + apply Forall_cons in Hhs as [H1 Hhs]. apply Forall_cons in Hhs as [H2 _].
      simpl. rewrite H1, H2. by rewrite Hrest.
Qed.

Arguments JS.match_here : simpl never.

Lemma regex_match_nil : JS.regex_match [] = None.
Proof. reflexivity. Qed.

Lemma regex_match_cons (c : N) (r : list N) :
  JS.regex_match (c :: r) =
  match JS.match_here (c :: r) with
  | Some m => Some m
  | None => JS.regex_match r
  end.
Proof. reflexivity. Qed.

Lemma time_text_at_cons (c : N) (r pre hs ms ws p suf : list N) :
  time_text_at (c :: r) (c :: pre) hs ms ws p suf ↔ time_text_at r pre hs ms ws p suf.
Proof.
  unfold time_text_at. split.
  - intros ([= ->] & ?). done.
  - intros (-> & ?). done.
Qed.

Lemma time_text_at_inv (c : N) (r pre hs ms ws p suf : list N) :
  time_text_at (c :: r) pre hs ms ws p suf →
  pre = [] ∨ ∃ pre', pre = c :: pre' ∧ time_text_at r pre' hs ms ws p suf.
Proof.
  intros (H & Hrest). destruct pre as [|c' pre']; [by left|right].
  injection H as <- ->. by exists pre'.
Qed.

Lemma regex_match_None (s : list N) :
  JS.regex_match s = None ↔ ¬ contains_time_text s.
Proof.
  unfold contains_time_text. induction s as [|c r IH];
    [rewrite regex_match_nil|rewrite regex_match_cons].
  - split; [|done]. intros _ (pre & hs & ms & ws & p & suf & H & Hlen & _).
    destruct pre, hs; simpl in *; try done; lia.
  - destruct (JS.match_here (c :: r)) as [m|] eqn:Hm.
    + split; [done|]. intros []. apply match_here_Some in Hm as (ws & suf & Hm).
      by exists [], (JS.m_hours m), (JS.m_minutes m), ws, (JS.m_period m), suf.
    + rewrite IH. split.
      * intros Hr (pre & hs & ms & ws & p & suf & H).
        destruct (time_text_at_inv _ _ _ _ _ _ _ _ H) as [->|(pre' & -> & H')].
        -- assert (JS.match_here (c :: r) =
                   Some {| JS.m_hours := hs; JS.m_minutes := ms; JS.m_period := p |}) as Hm'
             by (apply match_here_Some; simpl; eauto).
           congruence.
        -- apply Hr. by exists pre', hs, ms, ws, p, suf.
      * intros Hc (pre & hs & ms & ws & p & suf & H). apply Hc.
        exists (c :: pre), hs, ms, ws, p, suf. by apply time_text_at_cons.
Qed.

(** A match of the pattern is a time text, and no time text starts before it. *)
Lemma regex_match_Some (s : list N) (m : JS.TimeMatch) :
  JS.regex_match s = Some m →
  ∃ pre ws suf,
    time_text_at s pre (JS.m_hours m) (JS.m_minutes m) ws (JS.m_period m) suf ∧
    ∀ pre' hs' ms' ws' p' suf',
      time_text_at s pre' hs' ms' ws' p' suf' → (length pre ≤ length pre')%nat.
Proof.
  induction s as [|c r IH]; [rewrite regex_match_nil|rewrite regex_match_cons].
  - discriminate.
  - destruct (JS.match_here (c :: r)) as [m'|] eqn:Hm.
    + intros [= ->]. apply match_here_Some in Hm as (ws & suf & Hm).
      exists [], ws, suf. split; [done|]. intros; simpl; lia.
    + intros (pre & ws & suf & H & Hleft)%IH.
      exists (c :: pre), ws, suf. split; [by apply time_text_at_cons|].
      intros pre' hs' ms' ws' p' suf' H'.
      destruct (time_text_at_inv _ _ _ _ _ _ _ _ H') as [->|(pre'' & -> & H'')].
      * assert (JS.match_here (c :: r) =
                Some {| JS.m_hours := hs'; JS.m_minutes := ms'; JS.m_period := p' |}) as Hm'
          by (apply match_here_Some; simpl; eauto).
        congruence.
      * apply Hleft in H''. simpl. lia.
Qed.

(** The leftmost time text is the match. *)
Lemma regex_match_leftmost (s pre hs ms ws p suf : list N) :
  time_text_at s pre hs ms ws p suf →
  (∀ pre' hs' ms' ws' p' suf',
     time_text_at s pre' hs' ms' ws' p' suf' → (length pre ≤ length pre')%nat) →
  JS.regex_match s = Some {| JS.m_hours := hs; JS.m_minutes := ms; JS.m_period := p |}.
Proof.
  revert pre. induction s as [|c r IH]; intros pre H Hleft.
  - destruct H as (H & Hlen & _). destruct pre, hs; simpl in *; try done; lia.
  - rewrite regex_match_cons. destruct (JS.match_here (c :: r)) as [m'|] eqn:Hm.
    + apply match_here_Some in Hm as Hm'. destruct Hm' as (ws' & suf' & Hm').
      apply Hleft in Hm' as Hle. destruct pre; [|simpl in Hle; lia].
      assert (JS.match_here (c :: r) =
              Some {| JS.m_hours := hs; JS.m_minutes := ms; JS.m_period := p |}) as Hm''
        by (apply match_here_Some; simpl; eauto).
      congruence.
    + destruct (time_text_at_inv _ _ _ _ _ _ _ _ H) as [->|(pre' & -> & H')].
      * assert (JS.match_here (c :: r) =
                Some {| JS.m_hours := hs; JS.m_minutes := ms; JS.m_period := p |}) as Hm'
          by (apply match_here_Some; simpl; eauto).
        congruence.
      * apply (IH pre' H').
        intros pre'' hs' ms' ws' p' suf' H''.
        assert (length (c :: pre') ≤ length (c :: pre''))%nat as Hle
          by (eapply Hleft; by apply time_text_at_cons).
        simpl in Hle. lia.
Qed.

(** The hour adjustment of [parseTimeToDate] is the 12-to-24-hour
    conversion. *)
Lemma period_hours (p : list N) (h : Z) :
  is_period p →
  (if bool_decide (JS.toUpperCase p = JS.of_string "PM") && negb (h =? 12)
   then h + 12
   else if bool_decide (JS.toUpperCase p = JS.of_string "AM") && (h =? 12)
        then 0 else h)
  = to_24_hours p h.
Proof.
  intros (c1 & c2 & -> & H1 & H2).
  rewrite !list_elem_of_In in H1, H2. simpl in H1, H2.
  unfold to_24_hours.
  destruct H1 as [<-|[<-|[<-|[<-|[]]]]], H2 as [<-|[<-|[]]];
    destruct (Z.eqb_spec h 12) as [->|Hne]; reflexivity.
Qed.

Lemma parseTimeToDate_match (tz : TimeZone) (today : Z) (s : list N) :
  parseTimeToDate tz today s =
  match JS.regex_match s with
  | None => None
  | Some m =>
      Some (localDate tz today
              (let hours := JS.parseInt (JS.m_hours m) in
               if bool_decide (JS.toUpperCase (JS.m_period m) = JS.of_string "PM")
                  && negb (hours =? 12)
               then hours + 12
               else if bool_decide (JS.toUpperCase (JS.m_period m) = JS.of_string "AM")
                       && (hours =? 12)
                    then 0 else hours)
              (JS.parseInt (JS.m_minutes m)))
  end.
Proof. by destruct s. Qed.

(* ===================================================================== *)
(** ** Recomputation *)
(* ===================================================================== *)

Section Schedule.
Context (h : Host) (r : Readings) (s : NotificationSettings) (pt : PrayerTimes).

Lemma schedule_body_due (d : DB) (prayer apiKey : string) :
  schedule_body h r s pt d (prayer, apiKey) =
  match due_entry h r s pt prayer apiKey with
  | Some n => dbPut_scheduled n d
  | None => d
  end.
Proof.
  unfold schedule_body, due_entry.
  destruct (s_prayers s !! prayer) as [[]|]; try done.
  destruct (pt_fields pt !! apiKey) as [[|c l]|]; try done.
  destruct (parseTimeToDate _ _ _); [|done].
  by destruct (_ <? _).
Qed.

Arguments schedule_body : simpl never.

Lemma due_entry_id (prayer apiKey : string) (n : ScheduledNotification) :
  due_entry h r s pt prayer apiKey = Some n → n_id n = prayer.
Proof.
  unfold due_entry.
  destruct (s_prayers s !! prayer) as [[]|]; try done.
  destruct (pt_fields pt !! apiKey) as [[|c l]|]; try done.
  destruct (parseTimeToDate _ _ _); [|done].
  destruct (_ <? _); [|done]. by intros [= <-].
Qed.

Lemma due_entry_Some (prayer apiKey : string) (n : ScheduledNotification) :
  due_entry h r s pt prayer apiKey = Some n ↔
  ∃ timeStr t,
    s_prayers s !! prayer = Some true ∧
    pt_fields pt !! apiKey = Some timeStr ∧ timeStr ≠ [] ∧
    parseTimeToDate (host_tz h) (r_today r prayer) timeStr = Some t ∧
    r_now r < t ∧
    n = {| n_id := prayer; n_prayer := prayer; n_time := t;
           n_timeStr := timeStr; n_notified := false |}.
Proof.
  unfold due_entry. split.
  - destruct (s_prayers s !! prayer) as [[]|]; try done.
    destruct (pt_fields pt !! apiKey) as [[|c l]|]; try done.
    destruct (parseTimeToDate _ _ _) as [t|] eqn:Ht; [|done].
    destruct (Z.ltb_spec (r_now r) t); [|done]. intros [= <-].
    by exists (c :: l), t.
  - intros (timeStr & t & -> & -> & Hne & Ht & Hlt & ->).
    destruct timeStr as [|c l]; [done|]. rewrite Ht.
    by destruct (Z.ltb_spec (r_now r) t); [|lia].
Qed.

(** The store after the loop over any list of pairs with distinct
    prayers. *)
Lemma schedule_fold_lookup (tm : list (string * string)) (d : DB) (k : string) :
  NoDup tm.*1 →
  scheduledNotifications (foldl (schedule_body h r s pt) d tm) !! k =
  match (list_to_map tm : gmap string string) !! k ≫= due_entry h r s pt k with
  | Some n => Some n
  | None => scheduledNotifications d !! k
  end.
Proof.
  revert d. induction tm as [|[p a] tm IH]; intros d Hnd; [done|].
  apply NoDup_cons in Hnd as [Hp Hnd]. simpl.
  rewrite IH by done. rewrite schedule_body_due.
  destruct (decide (k = p)) as [->|Hk].
  - rewrite lookup_insert_eq. simpl.
    rewrite (not_elem_of_list_to_map_1 _ _ Hp). simpl.
    destruct (due_entry h r s pt p a) as [n|] eqn:Hn; [|done].
    simpl. by rewrite (due_entry_id _ _ _ Hn), lookup_insert_eq.
  - rewrite lookup_insert_ne by done.
    destruct (_ ≫= _); [done|].
    destruct (due_entry h r s pt p a) as [n|] eqn:Hn; [|done].
    simpl. rewrite lookup_insert_ne; [done|]. by rewrite (due_entry_id _ _ _ Hn).
Qed.

Lemma schedule_fold_other (tm : list (string * string)) (d : DB) :
  settings (foldl (schedule_body h r s pt) d tm) = settings d ∧
  prayerTimes (foldl (schedule_body h r s pt) d tm) = prayerTimes d.
Proof.
  revert d. induction tm as [|[p a] tm IH]; intros d; [done|].
  simpl. destruct (IH (schedule_body h r s pt d (p, a))) as [-> ->].
  rewrite schedule_body_due. by destruct (due_entry _ _ _ _ _ _).
Qed.
End Schedule.

Lemma timeMapping_NoDup : NoDup timeMapping.*1.
Proof. compute_done. Qed.

Lemma scheduleNotifications_guard (h : Host) (r : Readings) (d : DB) :
  s_enabled (getNotificationSettings d) = false ∨ getPrayerTimes d = None →
  scheduleNotifications h r d = d.
Proof.
  unfold scheduleNotifications.
  intros [->| ->]; [done|]. by destruct (s_enabled _).
Qed.

Lemma scheduleNotifications_other (h : Host) (r : Readings) (d : DB) :
  settings (scheduleNotifications h r d) = settings d ∧
  prayerTimes (scheduleNotifications h r d) = prayerTimes d.
Proof.
  unfold scheduleNotifications.
  destruct (s_enabled _); [|done]. destruct (getPrayerTimes d) as [pt|]; [|done].
  exact (schedule_fold_other h r _ pt timeMapping (dbClear_scheduled d)).
Qed.

Lemma scheduleNotifications_lookup (h : Host) (r : Readings) (d : DB)
    (pt : PrayerTimes) (k : string) (n : ScheduledNotification) :
  s_enabled (getNotificationSettings d) = true →
  getPrayerTimes d = Some pt →
  scheduledNotifications (scheduleNotifications h r d) !! k = Some n ↔
  ∃ apiKey timeStr t,
    (k, apiKey) ∈ timeMapping ∧
    s_prayers (getNotificationSettings d) !! k = Some true ∧
    pt_fields pt !! apiKey = Some timeStr ∧ timeStr ≠ [] ∧
    parseTimeToDate (host_tz h) (r_today r k) timeStr = Some t ∧
    r_now r < t ∧
    n = {| n_id := k; n_prayer := k; n_time := t; n_timeStr := timeStr;
           n_notified := false |}.
Proof.
  intros He Hpt. unfold scheduleNotifications. rewrite He, Hpt.
  rewrite schedule_fold_lookup by apply timeMapping_NoDup.
  simpl scheduledNotifications. rewrite lookup_empty.
  split.
  - destruct (list_to_map timeMapping !! k) as [a|] eqn:Ha; [|done]. simpl.
    destruct (due_entry _ _ _ _ _ _) as [n'|] eqn:Hn; [|done]. intros [= ->].
    apply due_entry_Some in Hn as (timeStr & t & ?).
    exists a, timeStr, t. split; [|done].
    by apply elem_of_list_to_map_2.
  - intros (a & timeStr & t & Hin & H).
    rewrite (elem_of_list_to_map_1 _ _ _ timeMapping_NoDup Hin). simpl.
    by rewrite (proj2 (due_entry_Some _ _ _ _ _ _ _)) by eauto.
Qed.

(** C2 (as amended). One run of [scheduleNotifications] with the stored
    settings globally enabled and a stored snapshot leaves the
    [scheduledNotifications] store holding, under each prayer name of
    [timeMapping] whose per-prayer flag is true, whose snapshot string under
    the provider key is non-empty and parses, and whose parsed instant is
    strictly later than [now], the pending record of that instant
    ([notified] false), and nothing else: what was stored before is cleared
    and no record is created at or before [now]. With the global flag off,
    or without a snapshot, the run leaves the store as it was. *)
Theorem scheduleNotifications_entries (h : Host) (r : Readings) (d : DB) :
  (∀ pt, s_enabled (getNotificationSettings d) = true →
         getPrayerTimes d = Some pt →
     ∀ k n,
       scheduledNotifications (scheduleNotifications h r d) !! k = Some n ↔
       ∃ apiKey timeStr t,
         (k, apiKey) ∈ timeMapping ∧
         s_prayers (getNotificationSettings d) !! k = Some true ∧
         pt_fields pt !! apiKey = Some timeStr ∧ timeStr ≠ [] ∧
         parseTimeToDate (host_tz h) (r_today r k) timeStr = Some t ∧
         r_now r < t ∧
         n = {| n_id := k; n_prayer := k; n_time := t; n_timeStr := timeStr;
                n_notified := false |}) ∧
  (s_enabled (getNotificationSettings d) = false ∨ getPrayerTimes d = None →
   scheduleNotifications h r d = d).
Proof.
  split.
  - intros pt He Hpt k n. by apply scheduleNotifications_lookup.
  - apply scheduleNotifications_guard.
Qed.

(** An enabled run at 01:00 replaces yesterday's Isha record by the Fajr
    record of 05:15. *)
Lemma scheduleNotifications_entries_witness :
  scheduledNotifications
    (scheduleNotifications Sample.host (Sample.readings Sample.one_am)
       (Sample.store true {[ "isha" := Sample.old_isha ]})) !! "fajr"
  = Some Sample.fajr.
Proof.
  apply (proj1 (scheduleNotifications_entries Sample.host (Sample.readings Sample.one_am)
                  (Sample.store true {[ "isha" := Sample.old_isha ]}))
           Sample.snapshot eq_refl eq_refl "fajr" Sample.fajr).
  exists "subh", (JS.of_string "5:15 AM"), Sample.fajr_time.
  split; [compute_done|]. split; [reflexivity|]. split; [reflexivity|].
  split; [discriminate|]. split; [reflexivity|]. split; [reflexivity|reflexivity].
Defined.

(** C2 as stated fails for a settings record whose global flag is off: Fajr
    has its flag on, a time string that parses to an instant after [now],
    and gets no record, and yesterday's Isha record is not cleared. *)
Lemma scheduleNotifications_disabled_counterexample :
  let d := Sample.store false {[ "isha" := Sample.old_isha ]} in
  let r := Sample.readings Sample.one_am in
  let d' := scheduleNotifications Sample.host r d in
  s_prayers (getNotificationSettings d) !! "fajr" = Some true ∧
  pt_fields Sample.snapshot !! "subh" = Some (JS.of_string "5:15 AM") ∧
  parseTimeToDate IST (r_today r "fajr") (JS.of_string "5:15 AM") = Some Sample.fajr_time ∧
  r_now r < Sample.fajr_time ∧
  scheduledNotifications d' !! "fajr" = None ∧
  scheduledNotifications d' !! "isha" = Some Sample.old_isha ∧
  n_time Sample.old_isha < r_now r.
Proof. repeat split; vm_compute; reflexivity. Qed.

(* ===================================================================== *)
(** ** The time parser *)
(* ===================================================================== *)

(** C7. [parseTimeToDate] is a total function of its input string. It
    returns [null] exactly when the string holds no time text (one or two
    hour digits, a colon, two minute digits, optional white space, AM or PM
    in any case), the empty string included. When it holds one, the result is
    the instant of today's local date at the hour and minute of the leftmost
    such text, the hour converted from the 12-hour clock: PM adds 12 except
    at 12, 12 AM is hour 0. A snapshot string without a time text makes an
    enabled recomputation skip that prayer only: every other prayer is
    scheduled under its own conditions. *)
Theorem parseTimeToDate_total (tz : TimeZone) (today : Z) (s : list N) :
  parseTimeToDate tz today [] = None ∧
  (parseTimeToDate tz today s = None ↔ ¬ contains_time_text s) ∧
  (∀ pre hs ms ws p suf,
     time_text_at s pre hs ms ws p suf →
     (∀ pre' hs' ms' ws' p' suf',
        time_text_at s pre' hs' ms' ws' p' suf' → (length pre ≤ length pre')%nat) →
     parseTimeToDate tz today s =
     Some (localDate tz today (to_24_hours p (JS.parseInt hs)) (JS.parseInt ms))) ∧
  (∀ t, parseTimeToDate tz today s = Some t →
     ∃ pre hs ms ws p suf,
       time_text_at s pre hs ms ws p suf ∧
       (∀ pre' hs' ms' ws' p' suf',
          time_text_at s pre' hs' ms' ws' p' suf' → (length pre ≤ length pre')%nat) ∧
       t = localDate tz today (to_24_hours p (JS.parseInt hs)) (JS.parseInt ms)) ∧
  (¬ contains_time_text s →
   ∀ h r d pt k a,
     s_enabled (getNotificationSettings d) = true →
     getPrayerTimes d = Some pt →
     (k, a) ∈ timeMapping →
     pt_fields pt !! a = Some s →
     scheduledNotifications (scheduleNotifications h r d) !! k = None ∧
     ∀ k' a' timeStr t,
       (k', a') ∈ timeMapping →
       s_prayers (getNotificationSettings d) !! k' = Some true →
       pt_fields pt !! a' = Some timeStr → timeStr ≠ [] →
       parseTimeToDate (host_tz h) (r_today r k') timeStr = Some t →
       r_now r < t →
       scheduledNotifications (scheduleNotifications h r d) !! k'
       = Some {| n_id := k'; n_prayer := k'; n_time := t; n_timeStr := timeStr;
                 n_notified := false |}).
Proof.
  assert (Hnone : ∀ tz' today', parseTimeToDate tz' today' s = None ↔ ¬ contains_time_text s).
  { intros tz' today'. rewrite parseTimeToDate_match, <- regex_match_None.
    by destruct (JS.regex_match s). }
  split; [done|]. split; [apply Hnone|].
  rewrite parseTimeToDate_match. split; [|split];
    [| |clear tz today; intros Hbad h r d pt k a Hen Hpt Hka Hs; split].
  - intros pre hs ms ws p suf H Hleft.
    rewrite (regex_match_leftmost _ _ _ _ _ _ _ H Hleft). simpl.
    rewrite period_hours; [done|]. by destruct H as (_ & _ & _ & _ & _ & _ & Hp).
  - intros t. destruct (JS.regex_match s) as [m|] eqn:Hm; [|done].
    intros [= <-]. apply regex_match_Some in Hm as (pre & ws & suf & H & Hleft).
    exists pre, (JS.m_hours m), (JS.m_minutes m), ws, (JS.m_period m), suf.
    split; [done|]. split; [done|].
    rewrite period_hours; [done|]. by destruct H as (_ & _ & _ & _ & _ & _ & Hp).
  - destruct (scheduledNotifications (scheduleNotifications h r d) !! k) as [n|] eqn:Hk;
      [exfalso|done].
    apply (scheduleNotifications_lookup h r d pt k n) in Hk
      as (a2 & timeStr & t & Hin & _ & Hf & _ & Ht & _); [|done..].
    assert (a2 = a) as ->.
    { apply (elem_of_list_to_map_1 (M := gmap string)) in Hin; [|apply timeMapping_NoDup].
      apply (elem_of_list_to_map_1 (M := gmap string)) in Hka; [|apply timeMapping_NoDup].
      congruence. }
    assert (timeStr = s) as -> by congruence.
    apply (Hnone (host_tz h) (r_today r k)) in Hbad. congruence.
  - intros k' a' timeStr t Hin Hflag Hf Hne Ht Hlt.
    apply (scheduleNotifications_lookup h r d pt k' _ Hen Hpt).
    by exists a', timeStr, t.
Qed.

(** The leftmost-text case at [5:15 AM], read on 3 November 2025 in Kerala. *)
Lemma parseTimeToDate_total_witness :
  parseTimeToDate IST 1762128000000 (JS.of_string "5:15 AM") = Some 1762127100000.
Proof.
  apply (proj1 (proj2 (proj2 (parseTimeToDate_total IST 1762128000000 (JS.of_string "5:15 AM"))))
           [] (JS.of_string "5") (JS.of_string "15") (JS.of_string " ") (JS.of_string "AM") []).
  - split; [reflexivity|]. split; [by left|].
    split; [by repeat constructor|]. split; [reflexivity|].
    split; [by repeat constructor|]. split; [by repeat constructor|].
    exists 65%N, 77%N. split; [reflexivity|]. split.
    + apply list_elem_of_In. simpl. by left.
    + apply list_elem_of_In. simpl. by left.
  - intros. simpl. lia.
Defined.

(* ===================================================================== *)
(** ** Scans *)
(* ===================================================================== *)

Lemma notifications_of_app (k : string) (t : Z) (l1 l2 : list Firing) :
  notifications_of k t (l1 ++ l2) = (notifications_of k t l1 + notifications_of k t l2)%nat.
Proof.
  unfold notifications_of.
  by rewrite filter_app, fmap_app, concat_app, filter_app, length_app.
Qed.

Lemma notifications_of_other (k : string) (t : Z) (f : Firing) :
  n_id (f_entry f) ≠ k ∨ n_time (f_entry f) ≠ t → notifications_of k t [f] = 0%nat.
Proof.
  intros H. unfold notifications_of.
  rewrite filter_cons_False; [done|]. intros [? ?]. by destruct H.
Qed.

Lemma showPrayerNotification_one (h : Host) (prayer : string) (timeStr : list N) (d : DB) :
  host_permission h = true →
  is_Some (PRAYER_MESSAGES !! prayer) →
  ∃ calls, showPrayerNotification h prayer timeStr d = Some calls ∧
    length (filter (fun c => is_show c = true) calls) = 1%nat.
Proof.
  intros Hperm [message Hm]. unfold showPrayerNotification. rewrite Hm, Hperm.
  eexists. split; [done|].
  rewrite filter_cons_True by done. simpl. f_equal.
  induction (host_windows h) as [|c l IH]; [done|].
  rewrite fmap_cons, filter_cons_False; [done|]. simpl. discriminate.
Qed.

Lemma showPrayerNotification_Some (h : Host) (prayer : string) (timeStr : list N) (d : DB) :
  is_Some (PRAYER_MESSAGES !! prayer) →
  is_Some (showPrayerNotification h prayer timeStr d).
Proof. intros [message Hm]. unfold showPrayerNotification. by rewrite Hm. Qed.

Lemma scan_body_skip (h : Host) (now : Z) (w : World) (n : ScheduledNotification) :
  n_notified n = true ∨ in_window now n = false → scan_body h now w n = Some w.
Proof.
  unfold scan_body, in_window. intros [-> | H]; [done|].
  destruct (n_notified n); [done|]. by rewrite H.
Qed.

Lemma scan_body_fire (h : Host) (now : Z) (w : World) (n : ScheduledNotification) :
  n_notified n = false → in_window now n = true →
  scan_body h now w n =
  (fun calls => {| db := dbPut_scheduled (mark_notified n) (db w);
                   fired := fired w ++ [{| f_entry := n; f_calls := calls |}] |})
    <$> showPrayerNotification h (n_prayer n) (n_timeStr n) (db w).
Proof.
  unfold scan_body, in_window. intros -> ->. by destruct (showPrayerNotification _ _ _ _).
Qed.

(** The three outcomes of one pass of the loop: the record is skipped, it
    is fired and marked, or [showPrayerNotification] throws. *)
Lemma scan_body_cases (h : Host) (now : Z) (w : World) (n : ScheduledNotification) :
  scan_body h now w n = Some w ∨
  (n_notified n = false ∧ in_window now n = true ∧
   ∃ calls, showPrayerNotification h (n_prayer n) (n_timeStr n) (db w) = Some calls ∧
     scan_body h now w n =
     Some {| db := dbPut_scheduled (mark_notified n) (db w);
             fired := fired w ++ [{| f_entry := n; f_calls := calls |}] |}) ∨
  (n_notified n = false ∧ in_window now n = true ∧
   PRAYER_MESSAGES !! n_prayer n = None ∧ scan_body h now w n = None).
Proof.
  destruct (n_notified n) eqn:Hn; [left; apply scan_body_skip; by left|].
  destruct (in_window now n) eqn:Hw; [|left; apply scan_body_skip; by right].
  right. rewrite scan_body_fire by done.
  destruct (showPrayerNotification _ _ _ _) as [calls|] eqn:Hs.
  - left. repeat split; try done. by exists calls.
  - right. repeat split; try done.
    unfold showPrayerNotification in Hs. by destruct (PRAYER_MESSAGES !! _).
Qed.

Lemma scan_body_Some (h : Host) (now : Z) (w : World) (n : ScheduledNotification) :
  is_Some (PRAYER_MESSAGES !! n_prayer n) → is_Some (scan_body h now w n).
Proof.
  intros Hm. destruct (scan_body_cases h now w n) as [-> | [(_ & _ & calls & _ & ->) | (_ & _ & Hnone & _)]];
    [by eexists|by eexists|]. rewrite Hnone in Hm. by destruct Hm.
Qed.

Arguments scan_body : simpl never.

Lemma scan_loop_cons (h : Host) (now : Z) (w : World) (n : ScheduledNotification)
    (l : list ScheduledNotification) :
  scan_loop h now w (n :: l) =
  match scan_body h now w n with
  | Some w' => scan_loop h now w' l
  | None => w
  end.
Proof. reflexivity. Qed.

Arguments scan_loop : simpl never.

(** A scan leaves the two other stores alone. *)
Lemma scan_fold_other (h : Host) (now : Z) (l : list ScheduledNotification) (w : World) :
  settings (db (scan_loop h now w l)) = settings (db w) ∧
  prayerTimes (db (scan_loop h now w l)) = prayerTimes (db w).
Proof.
  revert w. induction l as [|n l IH]; intros w; [done|].
  rewrite scan_loop_cons.
  destruct (scan_body_cases h now w n) as [-> | [(_ & _ & calls & _ & ->) | (_ & _ & _ & ->)]];
    [apply IH| |done].
  by destruct (IH {| db := dbPut_scheduled (mark_notified n) (db w);
                     fired := fired w ++ [{| f_entry := n; f_calls := calls |}] |})
    as [-> ->].
Qed.

(** Records with another key do not touch the key [k]. *)
Lemma scan_fold_untouched (h : Host) (now : Z) (k : string)
    (l : list ScheduledNotification) (w : World) :
  Forall (fun n => n_id n ≠ k) l →
  scheduledNotifications (db (scan_loop h now w l)) !! k
    = scheduledNotifications (db w) !! k ∧
  ∀ t, notifications_of k t (fired (scan_loop h now w l))
       = notifications_of k t (fired w).
Proof.
  revert w. induction l as [|n l IH]; intros w Hl; [done|].
  apply Forall_cons in Hl as [Hn Hl]. rewrite scan_loop_cons.
  destruct (scan_body_cases h now w n) as [-> | [(_ & _ & calls & _ & ->) | (_ & _ & _ & ->)]];
    [by apply IH| |done].
  destruct (IH {| db := dbPut_scheduled (mark_notified n) (db w);
                  fired := fired w ++ [{| f_entry := n; f_calls := calls |}] |} Hl)
    as [-> Hc]. split.
  - simpl. by rewrite lookup_insert_ne.
  - intros t. rewrite Hc. simpl.
    rewrite notifications_of_app, notifications_of_other; [lia|]. by left.
Qed.

(** No record of a store with one record per prayer makes the loop
    throw, so the loop over a list is the loop over its parts. *)
Lemma scan_loop_app (h : Host) (now : Z) (l1 l2 : list ScheduledNotification) (w : World) :
  Forall (fun n => is_Some (PRAYER_MESSAGES !! n_prayer n)) l1 →
  scan_loop h now w (l1 ++ l2) = scan_loop h now (scan_loop h now w l1) l2.
Proof.
  revert w. induction l1 as [|n l1 IH]; intros w Hl; [done|].
  apply Forall_cons in Hl as [Hn Hl]. simpl. rewrite !scan_loop_cons.
  destruct (scan_body_Some h now w n Hn) as [w' ->]. by apply IH.
Qed.

(** The records that [dbGetAll] returns, around the one stored under [k]. *)
Lemma dbGetAll_split (d : DB) (k : string) (e : ScheduledNotification) :
  scheduled_by_prayer (scheduledNotifications d) →
  scheduledNotifications d !! k = Some e →
  ∃ l1 l2, dbGetAll_scheduled d = l1 ++ e :: l2 ∧
    Forall (fun n => n_id n ≠ k) l1 ∧ Forall (fun n => n_id n ≠ k) l2.
Proof.
  intros Hwf He. unfold dbGetAll_scheduled.
  pose proof (NoDup_fst_map_to_list (scheduledNotifications d)) as Hnd.
  apply elem_of_map_to_list in He as Hin.
  apply list_elem_of_split in Hin as (l1 & l2 & Heq).
  assert (Hsub : ∀ k' n, (k', n) ∈ l1 ∨ (k', n) ∈ l2 → n_id n = k').
  { intros k' n Hk'.
    assert ((k', n) ∈ map_to_list (scheduledNotifications d)) as Hm.
    { rewrite Heq. apply elem_of_app. destruct Hk' as [Hk'|Hk']; [by left|].
      right. apply elem_of_cons. by right. }
    apply elem_of_map_to_list in Hm. by destruct (Hwf _ _ Hm). }
  rewrite Heq in Hnd. rewrite fmap_app, fmap_cons in Hnd. simpl in Hnd.
  apply NoDup_app in Hnd as (_ & Hl1 & Hnd). apply NoDup_cons in Hnd as [Hl2 _].
  exists (l1.*2), (l2.*2). rewrite Heq, fmap_app, fmap_cons. split; [done|].
  split; apply Forall_fmap, Forall_forall; intros [k' n] Hn; simpl.
  - rewrite (Hsub k' n) by (by left).
    intros ->. apply (Hl1 k).
    + apply list_elem_of_fmap. by exists (k, n).
    + apply elem_of_cons. by left.
  - rewrite (Hsub k' n) by (by right).
    intros ->. apply Hl2. apply list_elem_of_fmap. by exists (k, n).
Qed.

(** A scan keeps the store one record per prayer. *)
Lemma scan_fold_by_prayer (h : Host) (now : Z) (l : list ScheduledNotification) (w : World) :
  Forall record_by_prayer l →
  scheduled_by_prayer (scheduledNotifications (db w)) →
  scheduled_by_prayer (scheduledNotifications (db (scan_loop h now w l))).
Proof.
  revert w. induction l as [|n l IH]; intros w Hl Hw; [done|].
  apply Forall_cons in Hl as [[Hp Hm] Hl]. rewrite scan_loop_cons.
  destruct (scan_body_cases h now w n) as [-> | [(_ & _ & calls & _ & ->) | (_ & _ & _ & ->)]];
    [by apply IH| |done].
  apply IH; [done|].
  simpl. intros k n'. rewrite lookup_insert. case_decide as Hk.
  - simpl in Hk. subst k. by intros [= <-].
  - apply Hw.
Qed.

Lemma by_prayer_messages (l : list ScheduledNotification) :
  Forall record_by_prayer l →
  Forall (fun n => is_Some (PRAYER_MESSAGES !! n_prayer n)) l.
Proof. intros Hl. eapply Forall_impl; [exact Hl|]. intros n [-> Hm]. exact Hm. Qed.

Lemma dbGetAll_by_prayer (d : DB) :
  scheduled_by_prayer (scheduledNotifications d) →
  Forall record_by_prayer (dbGetAll_scheduled d).
Proof.
  intros Hwf. apply Forall_fmap, Forall_forall. intros [k n] Hin. simpl.
  apply elem_of_map_to_list in Hin. destruct (Hwf _ _ Hin) as (Hid & Hpr & Hm).
  split; by rewrite ?Hpr, Hid.
Qed.

Lemma checkAndShowNotifications_invariants (h : Host) (now : Z) (w : World) :
  settings (db (checkAndShowNotifications h now w)) = settings (db w) ∧
  prayerTimes (db (checkAndShowNotifications h now w)) = prayerTimes (db w) ∧
  (scheduled_by_prayer (scheduledNotifications (db w)) →
   scheduled_by_prayer (scheduledNotifications (db (checkAndShowNotifications h now w)))).
Proof.
  unfold checkAndShowNotifications. destruct (s_enabled _); [|done].
  destruct (scan_fold_other h now (dbGetAll_scheduled (db w)) w) as [-> ->].
  split; [done|]. split; [done|]. intros Hwf. apply scan_fold_by_prayer; [|done].
  by apply dbGetAll_by_prayer.
Qed.

(** The records around the one stored under [k], as the loop needs them. *)
Lemma dbGetAll_split_loop (d : DB) (k : string) (e : ScheduledNotification) :
  scheduled_by_prayer (scheduledNotifications d) →
  scheduledNotifications d !! k = Some e →
  ∃ l1 l2, dbGetAll_scheduled d = l1 ++ e :: l2 ∧
    Forall (fun n => n_id n ≠ k) l1 ∧ Forall (fun n => n_id n ≠ k) l2 ∧
    Forall (fun n => is_Some (PRAYER_MESSAGES !! n_prayer n)) l1.
Proof.
  intros Hwf He. destruct (dbGetAll_split _ _ _ Hwf He) as (l1 & l2 & Heq & Hl1 & Hl2).
  exists l1, l2. repeat split; try done.
  pose proof (dbGetAll_by_prayer d Hwf) as Hall. rewrite Heq in Hall.
  apply Forall_app in Hall as [Hall _]. by apply by_prayer_messages.
Qed.

(** An enabled scan that finds a pending record within the window. *)
Lemma scan_fires (h : Host) (now : Z) (w : World) (k : string) (e : ScheduledNotification) :
  host_permission h = true →
  scheduled_by_prayer (scheduledNotifications (db w)) →
  s_enabled (getNotificationSettings (db w)) = true →
  scheduledNotifications (db w) !! k = Some e →
  n_notified e = false →
  in_window now e = true →
  scheduledNotifications (db (checkAndShowNotifications h now w)) !! k
    = Some (mark_notified e) ∧
  notifications_of k (n_time e) (fired (checkAndShowNotifications h now w))
    = S (notifications_of k (n_time e) (fired w)).
Proof.
  intros Hperm Hwf Hen He Hpend Hwin. unfold checkAndShowNotifications. rewrite Hen.
  destruct (dbGetAll_split_loop _ _ _ Hwf He) as (l1 & l2 & -> & Hl1 & Hl2 & Hm1).
  destruct (Hwf _ _ He) as (Hid & Hpr & Hmsg).
  rewrite scan_loop_app by done. rewrite scan_loop_cons.
  destruct (scan_fold_untouched h now k l1 w Hl1) as [Hk1 Hc1].
  set (w1 := scan_loop h now w l1) in *.
  rewrite scan_body_fire by done.
  destruct (showPrayerNotification_one h (n_prayer e) (n_timeStr e) (db w1) Hperm)
    as (calls & -> & Hone); [by rewrite Hpr|]. simpl.
  destruct (scan_fold_untouched h now k l2
              {| db := dbPut_scheduled (mark_notified e) (db w1);
                 fired := fired w1 ++ [{| f_entry := e; f_calls := calls |}] |} Hl2)
    as [-> Hc2].
  rewrite Hc2. simpl. split.
  - by rewrite Hid, lookup_insert_eq.
  - rewrite notifications_of_app, Hc1. unfold notifications_of at 2.
    rewrite filter_cons_True by done. simpl. rewrite app_nil_r, Hone. lia.
Qed.

(** A scan that finds a record already notified. *)
Lemma scan_notified (h : Host) (now : Z) (w : World) (k : string) (e : ScheduledNotification) :
  scheduled_by_prayer (scheduledNotifications (db w)) →
  scheduledNotifications (db w) !! k = Some e →
  n_notified e = true →
  scheduledNotifications (db (checkAndShowNotifications h now w)) !! k = Some e ∧
  ∀ t, notifications_of k t (fired (checkAndShowNotifications h now w))
       = notifications_of k t (fired w).
Proof.
  intros Hwf He Hdone. unfold checkAndShowNotifications.
  destruct (s_enabled _); [|done].
  destruct (dbGetAll_split_loop _ _ _ Hwf He) as (l1 & l2 & -> & Hl1 & Hl2 & Hm1).
  rewrite scan_loop_app by done. rewrite scan_loop_cons.
  destruct (scan_fold_untouched h now k l1 w Hl1) as [Hk1 Hc1].
  set (w1 := scan_loop h now w l1) in *.
  rewrite (scan_body_skip h now w1 e) by (by left).
  destruct (scan_fold_untouched h now k l2 w1 Hl2) as [-> Hc2].
  split; [by rewrite Hk1|]. intros t. by rewrite Hc2, Hc1.
Qed.

(** The sample store is one record per prayer. *)
Lemma sample_fajr_by_prayer :
  scheduled_by_prayer ({[ "fajr" := Sample.fajr ]} : gmap string ScheduledNotification).
Proof.
  intros k n [<- <-]%lookup_singleton_Some. repeat split. by eexists.
Qed.

(** A scan that is resumed until it ends, with nothing in between, is
    [checkAndShowNotifications]. *)
Lemma resume_to_completion (h : Host) (now : Z) (sc : list Scan)
    (l : list ScheduledNotification) (w : World) :
  world (system_run h {| world := w; scans := sc ++ [{| scan_now := now; scan_todo := l |}] |}
           (replicate (length l) (Resume (length sc))))
  = scan_loop h now w l.
Proof.
  revert w. induction l as [|n l IH]; intros w; [done|].
  simpl. rewrite list_lookup_middle by done. simpl. rewrite scan_loop_cons.
  destruct (scan_body h now w n) as [w'|];
    rewrite insert_app_r_alt by lia; rewrite Nat.sub_diag; simpl; [apply IH|].
  clear IH. fold (system_run h). induction (length l) as [|m IHm]; [done|].
  simpl. rewrite list_lookup_middle by done. simpl. apply IHm.
Qed.

Lemma trigger_to_completion (h : Host) (now : Z) (sc : list Scan) (w : World) :
  world (system_run h {| world := w; scans := sc |}
           (Trigger now :: replicate (length (dbGetAll_scheduled (db w))) (Resume (length sc))))
  = checkAndShowNotifications h now w.
Proof.
  unfold checkAndShowNotifications. simpl. unfold start_scan. simpl.
  destruct (s_enabled _).
  - fold (system_run h). by rewrite resume_to_completion.
  - induction (length _) as [|m IH]; [done|].
    simpl. by rewrite (lookup_ge_None_2 sc (length sc)) by lia.
Qed.

(** C9. A scan is gated on the global flag: when the stored settings record
    has [enabled] false, or there is no stored record (the default has
    [enabled] false), [checkAndShowNotifications] changes nothing, whatever
    the scheduled records and the time: it shows no notification and writes
    no record; and a trigger starts no in-flight scan. *)
Theorem scan_gated_on_enabled (h : Host) (now : Z) (w : World) (sc : list Scan) :
  settings (db w) !! "notifications" = None ∨
  (∃ s, settings (db w) !! "notifications" = Some s ∧ s_enabled s = false) →
  checkAndShowNotifications h now w = w ∧
  system_step h {| world := w; scans := sc |} (Trigger now) = {| world := w; scans := sc |}.
Proof.
  intros H.
  assert (s_enabled (getNotificationSettings (db w)) = false) as Hoff.
  { unfold getNotificationSettings. by destruct H as [-> | (s & -> & Hs)]. }
  unfold checkAndShowNotifications. simpl. unfold start_scan. simpl.
  by rewrite Hoff.
Qed.

(** With the flag off, the Fajr record is not shown 30 seconds after its
    fire time. *)
Lemma scan_gated_on_enabled_witness :
  let w := Sample.world (Sample.store false {[ "fajr" := Sample.fajr ]}) in
  checkAndShowNotifications Sample.host (Sample.fajr_time + 30000) w = w ∧
  system_step Sample.host {| world := w; scans := [] |} (Trigger (Sample.fajr_time + 30000))
    = {| world := w; scans := [] |}.
Proof.
  apply (scan_gated_on_enabled Sample.host (Sample.fajr_time + 30000)
           (Sample.world (Sample.store false {[ "fajr" := Sample.fajr ]})) []).
  right. eexists. split; reflexivity.
Defined.

(** Recomputation keeps the store one record per prayer. *)
Lemma scheduleNotifications_by_prayer (h : Host) (r : Readings) (d : DB) :
  scheduled_by_prayer (scheduledNotifications d) →
  scheduled_by_prayer (scheduledNotifications (scheduleNotifications h r d)).
Proof.
  intros Hwf.
  destruct (s_enabled (getNotificationSettings d)) eqn:He;
    [|by rewrite scheduleNotifications_guard by (by left)].
  destruct (getPrayerTimes d) as [pt|] eqn:Hpt;
    [|by rewrite scheduleNotifications_guard by (by right)].
  intros k n (a & timeStr & t & Hin & _ & _ & _ & _ & _ & ->)%(scheduleNotifications_lookup h r d pt k _ He Hpt).
  split; [done|]. split; [done|].
  repeat (apply elem_of_cons in Hin as [[= -> _]|Hin]; [by eexists|]).
  by apply elem_of_nil in Hin.
Qed.

(** Every step of the system keeps it one record per prayer; so every
    store that the worker reaches from an empty one is. *)
Lemma system_step_by_prayer (h : Host) (s : System) (a : Action) :
  system_by_prayer s → system_by_prayer (system_step h s a).
Proof.
  intros [Hst Hsc].
  assert (∀ now, system_by_prayer (start_scan now s)) as Hstart.
  { intros now. unfold start_scan. destruct (s_enabled _); [|done].
    split; [done|]. simpl. apply Forall_app. split; [done|].
    repeat constructor. by apply dbGetAll_by_prayer. }
  destruct a as [now|i|r msg]; simpl.
  - apply Hstart.
  - destruct (scans s !! i) as [sc|] eqn:Hi; [|done].
    destruct (scan_todo sc) as [|n todo] eqn:Htodo; [done|].
    pose proof (Forall_lookup_1 _ _ _ _ Hsc Hi) as Hrec. simpl in Hrec.
    rewrite Htodo in Hrec.
    apply Forall_cons in Hrec as [Hn Htl].
    pose proof (scan_fold_by_prayer h (scan_now sc) [n] (world s)
                  (Forall_cons_2 _ _ _ Hn (Forall_nil_2 _)) Hst) as Hone.
    rewrite scan_loop_cons in Hone.
    destruct (scan_body h (scan_now sc) (world s) n) as [w'|]; split; simpl;
      try done; apply Forall_insert; try done; constructor.
  - destruct msg as [enabled prayers|fields| |]; try apply Hstart;
      (split; [|done]); simpl; by apply scheduleNotifications_by_prayer.
Qed.

Lemma system_run_by_prayer (h : Host) (acts : list Action) (s : System) :
  system_by_prayer s → system_by_prayer (system_run h s acts).
Proof.
  revert s. induction acts as [|a acts IH]; intros s Hs; [done|].
  simpl. by apply IH, system_step_by_prayer.
Qed.

Lemma empty_by_prayer :
  system_by_prayer {| world := {| db := empty_db; fired := [] |}; scans := [] |}.
Proof. split; [|constructor]. intros k n. simpl. by rewrite lookup_empty. Qed.

(* ===================================================================== *)
(** ** The worker machine *)
(* ===================================================================== *)

Lemma world_eta (w : World) : {| db := db w; fired := fired w |} = w.
Proof. by destruct w. Qed.

Lemma task_run_S (h : Host) (n : nat) (t : Task) (w : World) :
  task_run h (S n) t w = task_run h n (task_step h t w).1 (task_step h t w).2.
Proof.
  unfold task_run. rewrite Nat.iter_succ_r. cbn [fst snd].
  by destruct (task_step h t w).
Qed.

Lemma task_run_Finished (h : Host) (n : nat) (w : World) :
  task_run h n Finished w = (Finished, w).
Proof. induction n as [|n IH]; [done|]. by rewrite task_run_S. Qed.

(** The loop of a scan that nothing interrupts is [scan_loop]. *)
Lemma scan_continue_run (h : Host) (now : Z) (todo : list ScheduledNotification) :
  ∀ (w : World) (n : nat), (2 * length todo ≤ n)%nat →
  task_run h n (scan_continue now todo).1
    {| db := db w; fired := fired w ++ (scan_continue now todo).2 |}
  = (Finished, scan_loop h now w todo).
Proof.
  induction todo as [|n0 todo IH]; intros w n Hn.
  - simpl. by rewrite app_nil_r, world_eta, task_run_Finished.
  - rewrite scan_loop_cons. unfold scan_body. cbn [scan_continue].
    simpl in Hn.
    destruct (n_notified n0); [apply IH; lia|].
    destruct ((n_time n0 - now <=? 60000) && (n_time n0 - now >=? -60000));
      [|apply IH; lia].
    destruct n as [|[|n]]; [lia|lia|].
    unfold showPrayerNotification.
    destruct (PRAYER_MESSAGES !! n_prayer n0) as [message|] eqn:Hm.
    + cbn [fst snd]. rewrite app_nil_r, world_eta, task_run_S.
      cbn [task_step]. unfold showPrayerNotification. rewrite Hm. cbn [fst snd].
      rewrite task_run_S. cbn [task_step].
      pose proof (fun w' => IH w' n) as IH'.
      destruct (scan_continue now todo) as [t' firings]. cbn [fst snd db fired] in *.
      apply (IH' (Build_World _ _)). lia.
    + case_bool_decide as Hproto.
      * cbn [fst snd]. rewrite app_nil_r, world_eta, task_run_S.
        cbn [task_step]. unfold showPrayerNotification. rewrite Hm.
        rewrite bool_decide_eq_true_2 by done. cbn [fst snd].
        apply task_run_Finished.
      * cbn [fst snd]. rewrite task_run_S. cbn [task_step].
        pose proof (fun w' => IH w' (S n)) as IH'.
        destruct (scan_continue now todo) as [t' firings]. cbn [fst snd db fired] in *.
        apply (IH' (Build_World _ _)). lia.
Qed.

(** A scan that nothing interrupts is [checkAndShowNotifications]. *)
Lemma scan_task_run (h : Host) (now : Z) (w : World) (n : nat) :
  (2 + 2 * length (dbGetAll_scheduled (db w)) ≤ n)%nat →
  task_run h n (ScanSettings now) w = (Finished, checkAndShowNotifications h now w).
Proof.
  intros Hn. destruct n as [|[|n]]; [lia|lia|].
  rewrite task_run_S. cbn [task_step]. unfold checkAndShowNotifications.
  destruct (s_enabled _); cbn [fst snd]; [|apply task_run_Finished].
  rewrite task_run_S. cbn [task_step].
  pose proof (scan_continue_run h now (dbGetAll_scheduled (db w)) w n) as H.
  destruct (scan_continue now _) as [t' firings]. apply H. lia.
Qed.

(** The last task advanced [n] times in a row. *)
Lemma worker_run_advance (h : Host) (n : nat) :
  ∀ (t : Task) (w : World) (ts : list Task),
  worker_run h {| store := w; tasks := ts ++ [t] |} (replicate n (Advance (length ts)))
  = {| store := (task_run h n t w).2; tasks := ts ++ [(task_run h n t w).1] |}.
Proof.
  induction n as [|n IH]; intros t w ts; [done|].
  rewrite task_run_S. simpl. rewrite list_lookup_middle by done.
  destruct (task_step h t w) as [t' w'] eqn:Hstep.
  rewrite insert_app_r_alt by lia. rewrite Nat.sub_diag. simpl.
  apply (IH t' w' ts).
Qed.

Lemma tick_to_completion (h : Host) (now : Z) (w : World) (ts : list Task) (n : nat) :
  (2 + 2 * length (dbGetAll_scheduled (db w)) ≤ n)%nat →
  worker_run h {| store := w; tasks := ts |} (Tick now :: replicate n (Advance (length ts)))
  = {| store := checkAndShowNotifications h now w; tasks := ts ++ [Finished] |}.
Proof.
  intros Hn. simpl. fold (worker_run h).
  rewrite worker_run_advance. by rewrite scan_task_run.
Qed.

(* ===================================================================== *)
(** ** A fired record stays fired *)
(* ===================================================================== *)

Lemma settled_schedule_continue (h : Host) (e : ScheduledNotification) (r : Readings)
    (s : NotificationSettings) (pt : PrayerTimes) (rest : list (string * string)) :
  n_time e ≤ r_now r → settled_task e (schedule_continue h r s pt rest).
Proof.
  intros Hr. induction rest as [|[prayer apiKey] rest IH]; [done|].
  cbn [schedule_continue].
  destruct (s_prayers s !! prayer) as [[|]|]; try done.
  destruct (pt_fields pt !! apiKey) as [[|c l]|]; try done.
  destruct (parseTimeToDate _ _ _) as [prayerTime|]; [|done].
  destruct (r_now r <? prayerTime) eqn:Hlt; [|done].
  apply Z.ltb_lt in Hlt. split; [done|]. intros _. simpl. lia.
Qed.

Lemma settled_later (e n : ScheduledNotification) :
  settled_record e n → n_notified n = false → later_record e n.
Proof. intros Hs Hn Hid. by destruct (Hs Hid) as [->|H]. Qed.

Lemma later_marked (e n : ScheduledNotification) :
  later_record e n → settled_record e (mark_notified n).
Proof. intros Hl Hid. right. by apply Hl. Qed.

Lemma later_settled (e n : ScheduledNotification) :
  later_record e n → settled_record e n.
Proof. intros Hl Hid. right. by apply Hl. Qed.

Lemma settled_scan_continue (e : ScheduledNotification) (now : Z)
    (todo : list ScheduledNotification) :
  Forall (settled_record e) todo →
  settled_task e (scan_continue now todo).1 ∧
  Forall (fun f => later_record e (f_entry f)) (scan_continue now todo).2.
Proof.
  induction 1 as [|n todo Hn Htodo IH]; [by split|].
  cbn [scan_continue].
  destruct (n_notified n) eqn:Hnot; [done|].
  destruct (_ && _); [|done].
  pose proof (settled_later e n Hn Hnot) as Hl.
  destruct (PRAYER_MESSAGES !! n_prayer n); [by repeat split|].
  case_bool_decide; [by repeat split|].
  split; [by split|]. by apply Forall_singleton.
Qed.

Lemma notifications_of_later (e : ScheduledNotification) (log fs : list Firing) :
  Forall (fun f => later_record e (f_entry f)) fs →
  notifications_of (n_id e) (n_time e) (log ++ fs)
  = notifications_of (n_id e) (n_time e) log.
Proof.
  intros Hfs. rewrite notifications_of_app.
  assert (notifications_of (n_id e) (n_time e) fs = 0%nat) as ->; [|lia].
  induction Hfs as [|f fs Hf Hfs IH]; [done|].
  change (f :: fs) with ([f] ++ fs). rewrite notifications_of_app, IH.
  rewrite notifications_of_other; [done|].
  destruct (decide (n_id (f_entry f) = n_id e)) as [Hid|Hid]; [right|by left].
  specialize (Hf Hid). lia.
Qed.

Lemma settled_dbGetAll (e : ScheduledNotification) (w : World) :
  settled_store e w → Forall (settled_record e) (dbGetAll_scheduled (db w)).
Proof.
  intros Hs. apply Forall_forall. intros n Hin. unfold dbGetAll_scheduled in Hin.
  apply list_elem_of_fmap in Hin as ([k n'] & -> & Hin).
  apply elem_of_map_to_list in Hin. by destruct (Hs k n' Hin).
Qed.

Lemma settled_store_put (e n : ScheduledNotification) (w w' : World) :
  settled_store e w → settled_record e n →
  scheduledNotifications (db w') = <[n_id n := n]> (scheduledNotifications (db w)) →
  settled_store e w'.
Proof.
  intros Hs Hn Heq k n'. rewrite Heq.
  destruct (decide (n_id n = k)) as [<-|Hne].
  - rewrite lookup_insert_eq. by intros [= <-].
  - rewrite lookup_insert_ne by done. apply Hs.
Qed.

Lemma settled_store_same (e : ScheduledNotification) (w w' : World) :
  settled_store e w →
  scheduledNotifications (db w') = scheduledNotifications (db w) →
  settled_store e w'.
Proof. intros Hs Heq k n'. rewrite Heq. apply Hs. Qed.

(** One store operation of a settled task keeps the worker settled and
    shows nothing for [e]. *)
Lemma settled_task_step (h : Host) (e : ScheduledNotification) (t : Task) (w : World) :
  settled_store e w → settled_task e t →
  settled_store e (task_step h t w).2 ∧
  settled_task e (task_step h t w).1 ∧
  notifications_of (n_id e) (n_time e) (fired (task_step h t w).2)
  = notifications_of (n_id e) (n_time e) (fired w).
Proof.
  intros Hst Ht.
  destruct t as [r enabled prayers|r fields|r|r s|r s pt|r s pt data rest|now|now
                 |now n todo|now n todo|]; cbn [task_step fst snd].
  - split; [by apply (settled_store_same e w)|by split].
  - split; [by apply (settled_store_same e w)|by split].
  - done.
  - destruct (s_enabled s); [|done]. by destruct (getPrayerTimes (db w)).
  - split; [|split; [by apply settled_schedule_continue|done]].
    intros k n. simpl. by rewrite lookup_empty.
  - destruct Ht as [Hr Hdata].
    split; [|split; [by apply settled_schedule_continue|done]].
    apply (settled_store_put e data w); [done|by apply later_settled|done].
  - by destruct (s_enabled _).
  - destruct (settled_scan_continue e now _ (settled_dbGetAll e w Hst)) as [H1 H2].
    destruct (scan_continue now _) as [t' firings]. cbn [fst snd fired] in *.
    split; [by apply (settled_store_same e w)|]. split; [done|].
    by apply notifications_of_later.
  - destruct Ht as [Hn Htodo].
    destruct (showPrayerNotification _ _ _ _) as [calls|]; [|done]. cbn [fst snd fired].
    split; [by apply (settled_store_same e w)|]. split; [done|].
    apply notifications_of_later. by apply Forall_singleton.
  - destruct Ht as [Hn Htodo].
    destruct (settled_scan_continue e now todo Htodo) as [H1 H2].
    destruct (scan_continue now todo) as [t' firings]. cbn [fst snd fired] in *.
    split; [|split; [done|by apply notifications_of_later]].
    apply (settled_store_put e (mark_notified n) w); [done|by apply later_marked|done].
  - done.
Qed.

Lemma settled_worker_step (h : Host) (e : ScheduledNotification) (c : nat)
    (s : Worker) (ev : Event) :
  settled_worker e c s → recomputes_from (n_time e) ev →
  settled_worker e c (worker_step h s ev).
Proof.
  intros (Hst & Hts & Hc) Hev. destruct ev as [now|r msg|i]; simpl.
  - split; [done|]. split; [|done]. apply Forall_app. split; [done|].
    by apply Forall_singleton.
  - split; [done|]. split; [|done]. apply Forall_app. split; [done|].
    apply Forall_singleton. destruct msg; simpl; try done; by apply Hev.
  - destruct (tasks s !! i) as [t|] eqn:Hi; [|done].
    destruct (settled_task_step h e t (store s) Hst (Forall_lookup_1 _ _ _ _ Hts Hi))
      as (H1 & H2 & H3).
    destruct (task_step h t (store s)) as [t' w']. simpl in *.
    split; [done|]. split; [by apply Forall_insert|]. unfold store at 1. by rewrite H3.
Qed.

Lemma settled_worker_run (h : Host) (e : ScheduledNotification) (c : nat)
    (evs : list Event) (s : Worker) :
  settled_worker e c s → Forall (recomputes_from (n_time e)) evs →
  settled_worker e c (worker_run h s evs).
Proof.
  intros Hs Hevs. revert s Hs. induction Hevs as [|ev evs Hev Hevs IH]; intros s Hs; [done|].
  simpl. apply IH. by apply settled_worker_step.
Qed.

(** C3 (as amended). With the stored settings globally enabled and a host
    that accepts notifications, a scan started on an idle worker at a time
    [now] within 60 seconds of the fire time of a pending record, and run
    to its end with nothing in between, is [checkAndShowNotifications]: it
    shows exactly one notification for that record and stores it with
    [notified] true. Whatever happens afterwards (timer ticks, control
    messages, their handlers interleaved at every store operation in any
    order), no further notification is shown for the record, and the record
    stored under its key is that marked record or one with a later fire
    time, provided every recomputation that is started afterwards reads its
    clock at the fire time of the record or later. The store is one record
    per prayer, as every store the worker reaches is. *)
Theorem scan_fires_once (h : Host) (w : World) (k : string) (e : ScheduledNotification)
    (now : Z) (evs : list Event) :
  host_permission h = true →
  scheduled_by_prayer (scheduledNotifications (db w)) →
  s_enabled (getNotificationSettings (db w)) = true →
  scheduledNotifications (db w) !! k = Some e →
  n_notified e = false →
  -60000 ≤ n_time e - now ≤ 60000 →
  Forall (recomputes_from (n_time e)) evs →
  let steps := (2 + 2 * length (dbGetAll_scheduled (db w)))%nat in
  let s1 := worker_run h {| store := w; tasks := [] |}
              (Tick now :: replicate steps (Advance 0)) in
  let s2 := worker_run h s1 evs in
  s1 = {| store := checkAndShowNotifications h now w; tasks := [Finished] |} ∧
  notifications_of k (n_time e) (fired (store s1))
    = S (notifications_of k (n_time e) (fired w)) ∧
  scheduledNotifications (db (store s1)) !! k = Some (mark_notified e) ∧
  notifications_of k (n_time e) (fired (store s2))
    = S (notifications_of k (n_time e) (fired w)) ∧
  ∀ n, scheduledNotifications (db (store s2)) !! k = Some n →
       n = mark_notified e ∨ n_time e < n_time n.
Proof.
  intros Hperm Hwf Hen He Hpend Hwin Hevs steps s1 s2.
  assert (in_window now e = true) as Hw.
  { unfold in_window. apply andb_true_iff. split; [apply Z.leb_le|apply Z.geb_le]; lia. }
  destruct (scan_fires h now w k e Hperm Hwf Hen He Hpend Hw) as [Hk1 Hc1].
  destruct (checkAndShowNotifications_invariants h now w) as (_ & _ & Hwf1).
  specialize (Hwf1 Hwf).
  destruct (Hwf _ _ He) as (Hid & _ & _).
  assert (s1 = {| store := checkAndShowNotifications h now w; tasks := [Finished] |}) as Hs1
    by (apply (tick_to_completion h now w []); lia).
  assert (settled_worker e (S (notifications_of k (n_time e) (fired w))) s2) as (Hst & _ & Hc).
  { apply settled_worker_run; [|done]. rewrite Hs1. split; [|split].
    - intros k' n Hn. destruct (Hwf1 _ _ Hn) as (Hid' & _ & _). split; [done|].
      intros Heq. left. rewrite Hid in Heq. rewrite <- Hid', Heq in Hn. simpl in Hn.
      rewrite Hk1 in Hn. by injection Hn.
    - by apply Forall_singleton.
    - simpl. by rewrite Hid. }
  rewrite Hid in Hc.
  split; [done|]. rewrite Hs1 at 1 2. simpl. split; [done|]. split; [done|]. split; [done|].
  intros n Hn. destruct (Hst _ _ Hn) as [Hidn Hsettled]. apply Hsettled. by rewrite Hid.
Qed.

(** The Fajr record is scanned 30 seconds after its fire time; a scan, a
    recomputation and another scan follow, interleaved. *)
Lemma scan_fires_once_witness :
  let w := Sample.world (Sample.store true {[ "fajr" := Sample.fajr ]}) in
  let r := Sample.readings (Sample.fajr_time + 40000) in
  let s1 := worker_run Sample.host {| store := w; tasks := [] |}
              (Tick (Sample.fajr_time + 30000) :: replicate 4 (Advance 0)) in
  let s2 := worker_run Sample.host s1
              [Tick (Sample.fajr_time + 45000); Receive r SCHEDULE_NOTIFICATIONS;
               Advance 1; Advance 2; Advance 1; Advance 2; Advance 2; Advance 1;
               Tick (Sample.fajr_time + 60000); Advance 3; Advance 2; Advance 3] in
  notifications_of "fajr" Sample.fajr_time (fired (store s1)) = 1%nat ∧
  scheduledNotifications (db (store s1)) !! "fajr" = Some (mark_notified Sample.fajr) ∧
  notifications_of "fajr" Sample.fajr_time (fired (store s2)) = 1%nat.
Proof.
  cbv zeta.
  pose proof (scan_fires_once Sample.host
                (Sample.world (Sample.store true {[ "fajr" := Sample.fajr ]}))
                "fajr" Sample.fajr (Sample.fajr_time + 30000)
                [Tick (Sample.fajr_time + 45000);
                 Receive (Sample.readings (Sample.fajr_time + 40000)) SCHEDULE_NOTIFICATIONS;
                 Advance 1; Advance 2; Advance 1; Advance 2; Advance 2; Advance 1;
                 Tick (Sample.fajr_time + 60000); Advance 3; Advance 2; Advance 3]
                eq_refl sample_fajr_by_prayer eq_refl eq_refl eq_refl) as H.
  destruct H as (_ & H1 & H2 & H3 & _).
  - simpl. unfold Sample.fajr_time. lia.
  - repeat constructor; intros t0; simpl; try discriminate.
    intros [= <-]. lia.
  - split; [exact H1|]. split; [exact H2|exact H3].
Defined.

(** C3 as stated fails in four ways, each on the pending Fajr record. With
    the global flag off, a scan 30 seconds after the fire time shows
    nothing and leaves the record pending. With the flag on and a host that
    rejects [showNotification], the scan shows nothing and stores the
    record with [notified] true. With the flag on and a host that accepts,
    two scans that both read the store before either has written show the
    notification of the record twice. And a scan 30 seconds before the fire
    time followed by a recomputation 20 seconds before it and by a scan at
    the fire time, each run to its end, shows it twice. *)
Lemma scan_counterexample :
  let now := Sample.fajr_time + 30000 in
  let idle (enabled : bool) :=
    {| store := Sample.world (Sample.store enabled {[ "fajr" := Sample.fajr ]});
       tasks := [] |} in
  n_notified Sample.fajr = false ∧
  -60000 ≤ n_time Sample.fajr - now ≤ 60000 ∧
  (let s := worker_run Sample.host (idle false) (Tick now :: replicate 4 (Advance 0)) in
   store s = store (idle false) ∧
   notifications_of "fajr" Sample.fajr_time (fired (store s)) = 0%nat) ∧
  (let s := worker_run Sample.host_denied (idle true) (Tick now :: replicate 4 (Advance 0)) in
   notifications_of "fajr" Sample.fajr_time (fired (store s)) = 0%nat ∧
   scheduledNotifications (db (store s)) !! "fajr" = Some (mark_notified Sample.fajr)) ∧
  (let s := worker_run Sample.host (idle true)
              [Tick now; Tick now; Advance 0; Advance 1; Advance 0; Advance 1;
               Advance 0; Advance 1; Advance 0; Advance 1] in
   notifications_of "fajr" Sample.fajr_time (fired (store s)) = 2%nat) ∧
  (let r := Sample.readings (Sample.fajr_time - 20000) in
   let s1 := worker_run Sample.host (idle true)
               (Tick (Sample.fajr_time - 30000) :: replicate 4 (Advance 0)) in
   let s2 := worker_run Sample.host s1
               (Receive r SCHEDULE_NOTIFICATIONS :: replicate 4 (Advance 1)) in
   let s3 := worker_run Sample.host s2
               (Tick Sample.fajr_time :: replicate 4 (Advance 2)) in
   -60000 ≤ n_time Sample.fajr - (Sample.fajr_time - 30000) ≤ 60000 ∧
   tasks s1 = [Finished] ∧
   notifications_of "fajr" Sample.fajr_time (fired (store s1)) = 1%nat ∧
   tasks s2 = [Finished; Finished] ∧
   scheduledNotifications (db (store s2)) !! "fajr" = Some Sample.fajr ∧
   tasks s3 = [Finished; Finished; Finished] ∧
   notifications_of "fajr" Sample.fajr_time (fired (store s3)) = 2%nat).
Proof.
  split; [reflexivity|]. split; [unfold Sample.fajr, Sample.fajr_time; simpl; lia|].
  split; [split; vm_compute; reflexivity|].
  split; [split; vm_compute; reflexivity|].
  split; [vm_compute; reflexivity|].
  split; [unfold Sample.fajr, Sample.fajr_time; simpl; lia|].
  repeat split; vm_compute; reflexivity.
Qed.

(* ===================================================================== *)
(** ** Missed records *)
(* ===================================================================== *)

(** What recomputation stores was stored before or lies after its [now]. *)
Lemma scheduleNotifications_new (h : Host) (r : Readings) (d : DB) (k : string)
    (n : ScheduledNotification) :
  scheduledNotifications (scheduleNotifications h r d) !! k = Some n →
  scheduledNotifications d !! k = Some n ∨ r_now r < n_time n.
Proof.
  destruct (s_enabled (getNotificationSettings d)) eqn:He;
    [|rewrite scheduleNotifications_guard by (by left); by left].
  destruct (getPrayerTimes d) as [pt|] eqn:Hpt;
    [|rewrite scheduleNotifications_guard by (by right); by left].
  intros (a & timeStr & t & _ & _ & _ & _ & _ & Hlt & ->)%(scheduleNotifications_lookup h r d pt k n He Hpt).
  by right.
Qed.

Section Missed.
Context (h : Host) (now0 : Z) (k : string) (e : ScheduledNotification).
Hypothesis Hmissed : n_time e + 60000 < now0.

Local Abbreviation missed := (missed_state now0 k e).

Lemma missed_start_scan (c : nat) (s : System) (now : Z) :
  now0 ≤ now → missed c s → missed c (start_scan now s).
Proof.
  intros Hnow (Hsc & Hk & Hc). unfold start_scan.
  destruct (s_enabled _); [|done].
  split; [|done]. simpl. apply Forall_app. split; [done|]. by repeat constructor.
Qed.

Lemma missed_scan_body (c : nat) (w w' : World) (now : Z) (n : ScheduledNotification) :
  now0 ≤ now →
  (∀ n, scheduledNotifications (db w) !! k = Some n → n = e ∨ now0 - 60000 ≤ n_time n) →
  notifications_of k (n_time e) (fired w) = c →
  scan_body h now w n = Some w' →
  (∀ n', scheduledNotifications (db w') !! k = Some n' →
         n' = e ∨ now0 - 60000 ≤ n_time n') ∧
  notifications_of k (n_time e) (fired w') = c.
Proof.
  intros Hnow Hk Hc.
  destruct (scan_body_cases h now w n)
    as [-> | [(_ & Hwin & calls & _ & ->) | (_ & _ & _ & ->)]]; [by intros [= <-]| |done].
  intros [= <-].
  unfold in_window in Hwin. apply andb_true_iff in Hwin as [_ Hlo%Z.geb_le].
  simpl. split.
  - intros n'. rewrite lookup_insert. case_decide.
    + intros [= <-]. right. simpl. lia.
    + apply Hk.
  - rewrite notifications_of_app, notifications_of_other; [lia|].
    right. simpl. lia.
Qed.

Lemma missed_on_message (c : nat) (s : System) (r : Readings) (msg : ControlMessage) :
  now0 ≤ r_now r → missed c s →
  missed c (system_step h s (Deliver r msg)).
Proof.
  intros Hnow Hm. destruct msg; simpl; try by apply missed_start_scan.
  all: destruct Hm as (Hsc & Hk & Hc); split; [done|]; split; [|done]; simpl.
  all: intros n [Hn|Hn]%scheduleNotifications_new; [by apply Hk|right; lia].
Qed.

Lemma missed_step (c : nat) (s : System) (a : Action) :
  (∀ t, action_now a = Some t → now0 ≤ t) →
  missed c s → missed c (system_step h s a).
Proof.
  intros Ha Hm. destruct a as [now|i|r msg].
  - apply missed_start_scan; [|done]. by apply Ha.
  - simpl. destruct (scans s !! i) as [sc|] eqn:Hi; [|done].
    destruct (scan_todo sc) as [|n todo]; [done|].
    destruct Hm as (Hsc & Hk & Hc).
    assert (now0 ≤ scan_now sc) as Hnow by (by eapply (Forall_lookup_1 _ _ _ _ Hsc)).
    destruct (scan_body h (scan_now sc) (world s) n) as [w'|] eqn:Hbody.
    + destruct (missed_scan_body c (world s) w' (scan_now sc) n Hnow Hk Hc Hbody)
        as [Hk' Hc'].
      split; [|done]. simpl. by apply Forall_insert.
    + split; [|done]. simpl. by apply Forall_insert.
  - apply missed_on_message; [|done]. by apply Ha.
Qed.

Lemma missed_run (c : nat) (acts : list Action) (s : System) :
  Forall (fun a => ∀ t, action_now a = Some t → now0 ≤ t) acts →
  missed c s → missed c (system_run h s acts).
Proof.
  revert s. induction acts as [|a acts IH]; intros s Hacts Hm; [done|].
  apply Forall_cons in Hacts as [Ha Hacts]. simpl.
  apply IH; [done|]. by apply missed_step.
Qed.

(** C4. A pending record whose fire time is more than 60 seconds before
    the time [now0] of its first scan is never fired: whatever the worker
    does from then on (scans, also overlapping ones, settings and snapshot
    updates, recomputations), reading clocks that do not go back before
    [now0], no notification is ever shown for it, and the record under its
    key is either that record, still with [notified] false, or a record
    with a later fire time. *)
Theorem missed_entry_never_fires (w : World) (acts : list Action) :
  scheduledNotifications (db w) !! k = Some e →
  n_notified e = false →
  Forall (fun a => ∀ t, action_now a = Some t → now0 ≤ t) acts →
  let s' := system_run h {| world := w; scans := [] |} acts in
  notifications_of k (n_time e) (fired (world s'))
    = notifications_of k (n_time e) (fired w) ∧
  ∀ n, scheduledNotifications (db (world s')) !! k = Some n →
       (n = e ∧ n_notified n = false) ∨ n_time e < n_time n.
Proof.
  intros He Hpend Hacts s'.
  assert (missed (notifications_of k (n_time e) (fired w)) {| world := w; scans := [] |}) as Hm.
  { split; [constructor|]. split; [|done]. simpl. intros n Hn. left. congruence. }
  destruct (missed_run _ acts _ Hacts Hm) as (_ & Hk & Hc).
  split; [done|]. intros n [->|Hn]%Hk; [by left|right; lia].
Qed.
End Missed.

(** The Fajr record first scanned 90 seconds late, then a recomputation and
    a second scan. *)
Lemma missed_entry_never_fires_witness :
  let missed := {| n_id := "fajr"; n_prayer := "fajr"; n_time := Sample.fajr_time;
                   n_timeStr := JS.of_string "5:15 AM"; n_notified := false |} in
  let now0 := Sample.fajr_time + 90000 in
  let w := Sample.world (Sample.store true {[ "fajr" := missed ]}) in
  let s' := system_run Sample.host {| world := w; scans := [] |}
              [Trigger now0; Resume 0; Deliver (Sample.readings (now0 + 5)) SCHEDULE_NOTIFICATIONS;
               Trigger (now0 + 30000); Resume 1] in
  notifications_of "fajr" Sample.fajr_time (fired (world s')) = 0%nat ∧
  ∀ n, scheduledNotifications (db (world s')) !! "fajr" = Some n →
       (n = missed ∧ n_notified n = false) ∨ Sample.fajr_time < n_time n.
Proof.
  apply (missed_entry_never_fires Sample.host (Sample.fajr_time + 90000) "fajr"
           Sample.fajr).
  - unfold Sample.fajr, Sample.fajr_time. simpl. lia.
  - reflexivity.
  - reflexivity.
  - repeat constructor; simpl; intros t [= <-]; lia.
Defined.

(* ===================================================================== *)
(** ** The settings record *)
(* ===================================================================== *)

Lemma system_step_settings (h : Host) (s : System) (a : Action) :
  (∀ r enabled prayers, a ≠ Deliver r (UPDATE_NOTIFICATION_SETTINGS enabled prayers)) →
  settings (db (world (system_step h s a))) = settings (db (world s)).
Proof.
  intros Ha. destruct a as [now|i|r msg]; simpl.
  - unfold start_scan. by destruct (s_enabled _).
  - destruct (scans s !! i) as [sc|]; [|done].
    destruct (scan_todo sc) as [|n todo]; [done|]. simpl.
    by destruct (scan_body_cases h (scan_now sc) (world s) n)
      as [-> | [(_ & _ & calls & _ & ->) | (_ & _ & _ & ->)]].
  - destruct msg as [enabled prayers|fields| |]; simpl.
    + by destruct (Ha r enabled prayers).
    + by destruct (scheduleNotifications_other h r (put_prayerTimes fields (r_stamp r) (db (world s)))) as [-> _].
    + unfold start_scan. by destruct (s_enabled _).
    + by destruct (scheduleNotifications_other h r (db (world s))) as [-> _].
Qed.

(** C8 (as amended). When the store holds no settings record, reading the
    settings returns the default record (globally off; per-prayer flags on
    except sunrise) and does not store it: only an
    [UPDATE_NOTIFICATION_SETTINGS] message changes the settings store. That
    message replaces the record under [notifications] by the payload,
    whatever was stored, and then runs the recomputation on the updated
    store. *)
Theorem settings_read_and_update (h : Host) (r : Readings) (w : World)
    (enabled : bool) (prayers : gmap string bool) :
  (settings (db w) !! "notifications" = None →
   getNotificationSettings (db w) = default_settings) ∧
  s_enabled default_settings = false ∧
  s_prayers default_settings !! "sunrise" = Some false ∧
  (∀ p, p ∈ ["fajr"; "dhuhr"; "asr"; "maghrib"; "isha"] →
        s_prayers default_settings !! p = Some true) ∧
  (∀ a sc,
     (∀ r' enabled' prayers',
        a ≠ Deliver r' (UPDATE_NOTIFICATION_SETTINGS enabled' prayers')) →
     settings (db (world (system_step h {| world := w; scans := sc |} a)))
       = settings (db w)) ∧
  (let w' := on_message h r (UPDATE_NOTIFICATION_SETTINGS enabled prayers) w in
   let record := {| s_id := "notifications"; s_enabled := enabled;
                    s_prayers := prayers |} in
   settings (db w') = <["notifications" := record]> (settings (db w)) ∧
   getNotificationSettings (db w') = record ∧
   db w' = scheduleNotifications h r (put_settings enabled prayers (db w)) ∧
   fired w' = fired w).
Proof.
  split; [by unfold getNotificationSettings; intros ->|].
  split; [done|]. split; [done|].
  split.
  { intros p Hp. repeat (apply elem_of_cons in Hp as [->|Hp]; [done|]).
    by apply elem_of_nil in Hp. }
  split; [intros a sc Ha; by apply (system_step_settings h {| world := w; scans := sc |})|].
  simpl.
  destruct (scheduleNotifications_other h r (put_settings enabled prayers (db w))) as [Hs _].
  split; [by rewrite Hs|]. split; [|done].
  unfold getNotificationSettings. rewrite Hs. simpl. by rewrite lookup_insert_eq.
Qed.

(** The read on the empty store. *)
Lemma settings_read_and_update_witness :
  getNotificationSettings (db (Sample.world empty_db)) = default_settings.
Proof.
  apply (proj1 (settings_read_and_update Sample.host (Sample.readings Sample.one_am)
                  (Sample.world empty_db) true ∅)).
  reflexivity.
Defined.

(** C8 as stated fails: after the settings have been read on a store
    without a settings record (by a scan, a recomputation and a second
    scan), the store still holds no settings record. *)
Lemma settings_not_created_counterexample :
  let r := Sample.readings Sample.one_am in
  let s := system_run Sample.host {| world := Sample.world empty_db; scans := [] |}
             [Trigger Sample.one_am; Deliver r SCHEDULE_NOTIFICATIONS;
              Deliver r CHECK_NOTIFICATIONS] in
  settings empty_db !! "notifications" = None ∧
  getNotificationSettings empty_db = default_settings ∧
  settings (db (world s)) !! "notifications" = None.
Proof. repeat split. Qed.
(* ===================================================================== *)
(** ** Cache storage *)
(* ===================================================================== *)

Lemma put_rejected_storable (request : Request) (r : Response) :
  put_rejected request r = false ↔ storable request r.
Proof.
  unfold put_rejected, storable.
  rewrite !orb_false_iff, !negb_false_iff, String.eqb_eq, Z.eqb_neq. tauto.
Qed.

Lemma put_rejected_not_storable (request : Request) (r : Response) :
  put_rejected request r = true ↔ ¬ storable request r.
Proof.
  rewrite <- put_rejected_storable. by destruct (put_rejected request r).
Qed.

Lemma request_matches_url (q rq : Request) (r : Response) :
  request_matches q rq r = true →
  strip_fragment (href q) = strip_fragment (href rq).
Proof.
  unfold request_matches. rewrite !andb_true_iff. by intros [[_ ?%String.eqb_eq] _].
Qed.

Lemma request_matches_refl (rq : Request) (r : Response) :
  method rq = "GET" → vary_star r = false → request_matches rq rq r = true.
Proof.
  intros Hget Hvary. unfold request_matches.
  rewrite Hget, !String.eqb_refl. cbn [andb].
  apply forallb_forall. intros f Hin.
  rewrite bool_decide_eq_true_2 by done. rewrite andb_true_r.
  destruct (String.eqb "*" f) eqn:Hf; [|done].
  unfold vary_star in Hvary.
  assert (existsb (String.eqb "*") (vary_fields r) = true) as Hex; [|congruence].
  apply existsb_exists. by exists f.
Qed.

(** Setting a header other than [Vary] leaves the [Vary] test as it is. *)
Lemma vary_star_with_header (name value : string) (r : Response) :
  lower name ≠ "vary" → vary_star (with_header name value r) = vary_star r.
Proof.
  intros Hne. unfold vary_star, vary_fields, with_header, headers_get, headers_set. simpl.
  by rewrite lookup_insert_ne.
Qed.

Lemma storable_with_header (name value : string) (request : Request) (r : Response) :
  lower name ≠ "vary" → storable request (with_header name value r) ↔ storable request r.
Proof.
  intros Hne. unfold storable. by rewrite vary_star_with_header.
Qed.

Lemma query_cache_app_None (q : Request) (c1 c2 : Cache) :
  query_cache q c1 = None → query_cache q (c1 ++ c2) = query_cache q c2.
Proof.
  induction c1 as [|[rq r] c1 IH]; [done|]. simpl.
  destruct (request_matches q rq r); [done|apply IH].
Qed.

Lemma query_cache_Some (q : Request) (c : Cache) (r : Response) :
  query_cache q c = Some r → ∃ rq, (rq, r) ∈ c ∧ request_matches q rq r = true.
Proof.
  induction c as [|[rq r'] c IH]; [done|]. simpl.
  destruct (request_matches q rq r') eqn:Hm.
  - intros [= ->]. exists rq. split; [left|done].
  - intros (rq' & Hin & Hm')%IH. exists rq'. split; [by right|done].
Qed.

Lemma query_cache_None (q : Request) (c : Cache) :
  query_cache q c = None ↔ ∀ rq r, (rq, r) ∈ c → request_matches q rq r = false.
Proof.
  induction c as [|[rq r'] c IH]; simpl.
  - split; [|done]. by intros _ rq r Hin%elem_of_nil.
  - destruct (request_matches q rq r') eqn:Hm.
    + split; [done|]. intros H. rewrite (H rq r') in Hm; [done|left].
    + rewrite IH. split.
      * intros H rq0 r0 [[= -> ->]|Hin]%elem_of_cons; [done|by apply H].
      * intros H rq0 r0 Hin. apply H. by right.
Qed.

(** After an accepted [put], the request finds the response put. *)
Lemma query_cache_replace_self (rq : Request) (r : Response) (c : Cache) :
  method rq = "GET" → vary_star r = false →
  query_cache rq (cache_replace rq r c) = Some r.
Proof.
  intros Hget Hvary. unfold cache_replace. rewrite query_cache_app_None.
  - simpl. by rewrite request_matches_refl.
  - apply query_cache_None. by intros rq0 r0 [Hm _]%list_elem_of_filter.
Qed.

(** A [put] leaves what a request for another URL finds. *)
Lemma query_cache_replace_other (q rq : Request) (r : Response) (c : Cache) :
  strip_fragment (href q) ≠ strip_fragment (href rq) →
  query_cache q (cache_replace rq r c) = query_cache q c.
Proof.
  intros Hne.
  assert (∀ rq' r', strip_fragment (href rq') = strip_fragment (href rq) →
                    request_matches q rq' r' = false) as Hno.
  { intros rq' r' Heq. destruct (request_matches q rq' r') eqn:Hm; [|done].
    apply request_matches_url in Hm. congruence. }
  unfold cache_replace. induction c as [|[rq0 r0] c IH].
  - simpl. by rewrite Hno.
  - rewrite filter_cons. simpl. case_decide as Hm.
    + simpl. destruct (request_matches q rq0 r0); [done|apply IH].
    + rewrite IH. apply not_false_is_true in Hm.
      apply request_matches_url in Hm. by rewrite (Hno rq0 r0).
Qed.

Lemma cache_match_replace_self (rq : Request) (r : Response) (c : Cache) :
  method rq = "GET" → vary_star r = false →
  cache_match rq (cache_replace rq r c) = Some r.
Proof.
  intros Hget Hvary. unfold cache_match. rewrite Hget. simpl.
  by apply query_cache_replace_self.
Qed.

Lemma cache_match_replace_other (q rq : Request) (r : Response) (c : Cache) :
  strip_fragment (href q) ≠ strip_fragment (href rq) →
  cache_match q (cache_replace rq r c) = cache_match q c.
Proof.
  intros Hne. unfold cache_match. destruct (String.eqb _ _); [|done].
  by apply query_cache_replace_other.
Qed.

Lemma cache_match_Some (q : Request) (c : Cache) (r : Response) :
  cache_match q c = Some r →
  method q = "GET" ∧ ∃ rq, (rq, r) ∈ c ∧ request_matches q rq r = true.
Proof.
  unfold cache_match. destruct (String.eqb _ _) eqn:Hget; [|done].
  apply String.eqb_eq in Hget. intros H%query_cache_Some. by split.
Qed.

(** What [caches.match] answers is an entry of a cache that the request
    matches. *)
Lemma caches_match_stored (request : Request) (cs : CacheStorage) (r : Response) :
  caches_match request cs = Some r →
  ∃ name c cached, (name, c) ∈ cs ∧ (cached, r) ∈ c ∧
    request_matches request cached r = true.
Proof.
  induction cs as [|[name c] cs IH]; [done|]. simpl.
  destruct (cache_match request c) as [r'|] eqn:Hc.
  - intros [= ->]. apply cache_match_Some in Hc as (_ & cached & Hin & Hm).
    exists name, c, cached. split; [left|done].
  - intros (name' & c' & cached & Hin & Hr)%IH. exists name', c', cached.
    split; [by right|done].
Qed.

Lemma caches_match_None (request : Request) (cs : CacheStorage) :
  caches_match request cs = None ↔ ∀ n c, (n, c) ∈ cs → cache_match request c = None.
Proof.
  induction cs as [|[n c] cs IH]; simpl.
  - split; [|done]. by intros _ n c Hin%elem_of_nil.
  - destruct (cache_match request c) eqn:Hc.
    + split; [done|]. intros H. rewrite (H n c) in Hc; [done|left].
    + rewrite IH. split.
      * intros H n' c' [[= -> ->]|Hin]%elem_of_cons; [done|by eapply H].
      * intros H n' c' Hin. apply (H n'). by right.
Qed.

(** Opening a cache does not change what [caches.match] finds. *)
Lemma caches_match_open (name : string) (request : Request) (cs : CacheStorage) :
  caches_match request (caches_open name cs) = caches_match request cs.
Proof.
  unfold caches_open. case_bool_decide as Hin; [done|]. clear Hin.
  induction cs as [|[n c] cs IH]; simpl.
  - unfold cache_match. by destruct (String.eqb _ _).
  - by rewrite IH.
Qed.

Lemma cache_named_None (name : string) (cs : CacheStorage) :
  cache_named name cs = None ↔ name ∉ caches_keys cs.
Proof.
  induction cs as [|[n c] cs IH]; simpl.
  - split; [intros _; apply not_elem_of_nil|done].
  - case_bool_decide as Hn; simpl in Hn.
    + split; [done|]. intros []. subst. left.
    + rewrite IH. unfold caches_keys. simpl. rewrite not_elem_of_cons.
      split; [by intros ?; split; [intros ->|]|by intros [_ ?]].
Qed.

Lemma cache_named_app_l (name : string) (cs cs' : CacheStorage) (c : Cache) :
  cache_named name cs = Some c → cache_named name (cs ++ cs') = Some c.
Proof.
  induction cs as [|[n c0] cs IH]; [done|]. simpl. by case_bool_decide.
Qed.

Lemma cache_named_app_r (name : string) (cs cs' : CacheStorage) :
  cache_named name cs = None → cache_named name (cs ++ cs') = cache_named name cs'.
Proof.
  induction cs as [|[n c0] cs IH]; [done|]. simpl. by case_bool_decide.
Qed.

(** The cache called [name] after [caches.open(name)]. *)
Lemma cache_named_open (name : string) (cs : CacheStorage) :
  cache_named name (caches_open name cs) = Some (default [] (cache_named name cs)).
Proof.
  unfold caches_open. case_bool_decide as Hin.
  - destruct (cache_named name cs) eqn:Hc; [done|].
    by apply cache_named_None in Hc.
  - apply cache_named_None in Hin as Hc. rewrite cache_named_app_r, Hc by done.
    simpl. by rewrite bool_decide_eq_true_2.
Qed.

Lemma cache_named_open_ne (name name' : string) (cs : CacheStorage) :
  name' ≠ name → cache_named name' (caches_open name cs) = cache_named name' cs.
Proof.
  intros Hne. unfold caches_open. case_bool_decide; [done|].
  destruct (cache_named name' cs) as [c|] eqn:Hc.
  - by apply cache_named_app_l.
  - rewrite cache_named_app_r by done. simpl. by rewrite bool_decide_eq_false_2.
Qed.

(** The cache called [name'] after a [put] on the cache called [name]. *)
Lemma cache_named_put (name name' : string) (request : Request) (r : Response)
    (cs : CacheStorage) :
  cache_named name' (cache_put name request r cs) =
  if put_rejected request r then cache_named name' cs
  else if bool_decide (name' = name)
       then cache_replace request r <$> cache_named name' cs
       else cache_named name' cs.
Proof.
  unfold cache_put. destruct (put_rejected request r); [done|].
  induction cs as [|[n c] cs IH]; simpl.
  - by case_bool_decide.
  - repeat case_bool_decide; simpl in *; subst; try done;
      simpl; repeat case_bool_decide; try done.
Qed.

Lemma cache_put_rejected (name : string) (request : Request) (r : Response)
    (cs : CacheStorage) :
  put_rejected request r = true → cache_put name request r cs = cs.
Proof. unfold cache_put. by intros ->. Qed.

(** After an accepted [put] on the cache [name], opened if need be,
    [caches.match] answers the response put, unless a cache of another name
    has an entry that the request matches. *)
Lemma caches_match_put (name : string) (request : Request) (r : Response)
    (cs : CacheStorage) :
  storable request r →
  only_in name request cs →
  caches_match request (cache_put name request r (caches_open name cs)) = Some r.
Proof.
  intros Hst Hothers. pose proof Hst as (_ & Hget & _ & Hvary).
  apply put_rejected_storable in Hst. unfold cache_put. rewrite Hst.
  assert (Hput : ∀ cs', only_in name request cs' → name ∈ caches_keys cs' →
            caches_match request
              ((fun e : string * Cache =>
                  if bool_decide (e.1 = name) then (e.1, cache_replace request r e.2) else e)
               <$> cs') = Some r).
  { induction cs' as [|[n c] cs' IH]; intros Ho Hin; [by apply elem_of_nil in Hin|].
    simpl. case_bool_decide as Hn; simpl in *.
    - by rewrite cache_match_replace_self.
    - rewrite (Ho n c) by (done || by left).
      apply IH; [intros n' c' Hin'; apply Ho; by right|].
      apply elem_of_cons in Hin as [->|Hin]; done. }
  unfold caches_open. case_bool_decide as Hin; [by apply Hput|].
  apply Hput.
  - intros n c [Hc|Hc%list_elem_of_singleton]%elem_of_app Hn; [by eapply Hothers|].
    by injection Hc as -> ->.
  - unfold caches_keys. rewrite fmap_app. apply elem_of_app. right. simpl.
    apply list_elem_of_singleton. done.
Qed.

Lemma only_in_miss (name : string) (request : Request) (cs : CacheStorage) :
  caches_match request cs = None → only_in name request cs.
Proof. intros Hnone n c Hin _. by eapply caches_match_None. Qed.

Lemma new_Response_with_ok (name value : string) (r : Response) :
  ok r = true → new_Response_with name value r = Some (with_header name value r).
Proof.
  unfold ok, new_Response_with. intros [H1%Z.leb_le H2%Z.leb_le]%andb_true_iff.
  rewrite (proj2 (Z.leb_le _ _) H1). simpl.
  by rewrite (proj2 (Z.leb_le (status r) 599)) by lia.
Qed.

Lemma new_Response_with_range (name value : string) (r : Response) :
  (200 ≤ status r ≤ 599 → new_Response_with name value r = Some (with_header name value r)) ∧
  (¬ 200 ≤ status r ≤ 599 → new_Response_with name value r = None).
Proof.
  unfold new_Response_with.
  destruct (200 <=? status r) eqn:H1; [apply Z.leb_le in H1|apply Z.leb_gt in H1];
    (destruct (status r <=? 599) eqn:H2; [apply Z.leb_le in H2|apply Z.leb_gt in H2]);
    simpl; split; try done; intros; lia.
Qed.

(* ===================================================================== *)
(** ** The router *)
(* ===================================================================== *)

(** The handlers of each file are the common text at the constants of the
    file. *)
Lemma V20_router (fetch : Request → option Response) (iso : string) (request : Request)
    (cs : CacheStorage) :
  V20.handleApiRequest fetch iso request cs = handleApiRequest V20.generation fetch iso request cs ∧
  V20.handleCoreAssetRequest fetch request cs = handleCoreAssetRequest V20.generation fetch request cs ∧
  V20.handleNetworkRequest fetch request cs = handleNetworkRequest V20.generation fetch request cs ∧
  V20.classify request = classify V20.generation request ∧
  V20.on_fetch fetch iso request cs = on_fetch V20.generation fetch iso request cs ∧
  V20.activate_cleanup cs = activate_cleanup V20.generation cs ∧
  V20.createOfflineResponse = createOfflineResponse.
Proof. repeat split. Qed.

Lemma V21_router (fetch : Request → option Response) (iso : string) (request : Request)
    (cs : CacheStorage) :
  V21.handleApiRequest fetch iso request cs = handleApiRequest V21.generation fetch iso request cs ∧
  V21.handleCoreAssetRequest fetch request cs = handleCoreAssetRequest V21.generation fetch request cs ∧
  V21.handleNetworkRequest fetch request cs = handleNetworkRequest V21.generation fetch request cs ∧
  V21.classify request = classify V21.generation request ∧
  V21.on_fetch fetch iso request cs = on_fetch V21.generation fetch iso request cs ∧
  V21.activate_cleanup cs = activate_cleanup V21.generation cs ∧
  V21.createOfflineResponse = createOfflineResponse.
Proof. repeat split. Qed.

Section RouterFacts.
Context (g : Generation) (fetch : Request -> option Response) (iso : string).

Lemma on_fetch_GET (request : Request) (cs : CacheStorage) :
  method request = "GET" →
  on_fetch g fetch iso request cs =
  Some (match classify g request with
        | ApiClass => handleApiRequest g fetch iso request cs
        | CoreAssetClass => handleCoreAssetRequest g fetch request cs
        | DefaultClass => handleNetworkRequest g fetch request cs
        end).
Proof. unfold on_fetch. intros ->. simpl. by destruct (classify g request). Qed.

Lemma handleApiRequest_live (request : Request) (cs : CacheStorage) (live : Response) :
  fetch request = Some live → ok live = true →
  handleApiRequest g fetch iso request cs =
  (live, cache_put (api_cache g) request (with_header "sw-cached-at" iso live)
           (caches_open (api_cache g) cs)).
Proof.
  unfold handleApiRequest. intros -> Hok. rewrite Hok.
  by rewrite new_Response_with_ok.
Qed.

Lemma handleApiRequest_fallback (request : Request) (cs : CacheStorage) :
  fetch_fails fetch request →
  handleApiRequest g fetch iso request cs =
  match caches_match request cs with
  | Some cachedResponse =>
      match new_Response_with "sw-from-cache" "true" cachedResponse with
      | Some response => (response, cs)
      | None => (network_error, cs)
      end
  | None => (createOfflineResponse, cs)
  end.
Proof. unfold handleApiRequest. by intros [-> | (live & -> & ->)]. Qed.

Lemma handleCoreAssetRequest_miss (request : Request) (cs : CacheStorage) :
  caches_match request cs = None →
  handleCoreAssetRequest g fetch request cs =
  match fetch request with
  | Some networkResponse =>
      if ok networkResponse
      then (networkResponse,
            cache_put (cache_name g) request networkResponse (caches_open (cache_name g) cs))
      else (createOfflineResponse, cs)
  | None => (createOfflineResponse, cs)
  end.
Proof. unfold handleCoreAssetRequest. by intros ->. Qed.

Lemma handleNetworkRequest_live (request : Request) (cs : CacheStorage) (live : Response) :
  fetch request = Some live → ok live = true →
  handleNetworkRequest g fetch request cs =
  (live, cache_put (offline_cache g) request live (caches_open (offline_cache g) cs)).
Proof. unfold handleNetworkRequest. by intros -> ->. Qed.

Lemma handleNetworkRequest_fallback (request : Request) (cs : CacheStorage) :
  fetch_fails fetch request →
  handleNetworkRequest g fetch request cs =
  match caches_match request cs with
  | Some cachedResponse => (cachedResponse, cs)
  | None => (createOfflineResponse, cs)
  end.
Proof. unfold handleNetworkRequest. by intros [-> | (live & -> & ->)]. Qed.

(** With the live fetch failed and no entry that the request matches, every
    class answers with the offline response. *)
Lemma on_fetch_offline (request : Request) (cs : CacheStorage) :
  method request = "GET" →
  fetch_fails fetch request →
  caches_match request cs = None →
  on_fetch g fetch iso request cs = Some (createOfflineResponse, cs).
Proof.
  intros Hget Hfail Hnone. rewrite on_fetch_GET by done. f_equal.
  destruct (classify g request).
  - by rewrite handleApiRequest_fallback, Hnone.
  - rewrite handleCoreAssetRequest_miss by done.
    by destruct Hfail as [-> | (live & -> & ->)].
  - by rewrite handleNetworkRequest_fallback, Hnone.
Qed.

(** The network-first handler of the API class. *)
Lemma handleApiRequest_network_first (request : Request) (cs : CacheStorage) :
  (∀ live, fetch request = Some live → ok live = true →
     (handleApiRequest g fetch iso request cs).1 = live ∧
     headers_get "sw-cached-at" (headers (with_header "sw-cached-at" iso live)) = Some iso ∧
     status (with_header "sw-cached-at" iso live) = status live ∧
     body (with_header "sw-cached-at" iso live) = body live ∧
     (storable request live →
        cache_named (api_cache g) (handleApiRequest g fetch iso request cs).2
          = Some (cache_replace request (with_header "sw-cached-at" iso live)
                    (default [] (cache_named (api_cache g) cs))) ∧
        stored_in (api_cache g) request (handleApiRequest g fetch iso request cs).2
          = Some (with_header "sw-cached-at" iso live)) ∧
     (¬ storable request live →
        (handleApiRequest g fetch iso request cs).2 = caches_open (api_cache g) cs)) ∧
  (fetch_fails fetch request →
     (∀ stored, caches_match request cs = Some stored →
        (∃ name c cached, (name, c) ∈ cs ∧ (cached, stored) ∈ c ∧
           request_matches request cached stored = true) ∧
        (200 ≤ status stored ≤ 599 →
           handleApiRequest g fetch iso request cs
             = (with_header "sw-from-cache" "true" stored, cs) ∧
           headers_get "sw-from-cache" (headers (with_header "sw-from-cache" "true" stored))
             = Some "true" ∧
           status (with_header "sw-from-cache" "true" stored) = status stored ∧
           body (with_header "sw-from-cache" "true" stored) = body stored) ∧
        (¬ 200 ≤ status stored ≤ 599 →
           handleApiRequest g fetch iso request cs = (network_error, cs))) ∧
     (caches_match request cs = None →
        handleApiRequest g fetch iso request cs = (createOfflineResponse, cs) ∧
        status createOfflineResponse = 503)).
Proof.
  split.
  - intros live Hlive Hok. rewrite (handleApiRequest_live request cs live Hlive Hok). simpl.
    split; [done|]. split; [apply lookup_insert_eq|]. split; [done|]. split; [done|].
    split.
    + intros Hst.
      assert (put_rejected request (with_header "sw-cached-at" iso live) = false) as Hput.
      { apply put_rejected_storable, storable_with_header; done. }
      unfold stored_in. rewrite cache_named_put, Hput, bool_decide_eq_true_2 by done.
      rewrite cache_named_open. simpl. split; [done|].
      destruct Hst as (_ & Hget & _ & Hvary).
      apply cache_match_replace_self; [done|]. by rewrite vary_star_with_header.
    + intros Hst. apply cache_put_rejected, put_rejected_not_storable.
      by rewrite storable_with_header.
  - intros Hfail. rewrite handleApiRequest_fallback by done. split.
    + intros stored Hs. rewrite Hs. split; [by apply caches_match_stored|].
      destruct (new_Response_with_range "sw-from-cache" "true" stored) as [Hin Hout].
      split.
      * intros Hr. rewrite (Hin Hr). split; [done|]. split; [apply lookup_insert_eq|done].
      * intros Hr. by rewrite (Hout Hr).
    + by intros ->.
Qed.
End RouterFacts.

(** C1 (as amended). In the worker with notification support, a GET request
    whose path starts with [/v1/] is answered network first. When the fetch
    resolves with an [ok] response, that response is returned; the copy
    made of it has the [sw-cached-at] header set to the time stamp just
    taken, and the status and body of the live response. When the Cache API
    accepts the copy (a request over http(s), a status other than 206, no
    [Vary: *]), the API cache, opened if need be, receives it in place of
    the entries that the request matches, and answers the request with it;
    when it does not, the API cache is opened and nothing is stored. When
    the fetch fails (it rejects, or its response is not [ok]), the stored
    response that [caches.match] finds, an entry of some cache that the
    request matches, is returned with the header [sw-from-cache] set to
    [true] and its status and body unchanged, the caches being left as they
    were (a stored response with a status outside 200..599 cannot be
    rebuilt: the page gets a network error); when there is none, the
    offline response of status 503 is returned. *)
Theorem api_network_first (fetch : Request → option Response) (iso : string)
    (request : Request) (cs : CacheStorage) :
  method request = "GET" →
  String.prefix "/v1/" (pathname request) = true →
  V21.on_fetch fetch iso request cs = Some (V21.handleApiRequest fetch iso request cs) ∧
  (∀ live, fetch request = Some live → ok live = true →
     (V21.handleApiRequest fetch iso request cs).1 = live ∧
     headers_get "sw-cached-at" (headers (with_header "sw-cached-at" iso live)) = Some iso ∧
     status (with_header "sw-cached-at" iso live) = status live ∧
     body (with_header "sw-cached-at" iso live) = body live ∧
     (storable request live →
        cache_named V21.API_CACHE (V21.handleApiRequest fetch iso request cs).2
          = Some (cache_replace request (with_header "sw-cached-at" iso live)
                    (default [] (cache_named V21.API_CACHE cs))) ∧
        stored_in V21.API_CACHE request (V21.handleApiRequest fetch iso request cs).2
          = Some (with_header "sw-cached-at" iso live)) ∧
     (¬ storable request live →
        (V21.handleApiRequest fetch iso request cs).2 = caches_open V21.API_CACHE cs)) ∧
  (fetch_fails fetch request →
     (∀ stored, caches_match request cs = Some stored →
        (∃ name c cached, (name, c) ∈ cs ∧ (cached, stored) ∈ c ∧
           request_matches request cached stored = true) ∧
        (200 ≤ status stored ≤ 599 →
           V21.handleApiRequest fetch iso request cs
             = (with_header "sw-from-cache" "true" stored, cs) ∧
           headers_get "sw-from-cache" (headers (with_header "sw-from-cache" "true" stored))
             = Some "true" ∧
           status (with_header "sw-from-cache" "true" stored) = status stored ∧
           body (with_header "sw-from-cache" "true" stored) = body stored) ∧
        (¬ 200 ≤ status stored ≤ 599 →
           V21.handleApiRequest fetch iso request cs = (network_error, cs))) ∧
     (caches_match request cs = None →
        V21.handleApiRequest fetch iso request cs = (V21.createOfflineResponse, cs) ∧
        status V21.createOfflineResponse = 503)).
Proof.
  intros Hget Hpre. split.
  - destruct (V21_router fetch iso request cs) as (_ & _ & _ & _ & -> & _).
    rewrite on_fetch_GET by done. unfold classify. by rewrite Hpre.
  - exact (handleApiRequest_network_first V21.generation fetch iso request cs).
Qed.

(** The index request on the caches of an upgraded origin, off line and on
    line. *)
Lemma api_network_first_witness :
  V21.on_fetch Sample.offline Sample.iso Sample.api_request Sample.upgraded
  = Some (V21.handleApiRequest Sample.offline Sample.iso
            Sample.api_request Sample.upgraded) ∧
  V21.handleApiRequest Sample.offline Sample.iso Sample.api_request Sample.upgraded
  = (with_header "sw-from-cache" "true" Sample.live, Sample.upgraded) ∧
  stored_in V21.API_CACHE Sample.api_request
    (V21.handleApiRequest Sample.online Sample.iso Sample.api_request Sample.upgraded).2
  = Some (with_header "sw-cached-at" Sample.iso Sample.live).
Proof.
  pose proof (api_network_first Sample.offline Sample.iso
                Sample.api_request Sample.upgraded eq_refl eq_refl) as (Hroute & _ & Hfail).
  pose proof (api_network_first Sample.online Sample.iso
                Sample.api_request Sample.upgraded eq_refl eq_refl) as (_ & Hlive & _).
  split; [exact Hroute|]. split.
  - destruct Hfail as [Hstored _]; [by left|].
    destruct (Hstored Sample.live eq_refl) as (_ & H & _).
    destruct H as [H _]; [simpl; lia|]. exact H.
  - destruct (Hlive Sample.live eq_refl eq_refl) as (_ & _ & _ & _ & H & _).
    destruct H as [_ H]; [repeat split; discriminate|]. exact H.
Defined.

(** C1 as stated fails in two ways. A live response of status 206 is [ok]
    and is returned, but the Cache API rejects its copy: the API cache is
    left empty, and a later failed fetch of the same request gets the
    offline response. And the copy returned when the fetch fails need not
    have been stored for that exact request: a copy stored for the URL with
    another fragment is served. *)
Lemma api_network_first_counterexample :
  let partial := {| status := 206; statusText := "Partial Content";
                    headers := ∅; body := "[" |} in
  let ranged (request : Request) := Some partial in
  let later := {| method := "GET";
                  href := "https://api.azantimes.in/v1/timesheets/index.json#today";
                  pathname := "/v1/timesheets/index.json";
                  req_headers := ∅ |} in
  ok partial = true ∧
  V21.on_fetch ranged Sample.iso Sample.api_request []
    = Some (partial, [(V21.API_CACHE, [])]) ∧
  V21.on_fetch Sample.offline Sample.iso Sample.api_request [(V21.API_CACHE, [])]
    = Some (V21.createOfflineResponse, [(V21.API_CACHE, [])]) ∧
  later ≠ Sample.api_request ∧
  V21.on_fetch Sample.offline Sample.iso later
    [(V21.API_CACHE, [(Sample.api_request, Sample.live)])]
    = Some (with_header "sw-from-cache" "true" Sample.live,
            [(V21.API_CACHE, [(Sample.api_request, Sample.live)])]).
Proof. repeat split; vm_compute; (reflexivity || discriminate). Qed.

(** C6. Whenever the live fetch fails and no cache has an entry that the
    request matches, the listener of either file answers a GET request,
    whatever its class, with the offline response of the file and leaves the
    caches alone. In both files that response has status 503, the header
    [sw-offline] set to [true], the content type [application/json] and as
    body the JSON text of the object with [error] [Offline], the message
    and [cached] true. *)
Theorem offline_response (fetch : Request → option Response) (iso : string)
    (request : Request) (cs : CacheStorage) :
  method request = "GET" →
  fetch_fails fetch request →
  caches_match request cs = None →
  V21.on_fetch fetch iso request cs = Some (V21.createOfflineResponse, cs) ∧
  V20.on_fetch fetch iso request cs = Some (V20.createOfflineResponse, cs) ∧
  ∀ response, response ∈ [V20.createOfflineResponse; V21.createOfflineResponse] →
    status response = 503 ∧
    statusText response = "Service Unavailable" ∧
    headers_get "sw-offline" (headers response) = Some "true" ∧
    headers_get "Content-Type" (headers response) = Some "application/json" ∧
    body response =
      dq "{'error':'Offline','message':'You are currently offline. Please check your internet connection.','cached':true}".
Proof.
  intros Hget Hfail Hnone. split; [|split].
  - destruct (V21_router fetch iso request cs) as (_ & _ & _ & _ & -> & _).
    by apply on_fetch_offline.
  - destruct (V20_router fetch iso request cs) as (_ & _ & _ & _ & -> & _).
    by apply on_fetch_offline.
  - intros response Hin.
    repeat (apply elem_of_cons in Hin as [->|Hin]; [by vm_compute|]).
    by apply elem_of_nil in Hin.
Qed.

(** One request of each class, off line with no cache. *)
Lemma offline_response_witness :
  V21.on_fetch Sample.offline Sample.iso Sample.page_request []
    = Some (V21.createOfflineResponse, []) ∧
  V20.on_fetch Sample.offline Sample.iso Sample.icon_request []
    = Some (V20.createOfflineResponse, []) ∧
  V21.on_fetch Sample.offline Sample.iso Sample.api_request []
    = Some (V21.createOfflineResponse, []).
Proof.
  split; [|split].
  - apply (offline_response Sample.offline Sample.iso Sample.page_request []);
      [reflexivity|by left|reflexivity].
  - apply (offline_response Sample.offline Sample.iso Sample.icon_request []);
      [reflexivity|by left|reflexivity].
  - apply (offline_response Sample.offline Sample.iso Sample.api_request []);
      [reflexivity|by left|reflexivity].
Defined.

Example sample_classes :
  V21.classify Sample.api_request = ApiClass ∧
  V21.classify Sample.icon_request = CoreAssetClass ∧
  V21.classify Sample.page_request = DefaultClass.
Proof. repeat split. Qed.

(* ===================================================================== *)
(** ** Activation *)
(* ===================================================================== *)

Lemma filter_ext_elem {A} (P Q : A → Prop) `{!∀ x, Decision (P x), !∀ x, Decision (Q x)}
    (l : list A) :
  (∀ x, x ∈ l → (P x ↔ Q x)) → filter P l = filter Q l.
Proof.
  induction l as [|a l IH]; intros Hext; [done|].
  assert (filter P l = filter Q l) as Hl by (apply IH; intros x Hx; apply Hext; by right).
  destruct (decide (P a)) as [HP|HP].
  - rewrite !filter_cons_True; [by rewrite Hl|by apply (Hext a); [left|] |done].
  - rewrite !filter_cons_False; [done| |done]. intros HQ. apply HP, (Hext a); [left|done].
Qed.

Section Activation.
Context (g : Generation).

Lemma is_current_names (name : string) :
  is_current g name = true ↔ name ∈ [cache_name g; api_cache g; offline_cache g].
Proof.
  unfold is_current. rewrite negb_true_iff, !andb_false_iff, !bool_decide_eq_false.
  rewrite !elem_of_cons, elem_of_nil.
  destruct (decide (name = cache_name g)), (decide (name = api_cache g)),
    (decide (name = offline_cache g)); tauto.
Qed.

(** Deleting the stale names among [names] keeps the caches that are not
    both listed and stale. *)
Lemma cleanup_fold (names : list string) (cs : CacheStorage) :
  foldl (fun cs cacheName =>
           if bool_decide (cacheName ≠ cache_name g) && bool_decide (cacheName ≠ api_cache g)
              && bool_decide (cacheName ≠ offline_cache g)
           then caches_delete cacheName cs
           else cs) cs names
  = filter (fun e => ¬ (e.1 ∈ names ∧ is_current g e.1 = false)) cs.
Proof.
  revert cs. induction names as [|n names IH]; intros cs.
  - simpl. induction cs as [|e cs IHcs]; [done|].
    rewrite filter_cons_True; [by rewrite <- IHcs|]. intros [[]%elem_of_nil _].
  - simpl. rewrite IH.
    destruct (is_current g n) eqn:Hn; unfold is_current in Hn;
      [apply negb_true_iff in Hn|apply negb_false_iff in Hn]; rewrite Hn.
    + apply list_filter_iff. intros e. rewrite elem_of_cons. split.
      * intros H [[Hin|Hin] Hst]; [|by apply H].
        rewrite Hin in Hst. unfold is_current in Hst. by rewrite Hn in Hst.
      * intros H [Hin Hst]. apply H. split; [by right|done].
    + unfold caches_delete. rewrite list_filter_filter.
      apply list_filter_iff. intros e. rewrite elem_of_cons. split.
      * intros [H Hne] [[Heq|Hin] Hst]; [by destruct Hne|]. by apply H.
      * intros H. split.
        -- intros [Hin Hst]. apply H. split; [by right|done].
        -- intros Heq. apply H. split; [by left|].
           rewrite Heq. unfold is_current. by rewrite Hn.
Qed.

(** The clean-up keeps exactly the caches with a current name, in order
    and with their content. *)
Lemma activate_cleanup_filter (cs : CacheStorage) :
  activate_cleanup g cs = filter (fun e => is_current g e.1 = true) cs.
Proof.
  unfold activate_cleanup. rewrite cleanup_fold.
  apply filter_ext_elem. intros e He.
  assert (e.1 ∈ caches_keys cs) as Hk by (apply list_elem_of_fmap; by exists e).
  destruct (is_current g e.1); split; try done.
  - intros _ [_ H]. discriminate H.
  - intros H. by destruct H.
Qed.

Lemma cache_named_filter_current (name : string) (cs : CacheStorage) :
  is_current g name = true →
  cache_named name (filter (fun e => is_current g e.1 = true) cs) = cache_named name cs.
Proof.
  intros Hc. induction cs as [|[n c] cs IH]; [done|].
  rewrite filter_cons. case_decide as Hn; simpl in *.
  - by rewrite IH.
  - rewrite IH. case_bool_decide; [|done]. by subst.
Qed.

(** C5 (as amended). The clean-up of the [activate] listener is idempotent:
    a second run changes nothing. It deletes no cache named with one of the
    three current names, keeping the content, and after two runs the caches
    that exist are those of the starting set that bear a current name. (It
    creates none: a current cache that did not exist before does not exist
    after.) *)
Theorem activate_cleanup_idempotent (cs : CacheStorage) :
  activate_cleanup g (activate_cleanup g cs) = activate_cleanup g cs ∧
  (∀ name, name ∈ [cache_name g; api_cache g; offline_cache g] →
     cache_named name (activate_cleanup g (activate_cleanup g cs)) = cache_named name cs) ∧
  (∀ name, name ∈ caches_keys (activate_cleanup g (activate_cleanup g cs)) ↔
           name ∈ caches_keys cs ∧ name ∈ [cache_name g; api_cache g; offline_cache g]).
Proof.
  assert (activate_cleanup g (activate_cleanup g cs) = activate_cleanup g cs) as Hidem.
  { rewrite !activate_cleanup_filter. by apply list_filter_filter_l. }
  split; [done|]. rewrite Hidem, activate_cleanup_filter. split.
  - intros name Hn%is_current_names. by apply cache_named_filter_current.
  - intros name. unfold caches_keys. rewrite !list_elem_of_fmap. split.
    + intros ([n c] & -> & [Hc Hin]%list_elem_of_filter). split.
      * by exists (n, c).
      * by apply is_current_names.
    + intros [([n c] & -> & Hin) Hc%is_current_names].
      exists (n, c). split; [done|]. by apply list_elem_of_filter.
Qed.
End Activation.

(** The API cache of v2.1.0 survives two clean-ups of an upgraded origin. *)
Lemma activate_cleanup_idempotent_witness :
  cache_named V21.API_CACHE
    (activate_cleanup V21.generation (activate_cleanup V21.generation Sample.upgraded))
  = cache_named V21.API_CACHE Sample.upgraded.
Proof.
  apply (proj1 (proj2 (activate_cleanup_idempotent V21.generation Sample.upgraded))).
  apply list_elem_of_In. simpl. right. by left.
Defined.

(** C5 as stated fails on the caches of an origin upgraded from v2.0.0,
    where the offline cache of v2.1.0 has not been opened yet: after two
    runs of the clean-up only two of the three current caches exist. *)
Lemma activate_cleanup_counterexample :
  caches_keys (V21.activate_cleanup (V21.activate_cleanup Sample.upgraded))
    = [V21.CACHE_NAME; V21.API_CACHE] ∧
  (V21.OFFLINE_CACHE ∉ caches_keys (V21.activate_cleanup (V21.activate_cleanup Sample.upgraded))) ∧
  caches_keys (V21.activate_cleanup (V21.activate_cleanup [])) = [].
Proof.
  split; [reflexivity|]. split; [|reflexivity].
  intros H. apply list_elem_of_In in H. vm_compute in H. intuition discriminate.
Qed.

(* ===================================================================== *)
(** ** The two generations *)
(* ===================================================================== *)

Lemma generation_swap_involutive (name : string) :
  generation_swap (generation_swap name) = name.
Proof.
  destruct (decide (name = V20.CACHE_NAME)) as [->|H1]; [reflexivity|].
  destruct (decide (name = V20.API_CACHE)) as [->|H2]; [reflexivity|].
  destruct (decide (name = V20.OFFLINE_CACHE)) as [->|H3]; [reflexivity|].
  destruct (decide (name = V21.CACHE_NAME)) as [->|H4]; [reflexivity|].
  destruct (decide (name = V21.API_CACHE)) as [->|H5]; [reflexivity|].
  destruct (decide (name = V21.OFFLINE_CACHE)) as [->|H6]; [reflexivity|].
  unfold generation_swap.
  repeat (rewrite (bool_decide_eq_false_2 (name = _)) by done). reflexivity.
Qed.

Lemma generation_swap_inj (a b : string) :
  generation_swap a = generation_swap b → a = b.
Proof.
  intros H. by rewrite <- (generation_swap_involutive a), H, generation_swap_involutive.
Qed.

Lemma rename_caches_involutive (cs : CacheStorage) :
  rename_caches generation_swap (rename_caches generation_swap cs) = cs.
Proof.
  unfold rename_caches. rewrite <- list_fmap_compose.
  rewrite <- (list_fmap_id cs) at 2. apply list_fmap_ext.
  intros i [n c] _. simpl. by rewrite generation_swap_involutive.
Qed.

Section Renaming.
Context (f : string → string) (f_inj : ∀ a b, f a = f b → a = b).

Lemma caches_match_rename (request : Request) (cs : CacheStorage) :
  caches_match request (rename_caches f cs) = caches_match request cs.
Proof.
  induction cs as [|[n c] cs IH]; [done|]. simpl. by rewrite IH.
Qed.

Lemma caches_open_rename (name : string) (cs : CacheStorage) :
  caches_open (f name) (rename_caches f cs) = rename_caches f (caches_open name cs).
Proof.
  unfold caches_open.
  assert (f name ∈ caches_keys (rename_caches f cs) ↔ name ∈ caches_keys cs) as Hin.
  { unfold caches_keys, rename_caches. rewrite <- list_fmap_compose.
    rewrite !list_elem_of_fmap. split.
    - intros ([n c] & Heq & Hin). simpl in Heq. apply f_inj in Heq as ->. by exists (n, c).
    - intros ([n c] & -> & Hin). by exists (n, c). }
  rewrite (bool_decide_ext _ _ Hin). case_bool_decide; [done|].
  unfold rename_caches. by rewrite fmap_app.
Qed.

Lemma cache_put_rename (name : string) (request : Request) (r : Response)
    (cs : CacheStorage) :
  cache_put (f name) request r (rename_caches f cs)
  = rename_caches f (cache_put name request r cs).
Proof.
  unfold cache_put. destruct (put_rejected request r); [done|].
  unfold rename_caches. rewrite <- !list_fmap_compose.
  apply list_fmap_ext. intros i [n c] _. simpl.
  repeat case_bool_decide; simplify_eq/=; try done.
  by destruct H0; apply f_inj.
Qed.

Context (g1 g2 : Generation).
Context (f_cache : f (cache_name g1) = cache_name g2)
        (f_api : f (api_cache g1) = api_cache g2)
        (f_offline : f (offline_cache g1) = offline_cache g2)
        (same_assets : core_assets g1 = core_assets g2).
Context (fetch : Request → option Response) (iso : string).

Lemma classify_rename (request : Request) :
  classify g2 request = classify g1 request.
Proof. unfold classify. by rewrite same_assets. Qed.

(** The listener of [g2] on the renamed caches answers as the listener of
    [g1] does, and leaves the renamed caches of [g1]. *)
Lemma on_fetch_rename (request : Request) (cs : CacheStorage) :
  on_fetch g2 fetch iso request (rename_caches f cs) =
  prod_map id (rename_caches f) <$> on_fetch g1 fetch iso request cs.
Proof.
  unfold on_fetch. destruct (negb _); [done|].
  rewrite classify_rename. destruct (classify g1 request); simpl; f_equal.
  - unfold handleApiRequest. rewrite <- f_api.
    destruct (fetch request) as [live|]; [destruct (ok live)|].
    + destruct (new_Response_with "sw-cached-at" iso live) as [modified|];
        rewrite ?caches_open_rename, ?cache_put_rename, ?caches_match_rename; [done|].
      destruct (caches_match _ _) as [cached|]; [|done].
      by destruct (new_Response_with _ _ cached).
    + rewrite caches_match_rename.
      destruct (caches_match _ _) as [cached|]; [|done].
      by destruct (new_Response_with _ _ cached).
    + rewrite caches_match_rename.
      destruct (caches_match _ _) as [cached|]; [|done].
      by destruct (new_Response_with _ _ cached).
  - unfold handleCoreAssetRequest. rewrite caches_match_rename, <- f_cache.
    destruct (caches_match _ _); [done|].
    destruct (fetch request) as [live|]; [|done]. destruct (ok live); [|done].
    simpl. by rewrite caches_open_rename, cache_put_rename.
  - unfold handleNetworkRequest. rewrite caches_match_rename, <- f_offline.
    destruct (fetch request) as [live|]; [destruct (ok live)|].
    + simpl. by rewrite caches_open_rename, cache_put_rename.
    + by destruct (caches_match _ _).
    + by destruct (caches_match _ _).
Qed.

(** On the same caches the two listeners give the same response. *)
Lemma on_fetch_response (request : Request) (cs : CacheStorage) :
  fst <$> on_fetch g2 fetch iso request cs = fst <$> on_fetch g1 fetch iso request cs.
Proof.
  unfold on_fetch. destruct (negb _); [done|].
  rewrite classify_rename. destruct (classify g1 request); simpl; f_equal.
  - unfold handleApiRequest.
    destruct (fetch request) as [live|]; [destruct (ok live)|].
    + destruct (new_Response_with "sw-cached-at" iso live); [done|].
      rewrite !caches_match_open.
      destruct (caches_match _ _) as [cached|]; [|done].
      by destruct (new_Response_with _ _ cached).
    + destruct (caches_match _ _) as [cached|]; [|done].
      by destruct (new_Response_with _ _ cached).
    + destruct (caches_match _ _) as [cached|]; [|done].
      by destruct (new_Response_with _ _ cached).
  - unfold handleCoreAssetRequest.
    destruct (caches_match _ _); [done|].
    destruct (fetch request) as [live|]; [|done]. by destruct (ok live).
  - unfold handleNetworkRequest.
    destruct (fetch request) as [live|]; [destruct (ok live); [done|]|];
      by destruct (caches_match _ _).
Qed.
End Renaming.

(** C10. The routing of the two service workers, each embedded from its
    own file, is the same up to the renaming of the cache generation. The
    two [fetch] listeners put every request in the same class; on the same
    caches they return the same response; the listener of v2.1.0, run on the
    caches renamed from v2.0.0 to v2.1.0, returns the response of the
    listener of v2.0.0 and leaves the renamed caches that the latter leaves
    (and conversely); the offline response and the list of core assets of
    the two files are the same; and the class is the API class exactly for
    a path that starts with [/v1/], the core-asset class exactly for another
    path such that the path or the URL contains one of the core assets. *)
Theorem generations_route_alike (fetch : Request → option Response) (iso : string)
    (request : Request) (cs : CacheStorage) :
  V21.classify request = V20.classify request ∧
  fst <$> V21.on_fetch fetch iso request cs = fst <$> V20.on_fetch fetch iso request cs ∧
  V21.on_fetch fetch iso request (rename_caches generation_swap cs)
    = prod_map id (rename_caches generation_swap) <$> V20.on_fetch fetch iso request cs ∧
  V20.on_fetch fetch iso request (rename_caches generation_swap cs)
    = prod_map id (rename_caches generation_swap) <$> V21.on_fetch fetch iso request cs ∧
  V21.createOfflineResponse = V20.createOfflineResponse ∧
  V21.CORE_ASSETS = V20.CORE_ASSETS ∧
  (V20.classify request = ApiClass ↔ String.prefix "/v1/" (pathname request) = true) ∧
  (V20.classify request = CoreAssetClass ↔
     String.prefix "/v1/" (pathname request) = false ∧
     ∃ asset, asset ∈ V20.CORE_ASSETS ∧
       (includes asset (pathname request) = true ∨ includes asset (href request) = true)) ∧
  rename_caches generation_swap (rename_caches generation_swap cs) = cs.
Proof.
  assert (Hclass :
    (V20.classify request = ApiClass ↔ String.prefix "/v1/" (pathname request) = true) ∧
    (V20.classify request = CoreAssetClass ↔
       String.prefix "/v1/" (pathname request) = false ∧
       ∃ asset, asset ∈ V20.CORE_ASSETS ∧
         (includes asset (pathname request) = true ∨ includes asset (href request) = true))).
  { unfold V20.classify. destruct (String.prefix "/v1/" (pathname request)).
    - split; [done|]. split; [done|]. by intros [? _].
    - destruct (existsb _ V20.CORE_ASSETS) eqn:Hex.
      + split; [done|]. split; [|done]. intros _. split; [done|].
        apply existsb_exists in Hex as (asset & Hin%list_elem_of_In & Hor%orb_true_iff).
        by exists asset.
      + split; [done|]. split; [done|]. intros (_ & asset & Hin%list_elem_of_In & Hor).
        assert (existsb (fun asset => includes asset (pathname request)
                                      || includes asset (href request)) V20.CORE_ASSETS
                = true) as Hex'; [|congruence].
        apply existsb_exists. exists asset. split; [done|]. by apply orb_true_iff. }
  change (V21.classify request) with (classify V21.generation request).
  change (V20.classify request) with (classify V20.generation request).
  change (V21.on_fetch fetch iso request) with (on_fetch V21.generation fetch iso request).
  change (V20.on_fetch fetch iso request) with (on_fetch V20.generation fetch iso request).
  split; [by apply classify_rename|].
  split; [by apply on_fetch_response|].
  split; [by apply on_fetch_rename; [apply generation_swap_inj|..]|].
  split; [by apply on_fetch_rename; [apply generation_swap_inj|..]|].
  split; [done|]. split; [done|].
  split; [apply Hclass|]. split; [apply Hclass|].
  apply rename_caches_involutive.
Qed.

Example sample_api_fetch_both :
  V20.on_fetch Sample.online Sample.iso Sample.api_request []
    = Some (Sample.live,
            [(V20.API_CACHE,
              [(Sample.api_request, with_header "sw-cached-at" Sample.iso Sample.live)])]) ∧
  V21.on_fetch Sample.online Sample.iso Sample.api_request []
    = Some (Sample.live,
            [(V21.API_CACHE,
              [(Sample.api_request, with_header "sw-cached-at" Sample.iso Sample.live)])]).
Proof. split; reflexivity. Qed.
(* ===================================================================== *)
(** ** More on the router *)
(* ===================================================================== *)

Lemma caches_match_open_miss (name : string) (request : Request) (cs : CacheStorage) :
  caches_match request cs = None → caches_match request (caches_open name cs) = None.
Proof. intros Hnone. by rewrite caches_match_open. Qed.

(** X1. Core assets are served cache first. When some cache has an entry
    that the request matches, the stored response is returned and the caches
    are left alone, whatever the network would answer. When none has and the
    fetch resolves with an [ok] response, that response is returned; if the
    Cache API accepts it, it is stored, so that the same request is answered
    with it from then on, whatever the network does; if not (a response of
    status 206, say), the core cache is opened, nothing is stored and the
    request still finds nothing in the caches. *)
Theorem core_asset_cache_first (g : Generation) (fetch fetch' : Request → option Response)
    (request : Request) (cs : CacheStorage) :
  (∀ stored, caches_match request cs = Some stored →
     handleCoreAssetRequest g fetch request cs = (stored, cs)) ∧
  (∀ live, caches_match request cs = None →
     fetch request = Some live → ok live = true →
     (handleCoreAssetRequest g fetch request cs).1 = live ∧
     (storable request live →
        handleCoreAssetRequest g fetch' request (handleCoreAssetRequest g fetch request cs).2
        = (live, (handleCoreAssetRequest g fetch request cs).2)) ∧
     (¬ storable request live →
        (handleCoreAssetRequest g fetch request cs).2 = caches_open (cache_name g) cs ∧
        caches_match request (handleCoreAssetRequest g fetch request cs).2 = None)).
Proof.
  split.
  - unfold handleCoreAssetRequest. by intros stored ->.
  - intros live Hmiss Hlive Hok.
    rewrite (handleCoreAssetRequest_miss g fetch request cs Hmiss), Hlive, Hok. simpl.
    split; [done|]. split.
    + intros Hst. unfold handleCoreAssetRequest.
      rewrite caches_match_put; [done|done|]. by apply only_in_miss.
    + intros Hst. rewrite cache_put_rejected by (by apply put_rejected_not_storable).
      split; [done|]. by apply caches_match_open_miss.
Qed.

(** A cold cache, a first request on line and a second one off line. *)
Lemma core_asset_cache_first_witness :
  (handleCoreAssetRequest V21.generation Sample.online Sample.icon_request []).1 = Sample.live ∧
  handleCoreAssetRequest V21.generation Sample.offline Sample.icon_request
    (handleCoreAssetRequest V21.generation Sample.online Sample.icon_request []).2
  = (Sample.live, (handleCoreAssetRequest V21.generation Sample.online Sample.icon_request []).2).
Proof.
  destruct (proj2 (core_asset_cache_first V21.generation Sample.online Sample.offline
                     Sample.icon_request []) Sample.live eq_refl eq_refl eq_refl)
    as (H1 & H2 & _).
  split; [exact H1|]. apply H2. repeat split; discriminate.
Defined.

(** X2. The default class is network first with a silent fall-back. When
    the fetch resolves with an [ok] response, that response is returned. If
    the Cache API accepts it, it is stored in the offline cache and returned
    unchanged, with no marker header, by a later fetch of the same request
    that fails, when no cache other than the offline cache has an entry that
    the request matches. If not, nothing is stored, and the later failed
    fetch is answered as it would have been before. *)
Theorem default_round_trip (g : Generation) (fetch fetch' : Request → option Response)
    (request : Request) (cs : CacheStorage) (live : Response) :
  fetch request = Some live → ok live = true →
  fetch_fails fetch' request →
  only_in (offline_cache g) request cs →
  (handleNetworkRequest g fetch request cs).1 = live ∧
  (storable request live →
     stored_in (offline_cache g) request (handleNetworkRequest g fetch request cs).2
       = Some live ∧
     handleNetworkRequest g fetch' request (handleNetworkRequest g fetch request cs).2
     = (live, (handleNetworkRequest g fetch request cs).2)) ∧
  (¬ storable request live →
     (handleNetworkRequest g fetch request cs).2 = caches_open (offline_cache g) cs ∧
     (handleNetworkRequest g fetch' request (handleNetworkRequest g fetch request cs).2).1
     = (handleNetworkRequest g fetch' request cs).1).
Proof.
  intros Hlive Hok Hfail Honly.
  rewrite (handleNetworkRequest_live g fetch request cs live Hlive Hok). simpl.
  split; [done|]. split.
  - intros Hst. pose proof Hst as (_ & Hget & _ & Hvary). split.
    + unfold stored_in. rewrite cache_named_put.
      rewrite (proj2 (put_rejected_storable _ _) Hst), bool_decide_eq_true_2 by done.
      rewrite cache_named_open. simpl. by apply cache_match_replace_self.
    + rewrite handleNetworkRequest_fallback by done.
      by rewrite caches_match_put.
  - intros Hst. rewrite cache_put_rejected by (by apply put_rejected_not_storable).
    split; [done|]. rewrite !handleNetworkRequest_fallback by done.
    rewrite caches_match_open. by destruct (caches_match request cs).
Qed.

(** A page fetched on line, then off line. *)
Lemma default_round_trip_witness :
  handleNetworkRequest V21.generation Sample.offline Sample.page_request
    (handleNetworkRequest V21.generation Sample.online Sample.page_request []).2
  = (Sample.live, (handleNetworkRequest V21.generation Sample.online Sample.page_request []).2).
Proof.
  refine (proj2 (proj1 (proj2 (default_round_trip V21.generation Sample.online Sample.offline
           Sample.page_request [] Sample.live eq_refl eq_refl _ _)) _)).
  - by left.
  - intros n c Hin. by apply elem_of_nil in Hin.
  - repeat split; discriminate.
Defined.

Lemma only_in_open (name : string) (request : Request) (cs : CacheStorage) :
  only_in name request cs → only_in name request (caches_open name cs).
Proof.
  intros H. unfold caches_open. case_bool_decide; [done|].
  intros n c [Hin|Hin%list_elem_of_singleton]%elem_of_app Hn; [by eapply H|].
  by injection Hin as -> ->.
Qed.

Lemma only_in_put (name : string) (request request' : Request) (r : Response)
    (cs : CacheStorage) :
  only_in name request cs → only_in name request (cache_put name request' r cs).
Proof.
  intros H n c Hin Hn. unfold cache_put in Hin.
  destruct (put_rejected request' r); [by eapply H|].
  apply list_elem_of_fmap in Hin as ([n' c'] & Heq & Hin).
  simpl in Heq. case_bool_decide; simplify_eq/=; by eapply H.
Qed.

(** X3. The API cache keeps the latest copy that the Cache API accepted.
    After two successful fetches of a request, a fetch that fails is
    answered with the second response, stamped with the time of the second
    fetch and marked as served from the cache, when that response is
    accepted and no cache other than the API cache has an entry that the
    request matches. When the second response is not accepted (status 206,
    say) and the first is, the failed fetch is answered with the first one,
    stamped with the time of the first fetch. *)
Theorem api_latest_copy (g : Generation) (fetch1 fetch2 fetch3 : Request → option Response)
    (iso1 iso2 iso3 : string) (request : Request) (cs : CacheStorage)
    (live1 live2 : Response) :
  fetch1 request = Some live1 → ok live1 = true →
  fetch2 request = Some live2 → ok live2 = true →
  fetch_fails fetch3 request →
  only_in (api_cache g) request cs →
  let cs1 := (handleApiRequest g fetch1 iso1 request cs).2 in
  let cs2 := (handleApiRequest g fetch2 iso2 request cs1).2 in
  (storable request live2 →
     handleApiRequest g fetch3 iso3 request cs2
     = (with_header "sw-from-cache" "true" (with_header "sw-cached-at" iso2 live2), cs2)) ∧
  (¬ storable request live2 → storable request live1 →
     handleApiRequest g fetch3 iso3 request cs2
     = (with_header "sw-from-cache" "true" (with_header "sw-cached-at" iso1 live1), cs2)).
Proof.
  intros H1 Hok1 H2 Hok2 Hfail Honly cs1 cs2.
  assert (∀ iso live, ok live = true →
            new_Response_with "sw-from-cache" "true" (with_header "sw-cached-at" iso live)
            = Some (with_header "sw-from-cache" "true" (with_header "sw-cached-at" iso live)))
    as Hnew by (intros iso live Hok; by apply new_Response_with_ok).
  assert (only_in (api_cache g) request cs1) as Honly1.
  { subst cs1. rewrite (handleApiRequest_live g fetch1 iso1 request cs live1 H1 Hok1).
    by apply only_in_put, only_in_open. }
  subst cs2. rewrite (handleApiRequest_live g fetch2 iso2 request cs1 live2 H2 Hok2).
  simpl. split.
  - intros Hst. rewrite handleApiRequest_fallback by done.
    rewrite caches_match_put; [|by apply storable_with_header|done].
    by rewrite Hnew.
  - intros Hst2 Hst1.
    rewrite cache_put_rejected
      by (apply put_rejected_not_storable; by rewrite storable_with_header).
    rewrite handleApiRequest_fallback by done. rewrite caches_match_open.
    subst cs1. rewrite (handleApiRequest_live g fetch1 iso1 request cs live1 H1 Hok1).
    simpl. rewrite caches_match_put; [|by apply storable_with_header|done].
    by rewrite Hnew.
Qed.

(** Two fetches of the index on line, a third off line. *)
Lemma api_latest_copy_witness :
  let cs1 := (handleApiRequest V21.generation Sample.online "t1" Sample.api_request []).2 in
  let cs2 := (handleApiRequest V21.generation Sample.online "t2" Sample.api_request cs1).2 in
  handleApiRequest V21.generation Sample.offline "t3" Sample.api_request cs2
  = (with_header "sw-from-cache" "true" (with_header "sw-cached-at" "t2" Sample.live), cs2).
Proof.
  refine (proj1 (api_latest_copy V21.generation Sample.online Sample.online Sample.offline
           "t1" "t2" "t3" Sample.api_request [] Sample.live Sample.live
           eq_refl eq_refl eq_refl eq_refl _ _) _).
  - by left.
  - intros n c Hin. by apply elem_of_nil in Hin.
  - repeat split; discriminate.
Defined.

Lemma all_stored_ok_open (name : string) (cs : CacheStorage) :
  all_stored_ok cs → all_stored_ok (caches_open name cs).
Proof.
  intros H. unfold caches_open. case_bool_decide; [done|].
  intros n c request r [Hin|Hin%list_elem_of_singleton]%elem_of_app Hr; [by eapply H|].
  injection Hin as -> ->. by apply elem_of_nil in Hr.
Qed.

Lemma all_stored_ok_put (name : string) (request : Request) (r : Response)
    (cs : CacheStorage) :
  ok r = true → all_stored_ok cs → all_stored_ok (cache_put name request r cs).
Proof.
  intros Hok H n c request' r' Hin Hr. unfold cache_put in Hin.
  destruct (put_rejected request r); [by eapply H|].
  apply list_elem_of_fmap in Hin as ([n' c'] & Heq & Hin). simpl in Heq.
  case_bool_decide; simplify_eq/=; [|by eapply H].
  unfold cache_replace in Hr.
  apply elem_of_app in Hr as [[_ Hr]%list_elem_of_filter|Hr%list_elem_of_singleton].
  - by eapply H.
  - by injection Hr as -> ->.
Qed.

Lemma caches_keys_put (name : string) (request : Request) (r : Response)
    (cs : CacheStorage) :
  caches_keys (cache_put name request r cs) = caches_keys cs.
Proof.
  unfold caches_keys, cache_put. destruct (put_rejected request r); [done|].
  rewrite <- list_fmap_compose.
  apply list_fmap_ext. intros i [n c] _. simpl. by case_bool_decide.
Qed.

Lemma caches_keys_open (name name' : string) (cs : CacheStorage) :
  name' ∈ caches_keys (caches_open name cs) ↔ name' ∈ caches_keys cs ∨ name' = name.
Proof.
  unfold caches_open. case_bool_decide as Hin.
  - split; [by left|]. by intros [?| ->].
  - unfold caches_keys. rewrite fmap_app, elem_of_app. simpl.
    by rewrite list_elem_of_singleton.
Qed.

Lemma stored_in_open (name name' : string) (request : Request) (cs : CacheStorage) :
  stored_in name' request (caches_open name cs) = stored_in name' request cs.
Proof.
  unfold stored_in. destruct (decide (name' = name)) as [->|Hne].
  - rewrite cache_named_open. destruct (cache_named name cs); [done|].
    simpl. unfold cache_match. by destruct (String.eqb _ _).
  - by rewrite cache_named_open_ne.
Qed.

(** Another URL, or another cache, is not touched by a [put]. *)
Lemma stored_in_put (name name' : string) (request request' : Request) (r : Response)
    (cs : CacheStorage) :
  name' ≠ name ∨ strip_fragment (href request') ≠ strip_fragment (href request) →
  stored_in name' request' (cache_put name request r cs) = stored_in name' request' cs.
Proof.
  intros Hne. unfold stored_in. rewrite cache_named_put.
  destruct (put_rejected request r); [done|]. case_bool_decide as Hn; [|done].
  subst name'. destruct Hne as [?|Hne]; [done|].
  destruct (cache_named name cs); [|done]. simpl.
  by apply cache_match_replace_other.
Qed.

Lemma length_cache_replace (request : Request) (r : Response) (c : Cache) :
  (length (cache_replace request r c) ≤ length c + 1)%nat.
Proof.
  unfold cache_replace. rewrite length_app. simpl.
  pose proof (length_filter (fun item => request_matches request item.1 item.2 = false) c).
  lia.
Qed.

Lemma replace_absent (name : string) (request : Request) (r : Response)
    (cs : CacheStorage) :
  name ∉ caches_keys cs →
  (fun e : string * Cache =>
     if bool_decide (e.1 = name) then (e.1, cache_replace request r e.2) else e) <$> cs
  = cs.
Proof.
  intros Hn. rewrite <- (list_fmap_id cs) at 2. apply list_fmap_ext.
  intros i [n' c'] Hi. simpl.
  case_bool_decide as Heq'; [|done]. simpl in Heq'. subst n'.
  destruct Hn. apply list_elem_of_fmap. exists (name, c'). split; [done|].
  by eapply list_elem_of_lookup_2.
Qed.

Lemma entries_put (name : string) (request : Request) (r : Response) (cs : CacheStorage) :
  NoDup (caches_keys cs) →
  (entries (cache_put name request r cs) ≤ entries cs + 1)%nat.
Proof.
  unfold cache_put. destruct (put_rejected request r); [lia|].
  unfold entries. induction cs as [|[n c] cs IH]; [simpl; lia|].
  unfold caches_keys. rewrite !fmap_cons. intros [Hn Hnd]%NoDup_cons.
  simpl in Hn. cbn [sum_list sum_list_with fst snd].
  case_bool_decide as Heq; simpl in Heq.
  - subst n. pose proof (length_cache_replace request r c).
    rewrite (replace_absent name request r cs Hn). simpl. lia.
  - specialize (IH Hnd). simpl. lia.
Qed.

Lemma entries_open (name : string) (cs : CacheStorage) :
  entries (caches_open name cs) = entries cs.
Proof.
  unfold caches_open, entries. case_bool_decide as Hin; [done|]. clear Hin.
  induction cs as [|e cs IH]; [done|].
  rewrite <- app_comm_cons, !fmap_cons. cbn [sum_list sum_list_with]. by rewrite IH.
Qed.

Lemma NoDup_keys_open (name : string) (cs : CacheStorage) :
  NoDup (caches_keys cs) → NoDup (caches_keys (caches_open name cs)).
Proof.
  intros Hnd. unfold caches_open. case_bool_decide as Hin; [done|].
  unfold caches_keys. rewrite fmap_app. apply NoDup_app. split; [done|].
  split; [|apply NoDup_singleton].
  intros x Hx ->%list_elem_of_singleton. by apply Hin.
Qed.

(** What the listener leaves: the caches as they were, or one of the three
    current caches opened, with or without one [ok] response put in it for
    the request. *)
Lemma on_fetch_storage (g : Generation) (fetch : Request → option Response) (iso : string)
    (request : Request) (cs cs' : CacheStorage) (r : Response) :
  on_fetch g fetch iso request cs = Some (r, cs') →
  cs' = cs ∨
  ∃ name live stored,
    name ∈ [cache_name g; api_cache g; offline_cache g] ∧
    fetch request = Some live ∧ ok live = true ∧ ok stored = true ∧
    (stored = live ∨ stored = with_header "sw-cached-at" iso live) ∧
    cs' = cache_put name request stored (caches_open name cs).
Proof.
  unfold on_fetch. destruct (negb _); [done|].
  destruct (classify g request); intros [= Heq].
  - destruct (fetch request) as [live|] eqn:Hlive; [destruct (ok live) eqn:Hok|].
    + rewrite (handleApiRequest_live g fetch iso request cs live Hlive Hok) in Heq.
      injection Heq as <- <-. right.
      exists (api_cache g), live, (with_header "sw-cached-at" iso live).
      split; [set_solver|]. repeat split; try done. by right.
    + left. rewrite handleApiRequest_fallback in Heq by (right; by exists live).
      destruct (caches_match _ _) as [cached|]; [|by injection Heq as <- <-].
      by destruct (new_Response_with _ _ cached); injection Heq as <- <-.
    + left. rewrite handleApiRequest_fallback in Heq by (by left).
      destruct (caches_match _ _) as [cached|]; [|by injection Heq as <- <-].
      by destruct (new_Response_with _ _ cached); injection Heq as <- <-.
  - unfold handleCoreAssetRequest in Heq.
    destruct (caches_match _ _); [left; by injection Heq as <- <-|].
    destruct (fetch request) as [live|]; [destruct (ok live) eqn:Hok|].
    + injection Heq as <- <-. right.
      exists (cache_name g), live, live. split; [set_solver|].
      repeat split; try done. by left.
    + left. by injection Heq as <- <-.
    + left. by injection Heq as <- <-.
  - unfold handleNetworkRequest in Heq.
    destruct (fetch request) as [live|]; [destruct (ok live) eqn:Hok|].
    + injection Heq as <- <-. right.
      exists (offline_cache g), live, live. split; [set_solver|].
      repeat split; try done. by left.
    + left. by destruct (caches_match _ _); injection Heq as <- <-.
    + left. by destruct (caches_match _ _); injection Heq as <- <-.
Qed.

(** X4. A fetch event writes at most one response. The caches it leaves
    are those it found, or those with one of the three current caches
    opened, or those with, besides, the [ok] response of the live fetch
    (for the API class, its copy stamped [sw-cached-at]) put in that cache
    for the request: none is deleted, at most one is created and
    the number of stored entries grows by one at most. What a request for
    another URL (up to the fragment) finds in each cache, and every cache
    with a name that is not current, is as before; and when the live fetch
    fails the caches are left exactly as they were. *)
Theorem on_fetch_frame (g : Generation) (fetch : Request → option Response) (iso : string)
    (request : Request) (cs cs' : CacheStorage) (r : Response) :
  on_fetch g fetch iso request cs = Some (r, cs') →
  (fetch_fails fetch request → cs' = cs) ∧
  (cs' = cs ∨
   ∃ name live stored, name ∈ [cache_name g; api_cache g; offline_cache g] ∧
     fetch request = Some live ∧ ok live = true ∧
     (stored = live ∨ stored = with_header "sw-cached-at" iso live) ∧
     (cs' = caches_open name cs ∨
      cs' = (fun e : string * Cache =>
               if bool_decide (e.1 = name)
               then (e.1, cache_replace request stored e.2) else e)
            <$> caches_open name cs)) ∧
  (∀ name, name ∈ caches_keys cs → name ∈ caches_keys cs') ∧
  (length cs' ≤ length cs + 1)%nat ∧
  (NoDup (caches_keys cs) → (entries cs' ≤ entries cs + 1)%nat) ∧
  (∀ name other, strip_fragment (href other) ≠ strip_fragment (href request) →
     stored_in name other cs' = stored_in name other cs) ∧
  (∀ name, name ∉ [cache_name g; api_cache g; offline_cache g] →
     cache_named name cs' = cache_named name cs).
Proof.
  intros [->|(P & live & stored & HP & Hlive & Hok & _ & Hst & ->)]%on_fetch_storage.
  { repeat split; auto; lia. }
  split; [|split; [|split; [|split; [|split; [|split]]]]].
  - intros [Hf|(live' & Hf & Hno)]; congruence.
  - right. exists P, live, stored. do 4 (split; [done|]). unfold cache_put.
    destruct (put_rejected _ _); [by left|by right].
  - intros name Hin. rewrite caches_keys_put. apply caches_keys_open. by left.
  - transitivity (length (caches_open P cs)).
    + unfold cache_put. destruct (put_rejected _ _); [done|]. by rewrite length_fmap.
    + unfold caches_open. case_bool_decide; [lia|]. rewrite length_app. simpl. lia.
  - intros Hnd. rewrite <- (entries_open P cs). by apply entries_put, NoDup_keys_open.
  - intros name other Hne. rewrite stored_in_put by (by right). apply stored_in_open.
  - intros name Hname. rewrite cache_named_put.
    destruct (put_rejected _ _); [|rewrite bool_decide_eq_false_2 by congruence];
      apply cache_named_open_ne; congruence.
Qed.

(** An index request on line leaves the stored index of the old API
    cache. *)
Lemma on_fetch_frame_witness :
  cache_named V20.API_CACHE
    (handleApiRequest V21.generation Sample.online Sample.iso Sample.api_request
       Sample.upgraded).2
  = Some [(Sample.api_request, Sample.live)].
Proof.
  refine (proj2 (proj2 (proj2 (proj2 (proj2 (proj2
    (on_fetch_frame V21.generation Sample.online Sample.iso Sample.api_request
       Sample.upgraded _ _ eq_refl)))))) V20.API_CACHE _).
  intros H. repeat (apply elem_of_cons in H as [H|H]; [discriminate H|]).
  by apply elem_of_nil in H.
Defined.
(* ===================================================================== *)
(** ** Install and cache clearing *)
(* ===================================================================== *)

Lemma caches_match_stored_in (name : string) (request : Request) (r : Response)
    (cs : CacheStorage) :
  stored_in name request cs = Some r → is_Some (caches_match request cs).
Proof.
  unfold stored_in. induction cs as [|[n c] cs IH]; [done|]. simpl.
  destruct (cache_match request c) as [r'|] eqn:Hc; [by eexists|].
  case_bool_decide; [|done]. simpl. by rewrite Hc.
Qed.

Lemma clear_fold (names : list string) (cs : CacheStorage) :
  foldl (fun cs cacheName => caches_delete cacheName cs) cs names
  = filter (fun e => e.1 ∉ names) cs.
Proof.
  revert cs. induction names as [|n names IH]; intros cs; simpl.
  - induction cs as [|e cs IHcs]; [done|].
    rewrite filter_cons_True; [by rewrite <- IHcs|]. apply not_elem_of_nil.
  - rewrite IH. unfold caches_delete. rewrite list_filter_filter.
    apply list_filter_iff. intros e. rewrite not_elem_of_cons. tauto.
Qed.

(** X5. [clearAllCaches] leaves no cache at all, whatever there was; a GET
    request whose live fetch fails is then answered with the offline
    response. *)
Theorem clearAllCaches_empties (g : Generation) (fetch : Request → option Response)
    (iso : string) (request : Request) (cs : CacheStorage) :
  clearAllCaches cs = [] ∧
  (method request = "GET" → fetch_fails fetch request →
   on_fetch g fetch iso request (clearAllCaches cs) = Some (createOfflineResponse, [])).
Proof.
  assert (clearAllCaches cs = []) as Hclear.
  { unfold clearAllCaches. rewrite clear_fold.
    assert (∀ l : CacheStorage, (∀ e, e ∈ l → e.1 ∈ caches_keys cs) →
              filter (fun e => e.1 ∉ caches_keys cs) l = []) as Hnone.
    { induction l as [|e l IH]; intros Hl; [done|].
      rewrite filter_cons_False; [apply IH; intros e' He'; apply Hl; by right|].
      intros H. apply H, Hl. left. }
    apply Hnone. intros e He. apply list_elem_of_fmap. by exists e. }
  split; [done|]. rewrite Hclear. intros Hget Hfail.
  by apply on_fetch_offline.
Qed.

(** The caches of an upgraded origin, cleared, then the index requested
    off line. *)
Lemma clearAllCaches_empties_witness :
  on_fetch V21.generation Sample.offline Sample.iso Sample.api_request
    (clearAllCaches Sample.upgraded) = Some (createOfflineResponse, []).
Proof.
  apply (proj2 (clearAllCaches_empties V21.generation Sample.offline Sample.iso
                  Sample.api_request Sample.upgraded)); [reflexivity|by left].
Defined.

(** The entry ([q], [r]) is in the cache, after entries that [q] does not
    match: a later [put] of a request that does not match it leaves it
    there, and [q] finds it first. *)
Lemma first_entry_replace (q q' : Request) (r r' : Response) (c c1 c2 : Cache) :
  c = c1 ++ (q, r) :: c2 → query_cache q c1 = None →
  request_matches q' q r = false →
  ∃ c1' c2', cache_replace q' r' c = c1' ++ (q, r) :: c2' ∧ query_cache q c1' = None.
Proof.
  intros -> Hc1 Hno. unfold cache_replace.
  exists (filter (fun item => request_matches q' item.1 item.2 = false) c1),
    (filter (fun item => request_matches q' item.1 item.2 = false) c2 ++ [(q', r')]).
  split.
  - rewrite filter_app, filter_cons_True by done. by rewrite <- app_assoc.
  - apply query_cache_None. intros rq0 r0 [_ Hin]%list_elem_of_filter.
    by eapply query_cache_None.
Qed.

Lemma first_entry_found (q : Request) (r : Response) (c c1 c2 : Cache) :
  c = c1 ++ (q, r) :: c2 → query_cache q c1 = None →
  method q = "GET" → vary_star r = false →
  cache_match q c = Some r.
Proof.
  intros -> Hc1 Hget Hvary. unfold cache_match. rewrite Hget. simpl.
  rewrite query_cache_app_None by done. simpl. by rewrite request_matches_refl.
Qed.

Section InstallFacts.
Context (g : Generation) (endpoints : list string).
Context (new_Request : string → Request) (fetch : Request → option Response).

Local Abbreviation addAll_step name :=
  (fun (cs : CacheStorage) (request : Request) =>
     match fetch request with
     | Some response => cache_put name request response cs
     | None => cs
     end).

Lemma addAll_fold_keys (name : string) (requests : list Request) (cs : CacheStorage) :
  caches_keys (foldl (addAll_step name) cs requests) = caches_keys cs.
Proof.
  revert cs. induction requests as [|q requests IH]; intros cs; [done|].
  simpl. rewrite IH. destruct (fetch q); [apply caches_keys_put|done].
Qed.

Lemma addAll_fold_named (name name' : string) (requests : list Request)
    (cs : CacheStorage) :
  name' ≠ name →
  cache_named name' (foldl (addAll_step name) cs requests) = cache_named name' cs.
Proof.
  intros Hne. revert cs. induction requests as [|q requests IH]; intros cs; [done|].
  simpl. rewrite IH. destruct (fetch q); [|done].
  rewrite cache_named_put. destruct (put_rejected _ _); [done|].
  by rewrite bool_decide_eq_false_2.
Qed.

(** The later requests of a batch leave the entry of an earlier one in
    place. *)
Lemma addAll_fold_keeps (name : string) (requests : list Request) (cs : CacheStorage)
    (q : Request) (r : Response) (c c1 c2 : Cache) :
  cache_named name cs = Some c →
  c = c1 ++ (q, r) :: c2 → query_cache q c1 = None →
  Forall (fun later => ∀ response, fetch later = Some response →
                         request_matches later q r = false) requests →
  ∃ c' c1' c2', cache_named name (foldl (addAll_step name) cs requests) = Some c' ∧
    c' = c1' ++ (q, r) :: c2' ∧ query_cache q c1' = None.
Proof.
  revert cs c c1 c2. induction requests as [|q0 requests IH];
    intros cs c c1 c2 Hc Heq Hc1 Hlater; [by exists c, c1, c2|].
  apply Forall_cons in Hlater as [Hq0 Hlater]. simpl.
  destruct (fetch q0) as [r0|] eqn:Hr0; [|by eapply IH].
  destruct (put_rejected q0 r0) eqn:Hput.
  - rewrite cache_put_rejected by done. by eapply IH.
  - destruct (first_entry_replace q q0 r r0 c c1 c2 Heq Hc1 (Hq0 r0 eq_refl))
      as (c1' & c2' & Heq' & Hc1').
    eapply (IH _ (cache_replace q0 r0 c)); try done.
    rewrite cache_named_put, Hput, bool_decide_eq_true_2, Hc by done. done.
Qed.

Lemma batch_distinct_cons (q : Request) (requests : list Request) :
  batch_distinct fetch (q :: requests) = true →
  Forall (fun later => ∀ response, fetch q = Some response →
                         request_matches later q response = false) requests ∧
  batch_distinct fetch requests = true.
Proof.
  simpl. intros [Hq Hrest]%andb_true_iff. split; [|done].
  apply Forall_forall. intros later Hin response Hr.
  rewrite forallb_forall in Hq. specialize (Hq later). rewrite Hr in Hq.
  apply negb_true_iff, Hq. by apply list_elem_of_In.
Qed.

(** After an accepted batch, each request finds its response in the
    cache. *)
Lemma addAll_fold_stored (name : string) (requests : list Request) (cs : CacheStorage)
    (q : Request) (r : Response) :
  name ∈ caches_keys cs →
  forallb (addAll_fetched fetch) requests = true →
  batch_distinct fetch requests = true →
  q ∈ requests → fetch q = Some r →
  stored_in name q (foldl (addAll_step name) cs requests) = Some r.
Proof.
  revert cs. induction requests as [|q0 requests IH]; intros cs Hname Hall Hdist Hq Hr.
  - by apply elem_of_nil in Hq.
  - simpl in Hall. apply andb_true_iff in Hall as [Hq0 Hall].
    apply batch_distinct_cons in Hdist as [Hlater Hdist]. simpl.
    apply elem_of_cons in Hq as [->|Hq].
    + rewrite Hr. unfold addAll_fetched in Hq0. rewrite Hr in Hq0.
      apply andb_true_iff in Hq0 as [[Hhttp Hget%String.eqb_eq]%andb_true_iff Hresp].
      apply andb_true_iff in Hresp as [[_ H206%negb_true_iff]%andb_true_iff Hvary%negb_true_iff].
      assert (put_rejected q0 r = false) as Hput.
      { unfold put_rejected. by rewrite Hhttp, Hget, H206, Hvary. }
      destruct (cache_named name cs) as [c|] eqn:Hc; [|by apply cache_named_None in Hc].
      destruct (addAll_fold_keeps name requests (cache_put name q0 r cs) q0 r
                  (cache_replace q0 r c)
                  (filter (fun item => request_matches q0 item.1 item.2 = false) c) [])
        as (c' & c1' & c2' & Hc' & Heq' & Hc1').
      * by rewrite cache_named_put, Hput, bool_decide_eq_true_2, Hc.
      * done.
      * apply query_cache_None. by intros rq0 r0 [Hm _]%list_elem_of_filter.
      * eapply Forall_impl; [exact Hlater|]. intros later H response _. by apply H.
      * unfold stored_in. rewrite Hc'. simpl. by eapply first_entry_found.
    + apply IH; try done. destruct (fetch q0); [by rewrite caches_keys_put|done].
Qed.

Lemma addAll_fold_ok (name : string) (requests : list Request) (cs : CacheStorage) :
  forallb (addAll_fetched fetch) requests = true →
  all_stored_ok cs → all_stored_ok (foldl (addAll_step name) cs requests).
Proof.
  revert cs. induction requests as [|q requests IH]; intros cs Hall Hcs; [done|].
  simpl in Hall. apply andb_true_iff in Hall as [Hq Hall]. simpl.
  apply IH; [done|]. unfold addAll_fetched in Hq.
  destruct (fetch q) as [r|]; [|done]. apply all_stored_ok_put; [|done].
  apply andb_true_iff in Hq as [_ Hq].
  by apply andb_true_iff in Hq as [[Hok _]%andb_true_iff _].
Qed.

Lemma precache_fold_keys (l : list string) (cs : CacheStorage) :
  caches_keys (foldl (precache_endpoint g new_Request fetch) cs l) = caches_keys cs.
Proof.
  revert cs. induction l as [|url l IH]; intros cs; [done|].
  simpl. rewrite IH. unfold precache_endpoint.
  destruct (fetch _) as [r|]; [|done]. destruct (ok r); [apply caches_keys_put|done].
Qed.

Lemma precache_fold_named (name : string) (l : list string) (cs : CacheStorage) :
  name ≠ api_cache g →
  cache_named name (foldl (precache_endpoint g new_Request fetch) cs l) = cache_named name cs.
Proof.
  intros Hne. revert cs. induction l as [|url l IH]; intros cs; [done|].
  simpl. rewrite IH. unfold precache_endpoint.
  destruct (fetch _) as [r|]; [|done]. destruct (ok r); [|done].
  rewrite cache_named_put. destruct (put_rejected _ _); [done|].
  by rewrite bool_decide_eq_false_2.
Qed.

Lemma precache_fold_ok (l : list string) (cs : CacheStorage) :
  all_stored_ok cs → all_stored_ok (foldl (precache_endpoint g new_Request fetch) cs l).
Proof.
  revert cs. induction l as [|url l IH]; intros cs Hcs; [done|].
  simpl. apply IH. unfold precache_endpoint.
  destruct (fetch _) as [r|]; [|done]. destruct (ok r) eqn:Hok; [|done].
  by apply all_stored_ok_put.
Qed.

Lemma cache_addAll_keys (name : string) (requests : list Request) (cs : CacheStorage) :
  caches_keys (cache_addAll fetch name requests cs) = caches_keys cs.
Proof. unfold cache_addAll. destruct (_ && _); [apply addAll_fold_keys|done]. Qed.

Lemma cache_addAll_named (name name' : string) (requests : list Request)
    (cs : CacheStorage) :
  name' ≠ name → cache_named name' (cache_addAll fetch name requests cs) = cache_named name' cs.
Proof.
  intros Hne. unfold cache_addAll. destruct (_ && _); [by apply addAll_fold_named|done].
Qed.

(** A batch with a request whose response is not accepted stores
    nothing. *)
Lemma cache_addAll_rejected (name : string) (requests : list Request) (cs : CacheStorage)
    (q : Request) :
  q ∈ requests → addAll_fetched fetch q = false →
  cache_addAll fetch name requests cs = cs.
Proof.
  intros Hin Hq. unfold cache_addAll.
  destruct (forallb _ _) eqn:Hall; [|done]. exfalso.
  rewrite forallb_forall in Hall. rewrite Hall in Hq; [done|]. by apply list_elem_of_In.
Qed.

Lemma install_keys (cs : CacheStorage) (name : string) :
  name ∈ caches_keys (install g endpoints new_Request fetch cs) ↔
  name ∈ caches_keys cs ∨ name = cache_name g ∨ name = api_cache g.
Proof.
  unfold install. rewrite precache_fold_keys, caches_keys_open, cache_addAll_keys,
    caches_keys_open. tauto.
Qed.

(** The core cache after an install whose batch is rejected. *)
Lemma install_rejected (cs : CacheStorage) (asset : string) :
  cache_name g ≠ api_cache g →
  asset ∈ core_assets g →
  addAll_fetched fetch (new_Request asset) = false →
  cache_named (cache_name g) (install g endpoints new_Request fetch cs)
  = Some (default [] (cache_named (cache_name g) cs)).
Proof.
  intros Hne Hin Hno. unfold install.
  rewrite precache_fold_named, cache_named_open_ne by done.
  rewrite (cache_addAll_rejected _ _ _ (new_Request asset)); [apply cache_named_open| |done].
  apply list_elem_of_fmap. by exists asset.
Qed.

(** X6. The install step opens the core cache and the API cache and no
    other: the caches after it are those before it and these two, and every
    cache with another name (the offline cache too) is as before. Its
    pre-caching of the core assets is all or nothing: when the fetch of one
    core asset fails, the core cache has the content it had (none, when it
    was just created). *)
Theorem install_caches (cs : CacheStorage) :
  (∀ name, name ∈ caches_keys (install g endpoints new_Request fetch cs) ↔
           name ∈ caches_keys cs ∨ name = cache_name g ∨ name = api_cache g) ∧
  (∀ name, name ≠ cache_name g → name ≠ api_cache g →
     cache_named name (install g endpoints new_Request fetch cs) = cache_named name cs) ∧
  (cache_name g ≠ api_cache g →
   (∃ asset, asset ∈ core_assets g ∧ fetch_fails fetch (new_Request asset)) →
   cache_named (cache_name g) (install g endpoints new_Request fetch cs)
   = Some (default ∅ (cache_named (cache_name g) cs))).
Proof.
  split; [apply install_keys|]. split.
  - unfold install. intros name Hc Ha.
    rewrite precache_fold_named, cache_named_open_ne by done.
    by rewrite cache_addAll_named, cache_named_open_ne.
  - intros Hne (asset & Hin & Hfail). apply (install_rejected cs asset); try done.
    unfold addAll_fetched.
    destruct Hfail as [-> | (live & -> & ->)]; by rewrite ?andb_false_r.
Qed.

(** X7. The pre-caching of the core assets by the install step follows
    [Cache.addAll]. When every core asset is fetched with a response that
    the Cache API accepts ([ok], not of status 206, without [Vary: *], for a
    GET over http(s)) and no request of the batch matches an earlier one,
    each request of the batch finds its response in the core cache, and is
    from then on answered from the caches, which stay as they are, whatever
    the network does. When the response of one core asset is not accepted (a
    response of status 206 is [ok] and is not), nothing at all is stored:
    the core cache has the content it had. *)
Theorem install_makes_shell_available (cs : CacheStorage) :
  cache_name g ≠ api_cache g →
  ((∀ asset, asset ∈ core_assets g →
      ∃ r, fetch (new_Request asset) = Some r ∧ ok r = true ∧
           storable (new_Request asset) r) →
   batch_distinct fetch (new_Request <$> core_assets g) = true →
   ∀ asset r, asset ∈ core_assets g → fetch (new_Request asset) = Some r →
     stored_in (cache_name g) (new_Request asset)
       (install g endpoints new_Request fetch cs) = Some r ∧
     ∀ fetch', ∃ stored,
       handleCoreAssetRequest g fetch' (new_Request asset)
         (install g endpoints new_Request fetch cs)
       = (stored, install g endpoints new_Request fetch cs)) ∧
  (∀ asset r, asset ∈ core_assets g → fetch (new_Request asset) = Some r →
     ¬ storable (new_Request asset) r →
     cache_named (cache_name g) (install g endpoints new_Request fetch cs)
     = Some (default [] (cache_named (cache_name g) cs))).
Proof.
  intros Hne. split.
  - intros Hall Hdist asset r Hin Hr.
    assert (stored_in (cache_name g) (new_Request asset)
              (install g endpoints new_Request fetch cs) = Some r) as Hstored.
    { unfold install, stored_in at 1.
      rewrite precache_fold_named, cache_named_open_ne by done.
      unfold cache_addAll. rewrite Hdist, andb_true_r.
      assert (forallb (addAll_fetched fetch) (new_Request <$> core_assets g) = true) as Hacc.
      { apply forallb_forall. intros q (a & -> & Ha)%list_elem_of_In%list_elem_of_fmap.
        destruct (Hall a Ha) as (r' & Hr' & Hok & Hhttp & Hget & H206 & Hvary).
        unfold addAll_fetched. rewrite Hr', Hhttp, Hget, Hok, Hvary.
        by rewrite (proj2 (Z.eqb_neq _ _) H206). }
      rewrite Hacc.
      apply (addAll_fold_stored (cache_name g) _ _ (new_Request asset) r); try done.
      - apply caches_keys_open. by right.
      - apply list_elem_of_fmap. by exists asset. }
    split; [done|]. intros fetch'.
    destruct (caches_match_stored_in _ _ _ _ Hstored) as [stored Hm].
    exists stored. unfold handleCoreAssetRequest. by rewrite Hm.
  - intros asset r Hin Hr Hst. apply (install_rejected cs asset); try done.
    unfold addAll_fetched. rewrite Hr.
    destruct (is_http _) eqn:Hhttp; [|done].
    destruct (String.eqb _ _) eqn:Hget; [|done]. apply String.eqb_eq in Hget.
    destruct (status r =? 206) eqn:H206; [by rewrite andb_false_r|].
    destruct (vary_star r) eqn:Hvary; [by rewrite !andb_false_r|].
    destruct Hst. repeat split; try done. by apply Z.eqb_neq.
Qed.

(** X8. The worker stores no response that is not [ok]: when every stored
    response is [ok], so is every response stored after a fetch event and
    after the install step. *)
Theorem stores_only_ok (iso : string) (request : Request) (cs : CacheStorage) :
  all_stored_ok cs →
  (∀ r cs', on_fetch g fetch iso request cs = Some (r, cs') → all_stored_ok cs') ∧
  all_stored_ok (install g endpoints new_Request fetch cs).
Proof.
  intros Hcs. split.
  - intros r cs' [->|(P & live & stored & _ & _ & _ & Hok & _ & ->)]%on_fetch_storage; [done|].
    by apply all_stored_ok_put, all_stored_ok_open.
  - unfold install. apply precache_fold_ok, all_stored_ok_open.
    unfold cache_addAll. destruct (forallb _ _) eqn:Hall; simpl;
      [|by apply all_stored_ok_open].
    destruct (batch_distinct _ _); [|by apply all_stored_ok_open].
    by apply addAll_fold_ok, all_stored_ok_open.
Qed.

(** X9. After the install step and the clean-up of activation, the caches
    that exist are the core cache and the API cache of the generation, and
    its offline cache exactly when it existed before. *)
Theorem install_then_activate (cs : CacheStorage) (name : string) :
  name ∈ caches_keys (activate_cleanup g (install g endpoints new_Request fetch cs)) ↔
  name = cache_name g ∨ name = api_cache g ∨
  (name = offline_cache g ∧ name ∈ caches_keys cs).
Proof.
  rewrite activate_cleanup_filter. unfold caches_keys at 1.
  rewrite list_elem_of_fmap.
  pose proof (install_keys cs name) as Hkeys.
  unfold caches_keys at 1 in Hkeys. rewrite list_elem_of_fmap in Hkeys.
  split.
  - intros ([n c] & -> & [Hc Hin]%list_elem_of_filter). simpl in *.
    apply is_current_names in Hc.
    assert (n ∈ caches_keys cs ∨ n = cache_name g ∨ n = api_cache g) as Hn
      by (apply Hkeys; by exists (n, c)).
    rewrite !elem_of_cons, elem_of_nil in Hc. tauto.
  - intros H.
    assert (name ∈ caches_keys cs ∨ name = cache_name g ∨ name = api_cache g) as Hn by tauto.
    apply Hkeys in Hn as ([n c] & -> & Hin). exists (n, c). split; [done|].
    apply list_elem_of_filter. split; [|done]. simpl in *.
    apply is_current_names. rewrite !elem_of_cons, elem_of_nil. tauto.
Qed.
End InstallFacts.

(* ===================================================================== *)
(** ** Install on a sample origin *)
(* ===================================================================== *)

(** With the favicon unreachable, the install of v2.1.0 on an upgraded
    origin leaves its core cache empty. *)
Lemma install_caches_witness :
  cache_named V21.CACHE_NAME
    (install V21.generation API_ENDPOINTS Origin.new_Request Origin.no_favicon Sample.upgraded)
  = Some [].
Proof.
  apply (proj2 (proj2 (install_caches V21.generation API_ENDPOINTS Origin.new_Request
                         Origin.no_favicon Sample.upgraded))).
  - discriminate.
  - exists "/favicon/favicon.ico". split; [compute_done|by left].
Defined.

(** On line, the install of v2.1.0 stores the index page, which is then
    served whatever the network does. *)
Lemma install_makes_shell_available_witness :
  stored_in V21.CACHE_NAME (Origin.new_Request "/index.html")
    (install V21.generation API_ENDPOINTS Origin.new_Request Sample.online Sample.upgraded)
  = Some Sample.live ∧
  ∀ fetch', ∃ stored,
    handleCoreAssetRequest V21.generation fetch' (Origin.new_Request "/index.html")
      (install V21.generation API_ENDPOINTS Origin.new_Request Sample.online Sample.upgraded)
    = (stored,
       install V21.generation API_ENDPOINTS Origin.new_Request Sample.online Sample.upgraded).
Proof.
  refine (proj1 (install_makes_shell_available V21.generation API_ENDPOINTS
                   Origin.new_Request Sample.online Sample.upgraded _) _ _
            "/index.html" Sample.live _ _).
  - discriminate.
  - intros asset Hin. exists Sample.live. split; [done|]. split; [done|].
    repeat (apply elem_of_cons in Hin as [->|Hin]; [repeat split; discriminate|]).
    by apply elem_of_nil in Hin.
  - vm_compute. reflexivity.
  - compute_done.
  - reflexivity.
Defined.

(** The install of v2.1.0 on a new origin stores [ok] responses only. *)
Lemma stores_only_ok_witness :
  all_stored_ok (install V21.generation API_ENDPOINTS Origin.new_Request Sample.online []).
Proof.
  apply (stores_only_ok V21.generation API_ENDPOINTS Origin.new_Request Sample.online
           Sample.iso Sample.api_request []).
  intros name c url r Hin. by apply elem_of_nil in Hin.
Defined.

(* ===================================================================== *)
(** ** More on scans and recomputation *)
(* ===================================================================== *)

Lemma dbGetAll_elem (d : DB) (n : ScheduledNotification) :
  n ∈ dbGetAll_scheduled d ↔ ∃ k, scheduledNotifications d !! k = Some n.
Proof.
  unfold dbGetAll_scheduled. rewrite list_elem_of_fmap. split.
  - intros ([k n'] & -> & Hin). exists k. by apply elem_of_map_to_list.
  - intros (k & Hk). exists (k, n). split; [done|]. by apply elem_of_map_to_list.
Qed.

Lemma scan_fold_fired (h : Host) (now : Z) (l : list ScheduledNotification) (w : World)
    (f : Firing) :
  f ∈ fired (scan_loop h now w l) →
  f ∈ fired w ∨
  (f_entry f ∈ l ∧ n_notified (f_entry f) = false ∧ in_window now (f_entry f) = true).
Proof.
  revert w. induction l as [|n l IH]; intros w; [by left|].
  rewrite scan_loop_cons.
  destruct (scan_body_cases h now w n)
    as [-> | [(Hp & Hw & calls & _ & ->) | (_ & _ & _ & ->)]]; [| |by left].
  - intros [Hf|(Hin & Hp & Hw)]%IH; [by left|right; split; [by right|done]].
  - intros [Hf|(Hin & Hp' & Hw')]%IH; [|right; split; [by right|done]].
    simpl in Hf. apply elem_of_app in Hf as [Hf|Hf%list_elem_of_singleton]; [by left|].
    right. subst f. simpl. split; [left|done].
Qed.

(** X10. A scan fires only what is due: every firing that
    [checkAndShowNotifications] adds to the log is of a record that was
    stored when the scan began, with [notified] false and a fire time within
    60 seconds of [now], and the settings were globally enabled. *)
Theorem scan_fires_only_due (h : Host) (now : Z) (w : World) (f : Firing) :
  f ∈ fired (checkAndShowNotifications h now w) →
  f ∈ fired w ∨
  (s_enabled (getNotificationSettings (db w)) = true ∧
   (∃ k, scheduledNotifications (db w) !! k = Some (f_entry f)) ∧
   n_notified (f_entry f) = false ∧
   -60000 ≤ n_time (f_entry f) - now ≤ 60000).
Proof.
  unfold checkAndShowNotifications.
  destruct (s_enabled _); [|by left].
  intros [Hf|(Hin & Hp & Hw)]%scan_fold_fired; [by left|right].
  split; [done|]. split; [by apply dbGetAll_elem|]. split; [done|].
  unfold in_window in Hw. apply andb_true_iff in Hw as [Hle%Z.leb_le Hge%Z.geb_le]. lia.
Qed.

(** The log of the scan of the sample store holds the Fajr record only. *)
Lemma scan_fires_only_due_witness :
  let w := Sample.world (Sample.store true {[ "fajr" := Sample.fajr ]}) in
  let f := {| f_entry := Sample.fajr;
              f_calls := default [] (showPrayerNotification Sample.host "fajr"
                                       (n_timeStr Sample.fajr) (db w)) |} in
  f ∈ fired (checkAndShowNotifications Sample.host (Sample.fajr_time + 30000) w) ∧
  -60000 ≤ n_time (f_entry f) - (Sample.fajr_time + 30000) ≤ 60000.
Proof.
  intros w f.
  assert (Hf : f ∈ fired (checkAndShowNotifications Sample.host
                            (Sample.fajr_time + 30000) w))
    by (vm_compute; constructor).
  split; [exact Hf|].
  destruct (scan_fires_only_due Sample.host (Sample.fajr_time + 30000) w f Hf)
    as [Hold|(_ & _ & _ & Hwin)].
  - by apply elem_of_nil in Hold.
  - exact Hwin.
Defined.

Lemma dbGetAll_absent (d : DB) (k : string) :
  scheduled_by_prayer (scheduledNotifications d) →
  scheduledNotifications d !! k = None →
  Forall (fun n => n_id n ≠ k) (dbGetAll_scheduled d).
Proof.
  intros Hwf Hk. apply Forall_forall. intros n (k' & Hn)%dbGetAll_elem.
  destruct (Hwf _ _ Hn) as (Hid & _). congruence.
Qed.

(** X11. An enabled scan changes nothing in the store but the [notified]
    flag of the records it fires: under every key the record after the scan
    is the record before it, marked when it was pending and within the
    window; no record is added or removed, and the settings and the snapshot
    are as before. *)
Theorem scan_marks_only_fired (h : Host) (now : Z) (w : World) :
  scheduled_by_prayer (scheduledNotifications (db w)) →
  s_enabled (getNotificationSettings (db w)) = true →
  (∀ k, scheduledNotifications (db (checkAndShowNotifications h now w)) !! k
        = scanned now <$> scheduledNotifications (db w) !! k) ∧
  settings (db (checkAndShowNotifications h now w)) = settings (db w) ∧
  prayerTimes (db (checkAndShowNotifications h now w)) = prayerTimes (db w).
Proof.
  intros Hwf Hen.
  destruct (checkAndShowNotifications_invariants h now w) as (Hs & Hp & _).
  split; [|done]. intros k. unfold checkAndShowNotifications. rewrite Hen.
  destruct (scheduledNotifications (db w) !! k) as [e|] eqn:He.
  - destruct (dbGetAll_split_loop _ _ _ Hwf He) as (l1 & l2 & -> & Hl1 & Hl2 & Hm1).
    destruct (Hwf _ _ He) as (Hid & Hpr & Hmsg).
    rewrite scan_loop_app by done. rewrite scan_loop_cons.
    destruct (scan_fold_untouched h now k l1 w Hl1) as [Hk1 _].
    set (w1 := scan_loop h now w l1) in *.
    unfold scanned. simpl.
    destruct (scan_body_cases h now w1 e)
      as [Heq | [(Hpend & Hwin & calls & _ & Heq) | (_ & _ & Hnone & _)]].
    + rewrite Heq. destruct (scan_fold_untouched h now k l2 w1 Hl2) as [-> _].
      rewrite Hk1, He. f_equal.
      destruct (n_notified e) eqn:Hn; [done|]. simpl.
      destruct (in_window now e) eqn:Hwin; [|done].
      rewrite scan_body_fire in Heq by done.
      destruct (showPrayerNotification_Some h (n_prayer e) (n_timeStr e) (db w1))
        as [calls Hcalls]; [by rewrite Hpr|].
      rewrite Hcalls in Heq. simpl in Heq. injection Heq as Heq.
      assert (scheduledNotifications (db w1) !! k = Some (mark_notified e)) as Hm.
      { rewrite <- Heq. simpl. by rewrite Hid, lookup_insert_eq. }
      rewrite Hk1, He in Hm. by injection Hm as <-.
    + rewrite Heq.
      destruct (scan_fold_untouched h now k l2
                  {| db := dbPut_scheduled (mark_notified e) (db w1);
                     fired := fired w1 ++ [{| f_entry := e; f_calls := calls |}] |} Hl2)
        as [-> _].
      rewrite Hpend, Hwin. simpl. by rewrite Hid, lookup_insert_eq.
    + rewrite Hpr in Hnone. rewrite Hnone in Hmsg. by destruct Hmsg.
  - by destruct (scan_fold_untouched h now k _ w (dbGetAll_absent _ _ Hwf He)) as [-> _].
Qed.

(** The scan of the sample store marks the Fajr record. *)
Lemma scan_marks_only_fired_witness :
  scheduledNotifications
    (db (checkAndShowNotifications Sample.host (Sample.fajr_time + 30000)
           (Sample.world (Sample.store true {[ "fajr" := Sample.fajr ]})))) !! "fajr"
  = Some (mark_notified Sample.fajr).
Proof.
  refine (eq_trans
    (proj1 (scan_marks_only_fired Sample.host (Sample.fajr_time + 30000)
              (Sample.world (Sample.store true {[ "fajr" := Sample.fajr ]}))
              sample_fajr_by_prayer eq_refl) "fajr") _).
  vm_compute. reflexivity.
Defined.

Lemma db_eq (a b : DB) :
  settings a = settings b → prayerTimes a = prayerTimes b →
  scheduledNotifications a = scheduledNotifications b → a = b.
Proof. destruct a, b. simpl. by intros -> -> ->. Qed.

(** X12. Recomputation is idempotent: run again with the same clock
    readings, it leaves the store that the first run left. *)
Theorem scheduleNotifications_idempotent (h : Host) (r : Readings) (d : DB) :
  scheduleNotifications h r (scheduleNotifications h r d) = scheduleNotifications h r d.
Proof.
  destruct (scheduleNotifications_other h r d) as [Hs Hp].
  destruct (s_enabled (getNotificationSettings d)) eqn:He;
    [|by rewrite !(scheduleNotifications_guard h r d) by (by left)].
  destruct (getPrayerTimes d) as [pt|] eqn:Hpt;
    [|by rewrite !(scheduleNotifications_guard h r d) by (by right)].
  assert (getNotificationSettings (scheduleNotifications h r d) = getNotificationSettings d)
    as Hgs by (unfold getNotificationSettings; by rewrite Hs).
  assert (getPrayerTimes (scheduleNotifications h r d) = Some pt)
    as Hgp by (unfold getPrayerTimes; by rewrite Hp).
  destruct (scheduleNotifications_other h r (scheduleNotifications h r d)) as [Hs2 Hp2].
  apply db_eq; [congruence..|].
  apply map_eq. intros k. apply option_eq. intros n.
  rewrite (scheduleNotifications_lookup h r _ pt k n) by (by rewrite ?Hgs).
  rewrite (scheduleNotifications_lookup h r d pt k n) by done.
  by rewrite Hgs.
Qed.

Lemma scheduleNotifications_by_prayer_enabled (h : Host) (r : Readings) (d : DB) :
  s_enabled (getNotificationSettings d) = true → is_Some (getPrayerTimes d) →
  scheduled_by_prayer (scheduledNotifications (scheduleNotifications h r d)).
Proof.
  intros He [pt Hpt] k n
    (a & timeStr & t & Hin & _ & _ & _ & _ & _ & ->)%(scheduleNotifications_lookup h r d pt k _ He Hpt).
  split; [done|]. split; [done|].
  repeat (apply elem_of_cons in Hin as [[= -> _]|Hin]; [by eexists|]).
  by apply elem_of_nil in Hin.
Qed.

(** X13. Recomputation re-arms a record that was fired early. A scan fires
    a record from 60 seconds before its fire time; a recomputation that
    follows while the fire time is still ahead stores the record anew with
    [notified] false, and the next scan within the window shows the
    notification a second time. *)
Theorem recompute_rearms (h : Host) (r1 r2 : Readings) (w : World)
    (pt : PrayerTimes) (k apiKey : string) (timeStr : list N) (t now1 now2 : Z) :
  host_permission h = true →
  s_enabled (getNotificationSettings (db w)) = true →
  getPrayerTimes (db w) = Some pt →
  (k, apiKey) ∈ timeMapping →
  s_prayers (getNotificationSettings (db w)) !! k = Some true →
  pt_fields pt !! apiKey = Some timeStr → timeStr ≠ [] →
  parseTimeToDate (host_tz h) (r_today r1 k) timeStr = Some t →
  parseTimeToDate (host_tz h) (r_today r2 k) timeStr = Some t →
  r_now r1 < t → r_now r2 < t →
  -60000 ≤ t - now1 ≤ 60000 → -60000 ≤ t - now2 ≤ 60000 →
  let w1 := checkAndShowNotifications h now1 (on_db (scheduleNotifications h r1) w) in
  let w2 := checkAndShowNotifications h now2 (on_db (scheduleNotifications h r2) w1) in
  notifications_of k t (fired w1) = S (notifications_of k t (fired w)) ∧
  notifications_of k t (fired w2) = S (S (notifications_of k t (fired w))).
Proof.
  intros Hperm Hen Hpt Hin Hflag Hf Hne Ht1 Ht2 Hlt1 Hlt2 Hwin1 Hwin2 w1 w2.
  set (e := {| n_id := k; n_prayer := k; n_time := t; n_timeStr := timeStr;
               n_notified := false |}).
  assert (Hstep : ∀ r w0, s_enabled (getNotificationSettings (db w0)) = true →
            getPrayerTimes (db w0) = Some pt →
            s_prayers (getNotificationSettings (db w0)) !! k = Some true →
            parseTimeToDate (host_tz h) (r_today r k) timeStr = Some t →
            r_now r < t → ∀ now, -60000 ≤ t - now ≤ 60000 →
            let w' := checkAndShowNotifications h now (on_db (scheduleNotifications h r) w0) in
            notifications_of k t (fired w') = S (notifications_of k t (fired w0)) ∧
            settings (db w') = settings (db w0) ∧ prayerTimes (db w') = prayerTimes (db w0)).
  { intros r w0 Hen0 Hpt0 Hflag0 Ht Hlt now Hwin w'. subst w'.
    destruct (scheduleNotifications_other h r (db w0)) as [Hs Hp].
    destruct (checkAndShowNotifications_invariants h now (on_db (scheduleNotifications h r) w0))
      as (Hs' & Hp' & _).
    split; [|split; [rewrite Hs'; exact Hs|rewrite Hp'; exact Hp]].
    apply (scan_fires h now (on_db (scheduleNotifications h r) w0) k e); try done.
    - by apply scheduleNotifications_by_prayer_enabled.
    - simpl. unfold getNotificationSettings. by rewrite Hs.
    - simpl. apply (scheduleNotifications_lookup h r (db w0) pt k e Hen0 Hpt0).
      by exists apiKey, timeStr, t.
    - unfold in_window. simpl.
      apply andb_true_iff. split; [apply Z.leb_le|apply Z.geb_le]; lia. }
  destruct (Hstep r1 w Hen Hpt Hflag Ht1 Hlt1 now1 Hwin1) as (Hc1 & Hs1 & Hp1).
  fold w1 in Hc1, Hs1, Hp1. split; [done|].
  destruct (Hstep r2 w1) with (now := now2) as (Hc2 & _); try done.
  - unfold getNotificationSettings. by rewrite Hs1.
  - unfold getPrayerTimes. by rewrite Hp1.
  - unfold getNotificationSettings. by rewrite Hs1.
  - fold w2 in Hc2. by rewrite Hc2, Hc1.
Qed.

(** Fajr shown at 05:14:30, recomputed at 05:14:40, shown again at
    05:15:00. *)
Lemma recompute_rearms_witness :
  let w := Sample.world (Sample.store true ∅) in
  let w1 := checkAndShowNotifications Sample.host (Sample.fajr_time - 30000)
              (on_db (scheduleNotifications Sample.host (Sample.readings Sample.one_am)) w) in
  let w2 := checkAndShowNotifications Sample.host Sample.fajr_time
              (on_db (scheduleNotifications Sample.host
                        (Sample.readings (Sample.fajr_time - 20000))) w1) in
  notifications_of "fajr" Sample.fajr_time (fired w1) = 1%nat ∧
  notifications_of "fajr" Sample.fajr_time (fired w2) = 2%nat.
Proof.
  apply (recompute_rearms Sample.host (Sample.readings Sample.one_am)
           (Sample.readings (Sample.fajr_time - 20000))
           (Sample.world (Sample.store true ∅)) Sample.snapshot "fajr" "subh"
           (JS.of_string "5:15 AM") Sample.fajr_time
           (Sample.fajr_time - 30000) Sample.fajr_time);
    try reflexivity; try discriminate; try compute_done.
Defined.

(* ===================================================================== *)
(** ** Handlers that nothing interrupts *)
(* ===================================================================== *)

(** The loop of a recomputation that nothing interrupts is the fold of
    [schedule_body]. *)
Lemma schedule_continue_run (h : Host) (r : Readings) (s : NotificationSettings)
    (pt : PrayerTimes) (rest : list (string * string)) :
  ∀ (w : World) (n : nat), (length rest ≤ n)%nat →
  task_run h n (schedule_continue h r s pt rest) w
  = (Finished, on_db (fun d => foldl (schedule_body h r s pt) d rest) w).
Proof.
  induction rest as [|[prayer apiKey] rest IH]; intros w n Hn.
  - simpl. unfold on_db. by rewrite world_eta, task_run_Finished.
  - simpl in Hn. cbn [schedule_continue foldl]. unfold schedule_body at 2.
    destruct (s_prayers s !! prayer) as [[|]|]; try (apply IH; lia).
    destruct (pt_fields pt !! apiKey) as [[|c l]|]; try (apply IH; lia).
    destruct (parseTimeToDate _ _ _) as [prayerTime|]; [|apply IH; lia].
    destruct (r_now r <? prayerTime); [|apply IH; lia].
    destruct n as [|n]; [lia|]. rewrite task_run_S. cbn [task_step fst snd].
    rewrite IH by lia. done.
Qed.

(** A recomputation that nothing interrupts is [scheduleNotifications]. *)
Lemma schedule_task_run (h : Host) (r : Readings) (w : World) (n : nat) :
  (9 ≤ n)%nat →
  task_run h n (ReadSettings r) w = (Finished, on_db (scheduleNotifications h r) w).
Proof.
  intros Hn. destruct n as [|[|[|n]]]; [lia..|].
  rewrite !task_run_S. cbn [task_step fst snd].
  unfold on_db at 1, scheduleNotifications.
  destruct (s_enabled _).
  - destruct (getPrayerTimes (db w)) as [pt|]; cbn [task_step fst snd].
    + rewrite schedule_continue_run by (simpl; lia). done.
    + by rewrite world_eta, task_run_Finished.
  - cbn [task_step fst snd]. by rewrite world_eta, task_run_Finished.
Qed.

(** The handler of a control message that nothing interrupts is
    [on_message]. *)
Lemma handler_task_run (h : Host) (r : Readings) (msg : ControlMessage)
    (w : World) (n : nat) :
  (10 + 2 * length (dbGetAll_scheduled (db w)) ≤ n)%nat →
  task_run h n (handler r msg) w = (Finished, on_message h r msg w).
Proof.
  intros Hn. destruct msg as [enabled prayers|fields| |]; cbn [handler on_message].
  - destruct n as [|n]; [lia|]. rewrite task_run_S. cbn [task_step fst snd].
    by rewrite schedule_task_run by lia.
  - destruct n as [|n]; [lia|]. rewrite task_run_S. cbn [task_step fst snd].
    by rewrite schedule_task_run by lia.
  - apply scan_task_run. lia.
  - apply schedule_task_run. lia.
Qed.



(* ===================================================================== *)
(** ** Disabling and updating *)
(* ===================================================================== *)








(** X19. A handler that nothing interrupts acts as the function run in one
    piece. On any worker, a tick followed by the store operations of its
    scan, as many as the scan can make, leaves the store and the log that
    [checkAndShowNotifications] computes, and a control message followed
    by the store operations of its handler those that [on_message]
    computes; the handler has then ended and the other tasks are as they
    were. *)
Theorem handlers_run_to_completion (h : Host) (w : World) (ts : list Task) (n : nat) :
  (10 + 2 * length (dbGetAll_scheduled (db w)) ≤ n)%nat →
  (∀ now,
     worker_run h {| store := w; tasks := ts |}
       (Tick now :: replicate n (Advance (length ts)))
     = {| store := checkAndShowNotifications h now w; tasks := ts ++ [Finished] |}) ∧
  (∀ r msg,
     worker_run h {| store := w; tasks := ts |}
       (Receive r msg :: replicate n (Advance (length ts)))
     = {| store := on_message h r msg w; tasks := ts ++ [Finished] |}).
Proof.
  intros Hn. split.
  - intros now. apply tick_to_completion. lia.
  - intros r msg. simpl. fold (worker_run h).
    rewrite worker_run_advance. by rewrite handler_task_run.
Qed.

(** A recomputation on the sample store, one store operation after the
    other. *)
Lemma handlers_run_to_completion_witness :
  worker_run Sample.host
    {| store := Sample.world (Sample.store true {[ "isha" := Sample.old_isha ]});
       tasks := [] |}
    (Receive (Sample.readings Sample.one_am) SCHEDULE_NOTIFICATIONS
     :: replicate 12 (Advance 0))
  = {| store := on_message Sample.host (Sample.readings Sample.one_am)
                  SCHEDULE_NOTIFICATIONS
                  (Sample.world (Sample.store true {[ "isha" := Sample.old_isha ]}));
       tasks := [Finished] |}.
Proof.
  refine (proj2 (handlers_run_to_completion Sample.host
                   (Sample.world (Sample.store true {[ "isha" := Sample.old_isha ]}))
                   [] 12 _) _ _).
  vm_compute. lia.
Defined.

(** X20. Switching the notifications off does not stop the handlers that
    have read the settings enabled. On the sample store with Fajr pending
    and due, a scan and a recomputation have read the settings when an
    [UPDATE_NOTIFICATION_SETTINGS] message with [enabled] false is handled
    to its end: the stored flag is off, the scheduled record is untouched
    and nothing was shown. The scan then shows the Fajr notification and
    marks the record, and the recomputation clears the store and writes
    the record anew, pending. *)
Theorem disabling_spares_handlers_in_flight :
  let now := Sample.fajr_time - 10000 in
  let r := Sample.readings now in
  let s := worker_run Sample.host
             {| store := Sample.world (Sample.store true {[ "fajr" := Sample.fajr ]});
                tasks := [] |}
             [Tick now; Advance 0; Receive r SCHEDULE_NOTIFICATIONS; Advance 1; Advance 1] in
  let s0 := worker_run Sample.host s
              (Receive r (UPDATE_NOTIFICATION_SETTINGS false ∅) :: replicate 3 (Advance 2)) in
  let s1 := worker_run Sample.host s0 (replicate 3 (Advance 0)) in
  let s2 := worker_run Sample.host s1 (replicate 2 (Advance 1)) in
  tasks s = [ScanGetAll now;
             ClearScheduled r (getNotificationSettings (db (store s))) Sample.snapshot] ∧
  s_enabled (getNotificationSettings (db (store s0))) = false ∧
  tasks s0 = tasks s ++ [Finished] ∧
  fired (store s0) = [] ∧
  scheduledNotifications (db (store s0)) = {[ "fajr" := Sample.fajr ]} ∧
  notifications_of "fajr" Sample.fajr_time (fired (store s1)) = 1%nat ∧
  scheduledNotifications (db (store s1)) = {[ "fajr" := mark_notified Sample.fajr ]} ∧
  scheduledNotifications (db (store s2)) = {[ "fajr" := Sample.fajr ]} ∧
  tasks s2 = [Finished; Finished; Finished] ∧
  s_enabled (getNotificationSettings (db (store s2))) = false.
Proof. repeat split; vm_compute; reflexivity. Qed.

(* ===================================================================== *)
(** ** Bounds of the parsed time *)
(* ===================================================================== *)

Lemma is_digit_range (c : N) : JS.is_digit c = true → 0 ≤ Z.of_N c - 48 ≤ 9.
Proof.
  unfold JS.is_digit. rewrite andb_true_iff, !N.leb_le. lia.
Qed.

Lemma parseInt_two_digits (ds : list N) :
  (length ds = 1 ∨ length ds = 2)%nat →
  Forall (fun c => JS.is_digit c = true) ds →
  0 ≤ JS.parseInt ds ≤ 99.
Proof.
  intros Hlen Hds. destruct ds as [|d1 [|d2 [|]]]; simpl in Hlen; try lia.
  - apply Forall_cons in Hds as [H1%is_digit_range _]. unfold JS.parseInt. simpl. lia.
  - apply Forall_cons in Hds as [H1%is_digit_range Hds].
    apply Forall_cons in Hds as [H2%is_digit_range _]. unfold JS.parseInt. simpl. lia.
Qed.

Lemma to_24_hours_range (p : list N) (h : Z) :
  0 ≤ h ≤ 99 → 0 ≤ to_24_hours p h ≤ 111 ∧ (1 ≤ h ≤ 12 → to_24_hours p h ≤ 23).
Proof.
  intros Hh. unfold to_24_hours. destruct p as [|c p]; [lia|].
  case_bool_decide; destruct (Z.eqb_spec h 12); lia.
Qed.

(** X16. [parseTimeToDate] does not check the clock values it reads. Any
    one or two hour digits and any two minute digits are accepted: a text
    that begins with a time text is read as today's local date plus the
    hour number of its hour digits, converted from the 12-hour clock, and
    the minute number of its minute digits. A result is always that of the
    leftmost time text of the string; its minute number is between 0 and
    99 and its hour count between 0 and 111, so it can lie up to four days
    ahead; when the hour number of the text is between 1 and 12 the hour
    count is at most 23. *)
Theorem parseTimeToDate_bounds (tz : TimeZone) (today : Z) (s : list N) :
  (∀ hs ms ws p suf,
     time_text_at s [] hs ms ws p suf →
     parseTimeToDate tz today s
     = Some (localDate tz today (to_24_hours p (JS.parseInt hs)) (JS.parseInt ms))) ∧
  (∀ t, parseTimeToDate tz today s = Some t →
     ∃ pre hs ms ws p suf,
       time_text_at s pre hs ms ws p suf ∧
       (∀ pre' hs' ms' ws' p' suf',
          time_text_at s pre' hs' ms' ws' p' suf' → (length pre ≤ length pre')%nat) ∧
       t = localDate tz today (to_24_hours p (JS.parseInt hs)) (JS.parseInt ms) ∧
       0 ≤ JS.parseInt hs ≤ 99 ∧ 0 ≤ JS.parseInt ms ≤ 99 ∧
       0 ≤ to_24_hours p (JS.parseInt hs) ≤ 111 ∧
       (1 ≤ JS.parseInt hs ≤ 12 → to_24_hours p (JS.parseInt hs) ≤ 23)).
Proof.
  rewrite parseTimeToDate_match. split.
  - intros hs ms ws p suf H.
    rewrite (regex_match_leftmost s [] hs ms ws p suf H) by (intros; simpl; lia).
    simpl. rewrite period_hours; [done|]. by destruct H as (_ & _ & _ & _ & _ & _ & Hp).
  - intros t. destruct (JS.regex_match s) as [m|] eqn:Hm; [|done]. intros [= <-].
    apply regex_match_Some in Hm as (pre & ws & suf & H & Hleft).
    pose proof H as (_ & Hhl & Hhs & Hml & Hms & _ & Hp).
    pose proof (parseInt_two_digits _ Hhl Hhs) as Hh.
    pose proof (parseInt_two_digits _ (or_intror Hml) Hms) as Hmin.
    exists pre, (JS.m_hours m), (JS.m_minutes m), ws, (JS.m_period m), suf.
    split; [done|]. split; [done|]. split; [by rewrite period_hours|].
    split; [done|]. split; [done|]. by apply to_24_hours_range.
Qed.

(** The text [99:99 PM] is read as 111 hours and 99 minutes after today's
    local midnight. *)
Lemma parseTimeToDate_bounds_witness :
  parseTimeToDate IST Sample.one_am (JS.of_string "99:99 PM")
  = Some (localDate IST Sample.one_am 111 99).
Proof.
  apply (proj1 (parseTimeToDate_bounds IST Sample.one_am (JS.of_string "99:99 PM"))
           (JS.of_string "99") (JS.of_string "99") (JS.of_string " ") (JS.of_string "PM") []).
  split; [reflexivity|]. split; [by right|].
  split; [by repeat constructor|]. split; [reflexivity|].
  split; [by repeat constructor|]. split; [by repeat constructor|].
  exists 80%N, 77%N. split; [reflexivity|]. split.
  - apply list_elem_of_In. simpl. right. right. by left.
  - apply list_elem_of_In. simpl. by left.
Defined.

(* ===================================================================== *)
(** ** The scan timer *)
(* ===================================================================== *)

Lemma startNotificationChecker_one (new_handle : gset nat → nat) (now : Z)
    (c : Checker) (s : System) :
  (∀ used, new_handle used ≠ 0%nat) →
  (notificationCheckInterval c = None ∧ intervals c = ∅) ∨
  (∃ handle, handle ≠ 0%nat ∧ notificationCheckInterval c = Some handle ∧
             intervals c = {[handle]}) →
  ∃ handle, handle ≠ 0%nat ∧
    notificationCheckInterval (startNotificationChecker new_handle now c s).1 = Some handle ∧
    intervals (startNotificationChecker new_handle now c s).1 = {[handle]}.
Proof.
  intros Hnew Hc. unfold startNotificationChecker. simpl.
  assert (match notificationCheckInterval c with
          | Some handle => if (handle =? 0)%nat then intervals c
                           else intervals c ∖ {[handle]}
          | None => intervals c
          end = ∅) as ->.
  { destruct Hc as [[-> ->]|(handle & Hne & -> & ->)]; [done|].
    apply Nat.eqb_neq in Hne as ->. apply difference_diag_L. }
  exists (new_handle ∅). split; [apply Hnew|]. split; [done|]. apply union_empty_r_L.
Qed.

(** X17. The scan timer does not accumulate. However many times the
    checker is started on a worker loaded afresh (once per activation), the
    host then holds exactly one interval timer, the one recorded in
    [notificationCheckInterval], provided the host hands out non-zero timer
    handles; and each start has triggered one scan. *)
Theorem checker_keeps_one_timer (new_handle : gset nat → nat) (nows : list Z) (s : System) :
  (∀ used, new_handle used ≠ 0%nat) →
  nows ≠ [] →
  (∃ handle, notificationCheckInterval (start_all new_handle nows checker_loaded s).1
               = Some handle ∧
             intervals (start_all new_handle nows checker_loaded s).1 = {[handle]}) ∧
  (start_all new_handle nows checker_loaded s).2
    = foldl (fun s now => start_scan now s) s nows.
Proof.
  intros Hnew Hnows. unfold start_all.
  assert (Hscan : ∀ l c s0,
            (foldl (fun cs now => startNotificationChecker new_handle now cs.1 cs.2)
               (c, s0) l).2 = foldl (fun s now => start_scan now s) s0 l).
  { induction l as [|now l IH]; intros c s0; [done|]. simpl. apply IH. }
  split; [|apply Hscan].
  assert (Hinv : ∀ l c s0,
            (notificationCheckInterval c = None ∧ intervals c = ∅) ∨
            (∃ handle, handle ≠ 0%nat ∧ notificationCheckInterval c = Some handle ∧
                       intervals c = {[handle]}) →
            l ≠ [] →
            ∃ handle, handle ≠ 0%nat ∧
              notificationCheckInterval
                (foldl (fun cs now => startNotificationChecker new_handle now cs.1 cs.2)
                   (c, s0) l).1 = Some handle ∧
              intervals
                (foldl (fun cs now => startNotificationChecker new_handle now cs.1 cs.2)
                   (c, s0) l).1 = {[handle]}).
  { induction l as [|now l IH]; intros c s0 Hc Hl; [done|]. simpl.
    pose proof (startNotificationChecker_one new_handle now c s0 Hnew Hc) as Hstep.
    destruct l as [|now' l]; [exact Hstep|].
    destruct (startNotificationChecker new_handle now c s0) as [c1 s1] eqn:Heq.
    apply IH; [by right|done]. }
  destruct (Hinv nows checker_loaded s) as (handle & _ & Hh & Hi); [by left|done|].
  by exists handle.
Qed.

(** Three activations leave one timer. *)
Lemma checker_keeps_one_timer_witness :
  ∃ handle,
    notificationCheckInterval
      (start_all Origin.new_handle [Sample.one_am; Sample.one_am + 5; Sample.one_am + 9]
         checker_loaded
         {| world := Sample.world empty_db; scans := [] |}).1 = Some handle ∧
    intervals
      (start_all Origin.new_handle [Sample.one_am; Sample.one_am + 5; Sample.one_am + 9]
         checker_loaded
         {| world := Sample.world empty_db; scans := [] |}).1 = {[handle]}.
Proof.
  apply (proj1 (checker_keeps_one_timer Origin.new_handle
                  [Sample.one_am; Sample.one_am + 5; Sample.one_am + 9]
                  {| world := Sample.world empty_db; scans := [] |}
                  (fun used => Nat.neq_succ_0 _) ltac:(discriminate))).
Defined.

(* ===================================================================== *)
(** ** Notification clicks *)
(* ===================================================================== *)

(** X18. A click on a notification never both focuses and opens a window.
    The [dismiss] action only closes the notification. Any other action
    focuses the first window client whose URL contains [azantimes.in], when
    there is one; a window is opened only when there is none, and then never
    at an empty URL. *)
Theorem notificationclick_outcome (action : string) (url : option string)
    (clientList : list WindowClient) (openWindow : bool) :
  (action = "dismiss" →
   on_notificationclick action url clientList openWindow = JustClosed) ∧
  (action ≠ "dismiss" →
   ∀ i client,
     clientList !! i = Some client → is_app_window client →
     (∀ j other, clientList !! j = Some other → (j < i)%nat → ¬ is_app_window other) →
     on_notificationclick action url clientList openWindow = Focused client) ∧
  (∀ u, on_notificationclick action url clientList openWindow = Opened u →
     action ≠ "dismiss" ∧ openWindow = true ∧ u ≠ EmptyString ∧
     (∀ client, client ∈ clientList → ¬ is_app_window client) ∧
     (u = "/" ∨ url = Some u)).
Proof.
  unfold on_notificationclick, is_app_window. split; [|split].
  - intros ->. done.
  - intros Hne i client Hi Hc Hfirst.
    rewrite (proj2 (String.eqb_neq _ _) Hne).
    assert (list_find (fun client => includes "azantimes.in" (client_url client) = true
                                     ∧ client_focus client = true) clientList
            = Some (i, client)) as ->; [|done].
    apply list_find_Some. done.
  - intros u. destruct (String.eqb_spec action "dismiss") as [->|Hne]; [done|].
    destruct (list_find _ _) as [[i c]|] eqn:Hfind; [done|].
    destruct openWindow; [|done]. intros [= <-].
    split; [done|]. split; [done|].
    split; [by destruct url as [[|c u]|]|].
    split.
    + intros client Hin. eapply list_find_None in Hfind.
      by eapply Forall_forall in Hfind.
    + destruct url as [[|c u]|]; [by left|by right|by left].
Qed.

(** A click on the body of a notification with the application open in the
    second window. *)
Lemma notificationclick_outcome_witness :
  on_notificationclick "view" None [Origin.other_window; Origin.app_window] true
  = Focused Origin.app_window.
Proof.
  apply (proj1 (proj2 (notificationclick_outcome "view" None
                         [Origin.other_window; Origin.app_window] true))
           ltac:(discriminate) 1%nat Origin.app_window eq_refl).
  - split; reflexivity.
  - intros j other Hj Hlt. destruct j as [|j]; [|lia].
    injection Hj as <-. intros [H _]. discriminate H.
Defined.
